(** * Delivery state manager: the store, its transition rules and the matcher

    A shallow embedding of [internal/models], [pkg/errs],
    [internal/repository/state_manager.go], the driver and order use cases
    and [internal/service/matcher.go].

    The Go store keeps [map[string]*Driver] and [map[string]*Order]: the maps
    hold pointers, and the records live in heap cells that callers may also
    hold.  The embedding keeps that split: a state is two heaps of cells
    (one per record type) plus the two maps from IDs to cell addresses.
    Every method of the store runs under the store's lock, so each one is a
    single atomic transition of this state. *)

From Stdlib Require Import ZArith Floats.PrimFloat.
From stdpp Require Import gmap strings list fin_maps.

Local Open Scope string_scope.
Local Open Scope Z_scope.

(* ===================================================================== *)
(** ** pkg/errs *)
(* ===================================================================== *)

Module errs.

(** The six sentinel errors of [errs.go].

    Modelled from the spec: [ErrMissingRequiredField] is returned by both
    use cases but its declaration is not part of [errs.go] as given; it is
    the spec's [MissingField] kind (required identity/name field absent on
    create). *)
Inductive error : Type :=
| ErrInvalidStatusUpdate
| ErrInvalidTransition
| ErrDriverNotAvailable
| ErrOrderAlreadyAssigned
| ErrDriverNotFound
| ErrOrderNotFound
| ErrMissingRequiredField.

(** The spec's [NotFound] kind covers both not-found sentinels. *)
Definition is_NotFound (e : error) : bool :=
  match e with
  | ErrDriverNotFound | ErrOrderNotFound => true
  | _ => false
  end.

End errs.
Export errs.

(* ===================================================================== *)
(** ** internal/models *)
(* ===================================================================== *)

(** [float64] coordinates are only ever copied by the store. *)
Record Location : Type := { Lat : float; Lon : float }.

(** [type DriverStatus string] and [type OrderStatus string]: statuses are
    strings, and any string can arrive from a request body. *)
Abbreviation DriverStatus := string (only parsing).
Abbreviation OrderStatus := string (only parsing).

Definition DriverAvailable : DriverStatus := "available".
Definition DriverBusy : DriverStatus := "busy".
Definition DriverOffline : DriverStatus := "offline".

Definition OrderPending : OrderStatus := "pending".
Definition OrderAssigned : OrderStatus := "assigned".
Definition OrderPickedUp : OrderStatus := "picked_up".
Definition OrderDelivered : OrderStatus := "delivered".
Definition OrderCanceled : OrderStatus := "canceled".

Module Driver.
Record t : Type := mk {
  ID : string;
  Name : string;
  Status : DriverStatus;
  Loc : Location;
  UpdatedAt : Z
}.

(** Field assignments [d.Status = v] and [d.UpdatedAt = v]. *)
Definition set_Status (v : DriverStatus) (d : t) : t :=
  mk (ID d) (Name d) v (Loc d) (UpdatedAt d).
Definition set_UpdatedAt (v : Z) (d : t) : t :=
  mk (ID d) (Name d) (Status d) (Loc d) v.
End Driver.

Module Order.
Record t : Type := mk {
  ID : string;
  Customer : string;
  Pickup : Location;
  Dropoff : Location;
  Status : OrderStatus;
  DriverID : string;
  CreatedAt : Z;
  UpdatedAt : Z
}.

Definition set_Status (v : OrderStatus) (o : t) : t :=
  mk (ID o) (Customer o) (Pickup o) (Dropoff o) v (DriverID o)
     (CreatedAt o) (UpdatedAt o).
Definition set_DriverID (v : string) (o : t) : t :=
  mk (ID o) (Customer o) (Pickup o) (Dropoff o) (Status o) v
     (CreatedAt o) (UpdatedAt o).
Definition set_CreatedAt (v : Z) (o : t) : t :=
  mk (ID o) (Customer o) (Pickup o) (Dropoff o) (Status o) (DriverID o)
     v (UpdatedAt o).
Definition set_UpdatedAt (v : Z) (o : t) : t :=
  mk (ID o) (Customer o) (Pickup o) (Dropoff o) (Status o) (DriverID o)
     (CreatedAt o) v.
End Order.

(** [IsValidDriverStatus]: the [switch] over the three constants. *)
Definition IsValidDriverStatus (status : DriverStatus) : bool :=
  if decide (status = DriverAvailable) then true
  else if decide (status = DriverBusy) then true
  else if decide (status = DriverOffline) then true
  else false.

(** [IsValidOrderStatus]: the [switch] over the five constants. *)
Definition IsValidOrderStatus (status : OrderStatus) : bool :=
  if decide (status = OrderPending) then true
  else if decide (status = OrderAssigned) then true
  else if decide (status = OrderPickedUp) then true
  else if decide (status = OrderDelivered) then true
  else if decide (status = OrderCanceled) then true
  else false.

(** The table built inside [CanTransitionOrderStatus]. *)
Definition validTransitions : gmap string (list OrderStatus) :=
  <[OrderPending := [OrderAssigned; OrderCanceled]]>
  (<[OrderAssigned := [OrderPickedUp; OrderCanceled]]>
  (<[OrderPickedUp := [OrderDelivered; OrderCanceled]]>
  (<[OrderDelivered := []]>
  (<[OrderCanceled := []]> ∅)))).

(** [CanTransitionOrderStatus]: look the source state up in the table, then
    scan its successor list for the target. *)
Definition CanTransitionOrderStatus (from to : OrderStatus) : bool :=
  match validTransitions !! from with
  | None => false
  | Some allowedStates =>
      existsb (fun allowed => bool_decide (allowed = to)) allowedStates
  end.

(* ===================================================================== *)
(** ** The heap and the store *)
(* ===================================================================== *)

(** Addresses of heap cells.  [*Driver] and [*Order] are distinct pointer
    types, so the two kinds of cell never alias each other. *)
Abbreviation ptr := positive (only parsing).

Record State : Type := mkState {
  dcell : gmap positive Driver.t;   (* heap cells holding Driver structs *)
  ocell : gmap positive Order.t;    (* heap cells holding Order structs *)
  drivers : gmap string positive;   (* sm.drivers *)
  orders : gmap string positive     (* sm.orders *)
}.

(** [NewStateManager] on an empty heap. *)
Definition NewStateManager : State := mkState ∅ ∅ ∅ ∅.

Definition upd_dcell (f : gmap positive Driver.t -> gmap positive Driver.t)
    (s : State) : State :=
  mkState (f (dcell s)) (ocell s) (drivers s) (orders s).
Definition upd_ocell (f : gmap positive Order.t -> gmap positive Order.t)
    (s : State) : State :=
  mkState (dcell s) (f (ocell s)) (drivers s) (orders s).
Definition upd_drivers (f : gmap string positive -> gmap string positive)
    (s : State) : State :=
  mkState (dcell s) (ocell s) (f (drivers s)) (orders s).
Definition upd_orders (f : gmap string positive -> gmap string positive)
    (s : State) : State :=
  mkState (dcell s) (ocell s) (drivers s) (f (orders s)).

(** What the store holds under an ID: follow the map, then the pointer. *)
Definition driver_at (s : State) (id : string) : option Driver.t :=
  drivers s !! id ≫= fun p => dcell s !! p.
Definition order_at (s : State) (id : string) : option Order.t :=
  orders s !! id ≫= fun p => ocell s !! p.

(** Allocation of a fresh cell: [&models.Driver{...}], [var driver
    models.Driver] followed by a bind, or the [driverCopy := *driver]
    whose address escapes. *)
Definition new_Driver (d : Driver.t) (s : State) : ptr * State :=
  let p := fresh (dom (dcell s)) in (p, upd_dcell <[p := d]> s).
Definition new_Order (o : Order.t) (s : State) : ptr * State :=
  let p := fresh (dom (ocell s)) in (p, upd_ocell <[p := o]> s).

(** A write through a pointer the caller holds: [*p = d]. A write through a
    pointer to no cell is a nil dereference. *)
Definition write_Driver (p : ptr) (d : Driver.t) (s : State) : option State :=
  match dcell s !! p with
  | None => None
  | Some _ => Some (upd_dcell <[p := d]> s)
  end.
Definition write_Order (p : ptr) (o : Order.t) (s : State) : option State :=
  match ocell s !! p with
  | None => None
  | Some _ => Some (upd_ocell <[p := o]> s)
  end.

(* ===================================================================== *)
(** ** internal/repository: StateManager *)
(* ===================================================================== *)

(** A method returns [None] when it dereferences a pointer to no cell (a
    Go nil-pointer panic); otherwise the state it leaves and its result.
    [GetCurrentTimestamp] reads the wall clock: the value it returns is an
    input [now] of the method that calls it. *)

Module StateManager.

(** [CreateOrUpdateDriver]: stamps the caller's record in place and stores
    the caller's pointer under the record's ID. *)
Definition CreateOrUpdateDriver (now : Z) (driver : ptr) (s : State)
    : option State :=
  match dcell s !! driver with
  | None => None
  | Some d =>
      let d' := Driver.set_UpdatedAt now d in
      Some (upd_drivers <[Driver.ID d' := driver]>
              (upd_dcell <[driver := d']> s))
  end.

(** [GetDriver]: [driverCopy := *driver; return &driverCopy, nil]. *)
Definition GetDriver (id : string) (s : State)
    : option (State * (ptr + error)) :=
  match drivers s !! id with
  | None => Some (s, inr ErrDriverNotFound)
  | Some driver =>
      match dcell s !! driver with
      | None => None
      | Some d =>
          let '(driverCopy, s') := new_Driver d s in
          Some (s', inl driverCopy)
      end
  end.

(** The body shared by the three [for _, driver := range sm.drivers]
    loops: visit the entries in the order [kvs] the runtime picked, copy
    every driver that passes [keep] into a fresh cell and collect the
    ID and the address of the copy. *)
Fixpoint range_drivers (keep : Driver.t -> bool)
    (kvs : list (string * ptr)) (s : State)
    : option (State * list (string * ptr)) :=
  match kvs with
  | [] => Some (s, [])
  | (id, driver) :: rest =>
      match dcell s !! driver with
      | None => None
      | Some d =>
          if keep d then
            let '(driverCopy, s1) := new_Driver d s in
            match range_drivers keep rest s1 with
            | None => None
            | Some (s2, out) => Some (s2, (id, driverCopy) :: out)
            end
          else range_drivers keep rest s
      end
  end.

(** The same for the three [for _, order := range sm.orders] loops. *)
Fixpoint range_orders (keep : Order.t -> bool)
    (kvs : list (string * ptr)) (s : State)
    : option (State * list (string * ptr)) :=
  match kvs with
  | [] => Some (s, [])
  | (id, order) :: rest =>
      match ocell s !! order with
      | None => None
      | Some o =>
          if keep o then
            let '(orderCopy, s1) := new_Order o s in
            match range_orders keep rest s1 with
            | None => None
            | Some (s2, out) => Some (s2, (id, orderCopy) :: out)
            end
          else range_orders keep rest s
      end
  end.

(** [GetAllDrivers]; [kvs] is the iteration order of [range sm.drivers]. *)
Definition GetAllDrivers (kvs : list (string * ptr)) (s : State)
    : option (State * list ptr) :=
  match range_drivers (fun _ => true) kvs s with
  | None => None
  | Some (s', out) => Some (s', out.*2)
  end.

(** [UpdateDriverStatus]. *)
Definition UpdateDriverStatus (now : Z) (id : string)
    (status : DriverStatus) (s : State) : option (State * option error) :=
  if negb (IsValidDriverStatus status) then
    Some (s, Some ErrInvalidStatusUpdate)
  else
    match drivers s !! id with
    | None => Some (s, Some ErrDriverNotFound)
    | Some driver =>
        match dcell s !! driver with
        | None => None
        | Some d =>
            let d' := Driver.set_UpdatedAt now (Driver.set_Status status d) in
            Some (upd_dcell <[driver := d']> s, None)
        end
    end.

(** [CreateOrder]: resets the caller's record in place and stores the
    caller's pointer under the record's ID. *)
Definition CreateOrder (now : Z) (order : ptr) (s : State) : option State :=
  match ocell s !! order with
  | None => None
  | Some o =>
      let o' :=
        Order.set_DriverID ""
          (Order.set_UpdatedAt now
             (Order.set_CreatedAt now
                (Order.set_Status OrderPending o))) in
      Some (upd_orders <[Order.ID o' := order]>
              (upd_ocell <[order := o']> s))
  end.

(** [GetOrder]. *)
Definition GetOrder (id : string) (s : State)
    : option (State * (ptr + error)) :=
  match orders s !! id with
  | None => Some (s, inr ErrOrderNotFound)
  | Some order =>
      match ocell s !! order with
      | None => None
      | Some o =>
          let '(orderCopy, s') := new_Order o s in
          Some (s', inl orderCopy)
      end
  end.

(** [GetAllOrders]. *)
Definition GetAllOrders (kvs : list (string * ptr)) (s : State)
    : option (State * list ptr) :=
  match range_orders (fun _ => true) kvs s with
  | None => None
  | Some (s', out) => Some (s', out.*2)
  end.

(** [UpdateOrderStatus]. *)
Definition UpdateOrderStatus (now : Z) (id : string)
    (status : OrderStatus) (s : State) : option (State * option error) :=
  if negb (IsValidOrderStatus status) then
    Some (s, Some ErrInvalidStatusUpdate)
  else
    match orders s !! id with
    | None => Some (s, Some ErrOrderNotFound)
    | Some order =>
        match ocell s !! order with
        | None => None
        | Some o =>
            if negb (CanTransitionOrderStatus (Order.Status o) status) then
              Some (s, Some ErrInvalidTransition)
            else
              let o' := Order.set_UpdatedAt now (Order.set_Status status o) in
              Some (upd_ocell <[order := o']> s, None)
        end
    end.

(** [GetPendingOrders]. *)
Definition GetPendingOrders (kvs : list (string * ptr)) (s : State)
    : option (State * list ptr) :=
  match range_orders
          (fun o => bool_decide (Order.Status o = OrderPending)) kvs s with
  | None => None
  | Some (s', out) => Some (s', out.*2)
  end.

(** [GetAvailableDrivers]. *)
Definition GetAvailableDrivers (kvs : list (string * ptr)) (s : State)
    : option (State * list ptr) :=
  match range_drivers
          (fun d => bool_decide (Driver.Status d = DriverAvailable)) kvs s with
  | None => None
  | Some (s', out) => Some (s', out.*2)
  end.

(** [AssignOrderToDriver].  The two stamps come from two separate reads of
    the clock, [now1] for the order and [now2] for the driver. *)
Definition AssignOrderToDriver (now1 now2 : Z) (orderID driverID : string)
    (s : State) : option (State * option error) :=
  match orders s !! orderID with
  | None => Some (s, Some ErrOrderNotFound)
  | Some order =>
      match drivers s !! driverID with
      | None => Some (s, Some ErrDriverNotFound)
      | Some driver =>
          match ocell s !! order with
          | None => None
          | Some o =>
              if negb (bool_decide (Order.Status o = OrderPending)) then
                Some (s, Some ErrOrderAlreadyAssigned)
              else
                match dcell s !! driver with
                | None => None
                | Some d =>
                    if negb (bool_decide
                               (Driver.Status d = DriverAvailable)) then
                      Some (s, Some ErrDriverNotAvailable)
                    else
                      let o' :=
                        Order.set_UpdatedAt now1
                          (Order.set_DriverID driverID
                             (Order.set_Status OrderAssigned o)) in
                      let d' :=
                        Driver.set_UpdatedAt now2
                          (Driver.set_Status DriverBusy d) in
                      Some (upd_dcell <[driver := d']>
                              (upd_ocell <[order := o']> s), None)
                end
          end
      end
  end.

(** [models.StateSnapshot]: the two maps of the snapshot point at the
    copies. *)
Record StateSnapshot : Type := mkSnapshot {
  Drivers : gmap string positive;
  Orders : gmap string positive;
  Timestamp : Z
}.

(** [GetSnapshot]; [kd] and [ko] are the iteration orders of the two
    [range] loops. *)
Definition GetSnapshot (now : Z) (kd ko : list (string * ptr)) (s : State)
    : option (State * StateSnapshot) :=
  match range_drivers (fun _ => true) kd s with
  | None => None
  | Some (s1, outd) =>
      match range_orders (fun _ => true) ko s1 with
      | None => None
      | Some (s2, outo) =>
          Some (s2, mkSnapshot (list_to_map outd) (list_to_map outo) now)
      end
  end.

End StateManager.

(** Go's [range] over a map visits every entry once, in an order the
    runtime chooses. *)
Definition range_of (m : gmap string positive) (kvs : list (string * ptr))
    : Prop :=
  kvs ≡ₚ map_to_list m.

(* ===================================================================== *)
(** ** internal/usecase *)
(* ===================================================================== *)

Module DriverUseCase.

(** [CreateOrUpdateDriver]: validation, the default status written into
    the caller's record, then the repository call. *)
Definition CreateOrUpdateDriver (now : Z) (driver : ptr) (s : State)
    : option (State * option error) :=
  match dcell s !! driver with
  | None => None
  | Some d =>
      if bool_decide (Driver.ID d = "") || bool_decide (Driver.Name d = "")
      then Some (s, Some ErrMissingRequiredField)
      else if negb (bool_decide (Driver.Status d = ""))
              && negb (IsValidDriverStatus (Driver.Status d))
      then Some (s, Some ErrInvalidStatusUpdate)
      else
        let s1 :=
          if bool_decide (Driver.Status d = "")
          then upd_dcell <[driver := Driver.set_Status DriverAvailable d]> s
          else s in
        match StateManager.CreateOrUpdateDriver now driver s1 with
        | None => None
        | Some s2 => Some (s2, None)
        end
  end.

Definition GetDriver := StateManager.GetDriver.
Definition GetAllDrivers := StateManager.GetAllDrivers.
Definition UpdateDriverStatus := StateManager.UpdateDriverStatus.

End DriverUseCase.

Module OrderUseCase.

(** [CreateOrder]: validation, then the repository call. *)
Definition CreateOrder (now : Z) (order : ptr) (s : State)
    : option (State * option error) :=
  match ocell s !! order with
  | None => None
  | Some o =>
      if bool_decide (Order.ID o = "") || bool_decide (Order.Customer o = "")
      then Some (s, Some ErrMissingRequiredField)
      else
        match StateManager.CreateOrder now order s with
        | None => None
        | Some s1 => Some (s1, None)
        end
  end.

Definition GetOrder := StateManager.GetOrder.
Definition GetAllOrders := StateManager.GetAllOrders.
Definition UpdateOrderStatus := StateManager.UpdateOrderStatus.

End OrderUseCase.

(* ===================================================================== *)
(** ** internal/service: Matcher *)
(* ===================================================================== *)

Module Matcher.

(** The lines [MatchOrders] writes to the log. *)
Inductive log_line : Type :=
| NoAvailableDrivers (pending : nat)
| FailedToAssign (orderID driverID : string) (err : error)
| Matched (orderID driverID : string)
| Completed (matched : nat).

(** The [for i, order := range pendingOrders] loop.  [pendingOrders] is
    the part of the slice still to visit and [i] the index of its head;
    [clock i] gives the two clock readings of the [i]-th assignment. *)
Fixpoint loop (clock : nat -> Z * Z) (i : nat)
    (pendingOrders availableDrivers : list ptr) (matched : nat) (s : State)
    : option (State * nat * list log_line) :=
  match pendingOrders with
  | [] => Some (s, matched, [])
  | order :: rest =>
      if bool_decide (length availableDrivers ≤ i)%nat then
        Some (s, matched, [])
      else
        match availableDrivers !! i with
        | None => None
        | Some driver =>
            match ocell s !! order, dcell s !! driver with
            | Some o, Some d =>
                match StateManager.AssignOrderToDriver
                        (clock i).1 (clock i).2
                        (Order.ID o) (Driver.ID d) s with
                | None => None
                | Some (s1, Some err) =>
                    match loop clock (S i) rest availableDrivers
                            matched s1 with
                    | None => None
                    | Some (s2, m, lg) =>
                        Some (s2, m,
                              FailedToAssign (Order.ID o) (Driver.ID d) err
                                :: lg)
                    end
                | Some (s1, None) =>
                    match loop clock (S i) rest availableDrivers
                            (S matched) s1 with
                    | None => None
                    | Some (s2, m, lg) =>
                        Some (s2, m,
                              Matched (Order.ID o) (Driver.ID d) :: lg)
                    end
                end
            | _, _ => None
            end
        end
  end.

(** The body of [MatchOrders] once the two lists have been read. *)
Definition match_lists (clock : nat -> Z * Z)
    (pendingOrders availableDrivers : list ptr) (s : State)
    : option (State * list log_line) :=
  if bool_decide (length pendingOrders = 0%nat) then Some (s, [])
  else if bool_decide (length availableDrivers = 0%nat) then
    Some (s, [NoAvailableDrivers (length pendingOrders)])
  else
    match loop clock 0 pendingOrders availableDrivers 0 s with
    | None => None
    | Some (s', matched, lg) =>
        Some (s', (lg ++ (if bool_decide (0 < matched)%nat
                          then [Completed matched] else []))%list)
    end.

(** [MatchOrders]: the two reads, then the pairing.  [ko] and [kd] are
    the iteration orders of the two reads. *)
Definition MatchOrders (clock : nat -> Z * Z)
    (ko kd : list (string * ptr)) (s : State)
    : option (State * list log_line) :=
  match StateManager.GetPendingOrders ko s with
  | None => None
  | Some (s1, pendingOrders) =>
      match StateManager.GetAvailableDrivers kd s1 with
      | None => None
      | Some (s2, availableDrivers) =>
          match_lists clock pendingOrders availableDrivers s2
      end
  end.

(** The assignment attempts a log records, in order. *)
Definition attempt_of (l : log_line) : option (string * string) :=
  match l with
  | FailedToAssign o d _ | Matched o d => Some (o, d)
  | _ => None
  end.
Definition attempts (lg : list log_line) : list (string * string) :=
  omap attempt_of lg.

End Matcher.

(** The other copy of [matcher.go]: the same loop, but the two reads go
    through the [orderRepo] and [driverRepo] fields, which are interface
    values of their own. An interface value is either bound to the store or
    nil, and calling a method on a nil interface panics. ([repo], through
    which the assignments go, is bound by the only constructor.) *)
Module SplitMatcher.

Record Matcher : Type := mkMatcher {
  orderRepo : bool;    (* bound to the store, or nil *)
  driverRepo : bool
}.

(** [NewMatcher] fills in [repo] only. *)
Definition NewMatcher : Matcher := mkMatcher false false.

Definition MatchOrders (m : Matcher) (clock : nat -> Z * Z)
    (ko kd : list (string * ptr)) (s : State)
    : option (State * list Matcher.log_line) :=
  if negb (orderRepo m) then None
  else
    match StateManager.GetPendingOrders ko s with
    | None => None
    | Some (s1, pendingOrders) =>
        if negb (driverRepo m) then None
        else
          match StateManager.GetAvailableDrivers kd s1 with
          | None => None
          | Some (s2, availableDrivers) =>
              Matcher.match_lists clock pendingOrders availableDrivers s2
          end
    end.

End SplitMatcher.

(** The pairing in the spec's words: the i-th pending order with the i-th
    available driver, for i from 0 up to the size of the smaller list. *)
Definition pairs_spec (pendingIDs availableIDs : list string)
    : list (string * string) :=
  omap (fun i =>
          match pendingIDs !! i, availableIDs !! i with
          | Some o, Some d => Some (o, d)
          | _, _ => None
          end)
       (seq 0 (Nat.min (length pendingIDs) (length availableIDs))).

(** One attempt per pair, each on the state the previous one left, with
    the line it logs; a failed attempt leaves the state as it was and the
    next pair is tried. *)
Fixpoint attempt_each (clock : nat -> Z * Z) (i : nat)
    (pairs : list (string * string)) (s : State)
    : option (State * list Matcher.log_line) :=
  match pairs with
  | [] => Some (s, [])
  | (o, d) :: rest =>
      match StateManager.AssignOrderToDriver (clock i).1 (clock i).2 o d s with
      | None => None
      | Some (s1, r) =>
          match attempt_each clock (S i) rest s1 with
          | None => None
          | Some (s2, lg) =>
              Some (s2,
                    match r with
                    | Some err => Matcher.FailedToAssign o d err
                    | None => Matcher.Matched o d
                    end :: lg)
          end
      end
  end.

(** How many attempts of a log succeeded. *)
Fixpoint matched_count (lg : list Matcher.log_line) : nat :=
  match lg with
  | [] => 0
  | Matcher.Matched _ _ :: rest => S (matched_count rest)
  | _ :: rest => matched_count rest
  end.

(** The cell behind a pointer holds a record with the given ID. *)
Definition order_cell_ID (s : State) (p : ptr) (id : string) : Prop :=
  Order.ID <$> ocell s !! p = Some id.
Definition driver_cell_ID (s : State) (p : ptr) (id : string) : Prop :=
  Driver.ID <$> dcell s !! p = Some id.

(** What a tick logs, given how many entries the two reads returned and
    the lines of its attempts. *)
Definition tick_log (pending available : nat) (lg : list Matcher.log_line)
    : list Matcher.log_line :=
  if bool_decide (pending = 0%nat) then []
  else if bool_decide (available = 0%nat) then
    [Matcher.NoAvailableDrivers pending]
  else
    (lg ++ (if bool_decide (0 < matched_count lg)%nat
            then [Matcher.Completed (matched_count lg)] else []))%list.

(* ===================================================================== *)
(** ** The transition graph in the spec's words *)
(* ===================================================================== *)

Definition recognized_order_statuses : list OrderStatus :=
  [OrderPending; OrderAssigned; OrderPickedUp; OrderDelivered; OrderCanceled].

Definition recognized_driver_statuses : list DriverStatus :=
  [DriverAvailable; DriverBusy; DriverOffline].

Definition edges : list (OrderStatus * OrderStatus) :=
  [ (OrderPending, OrderAssigned); (OrderPending, OrderCanceled);
    (OrderAssigned, OrderPickedUp); (OrderAssigned, OrderCanceled);
    (OrderPickedUp, OrderDelivered); (OrderPickedUp, OrderCanceled) ].

(* ===================================================================== *)
(** ** Sequences of store operations *)
(* ===================================================================== *)

(** What a client of the store can do, one atomic step each: build a
    record of its own, or call one operation.  Pointer arguments are any
    addresses the client holds; [kvs] arguments are iteration orders. *)
Inductive op : Type :=
| OpNewDriver (d : Driver.t)
| OpNewOrder (o : Order.t)
| OpCreateOrUpdateDriver (now : Z) (driver : ptr)
| OpGetDriver (id : string)
| OpGetAllDrivers (kvs : list (string * ptr))
| OpUpdateDriverStatus (now : Z) (id : string) (status : DriverStatus)
| OpGetAvailableDrivers (kvs : list (string * ptr))
| OpCreateOrder (now : Z) (order : ptr)
| OpGetOrder (id : string)
| OpGetAllOrders (kvs : list (string * ptr))
| OpGetPendingOrders (kvs : list (string * ptr))
| OpUpdateOrderStatus (now : Z) (id : string) (status : OrderStatus)
| OpAssignOrderToDriver (now1 now2 : Z) (orderID driverID : string)
| OpGetSnapshot (now : Z) (kd ko : list (string * ptr)).

Definition run (o : op) (s : State) : option State :=
  match o with
  | OpNewDriver d => Some (new_Driver d s).2
  | OpNewOrder o => Some (new_Order o s).2
  | OpCreateOrUpdateDriver now p =>
      fst <$> DriverUseCase.CreateOrUpdateDriver now p s
  | OpGetDriver id => fst <$> DriverUseCase.GetDriver id s
  | OpGetAllDrivers kvs => fst <$> DriverUseCase.GetAllDrivers kvs s
  | OpUpdateDriverStatus now id st =>
      fst <$> DriverUseCase.UpdateDriverStatus now id st s
  | OpGetAvailableDrivers kvs => fst <$> StateManager.GetAvailableDrivers kvs s
  | OpCreateOrder now p => fst <$> OrderUseCase.CreateOrder now p s
  | OpGetOrder id => fst <$> OrderUseCase.GetOrder id s
  | OpGetAllOrders kvs => fst <$> OrderUseCase.GetAllOrders kvs s
  | OpGetPendingOrders kvs => fst <$> StateManager.GetPendingOrders kvs s
  | OpUpdateOrderStatus now id st =>
      fst <$> OrderUseCase.UpdateOrderStatus now id st s
  | OpAssignOrderToDriver now1 now2 oid did =>
      fst <$> StateManager.AssignOrderToDriver now1 now2 oid did s
  | OpGetSnapshot now kd ko => fst <$> StateManager.GetSnapshot now kd ko s
  end.

(** States reachable from the empty store by operations that satisfy a
    guard [allowed] in the state they start from. *)
Inductive reachable_by (allowed : State -> op -> Prop) : State -> Prop :=
| reachable_init : reachable_by allowed NewStateManager
| reachable_step s o s' :
    reachable_by allowed s -> allowed s o -> run o s = Some s' ->
    reachable_by allowed s'.

Definition reachable : State -> Prop := reachable_by (fun _ _ => True).

(** A list of operations runs from [s] without a nil dereference, each
    operation satisfying the guard in the state it starts from. *)
Fixpoint allowed_all (allowed : State -> op -> Prop) (os : list op)
    (s : State) : Prop :=
  match os with
  | [] => True
  | o :: rest =>
      allowed s o /\
      match run o s with
      | Some s1 => allowed_all allowed rest s1
      | None => False
      end
  end.

(** Running a list of operations in sequence. *)
Fixpoint run_all (os : list op) (s : State) : option State :=
  match os with
  | [] => Some s
  | o :: rest =>
      match run o s with
      | None => None
      | Some s1 => run_all rest s1
      end
  end.

(** Every pointer in the maps leads to a cell whose ID is its key, and no
    driver is stored under the empty ID. *)
Record wf (s : State) : Prop := mk_wf {
  wf_drivers : forall id p, drivers s !! id = Some p ->
      exists d, dcell s !! p = Some d /\ Driver.ID d = id;
  wf_orders : forall id p, orders s !! id = Some p ->
      exists o, ocell s !! p = Some o /\ Order.ID o = id;
  wf_nonempty : drivers s !! "" = None
}.

(** The stored pointers lead to cells (no dangling pointer). *)
Definition closed (s : State) : Prop :=
  (forall id p, drivers s !! id = Some p -> is_Some (dcell s !! p)) /\
  (forall id p, orders s !! id = Some p -> is_Some (ocell s !! p)).

(** What the orders' driver references satisfy in every reachable state. *)
Definition refs_ok (s : State) : Prop :=
  forall id o, order_at s id = Some o ->
    (Order.Status o = OrderPending -> Order.DriverID o = "") /\
    (Order.DriverID o <> "" -> is_Some (driver_at s (Order.DriverID o))).

(** The anomaly a snapshot must not show, on the store's own records. *)
Definition assigned_to_available (s : State) : Prop :=
  exists oid o d,
    order_at s oid = Some o /\ Order.Status o = OrderAssigned /\
    driver_at s (Order.DriverID o) = Some d /\
    Driver.Status d = DriverAvailable.

(** The same anomaly read off a snapshot and the heap holding its copies. *)
Definition snapshot_anomaly (s : State) (snap : StateManager.StateSnapshot)
    : Prop :=
  exists oid po o pd d,
    StateManager.Orders snap !! oid = Some po /\ ocell s !! po = Some o /\
    Order.Status o = OrderAssigned /\
    StateManager.Drivers snap !! Order.DriverID o = Some pd /\
    dcell s !! pd = Some d /\ Driver.Status d = DriverAvailable.

(** Some assigned order refers to driver [did]. *)
Definition referenced_by_assigned (s : State) (did : string) : Prop :=
  exists oid o, order_at s oid = Some o /\
    Order.Status o = OrderAssigned /\ Order.DriverID o = did.

(** Guard: no driver write makes [available] a driver that an assigned
    order refers to. *)
Definition no_release (s : State) (o : op) : Prop :=
  match o with
  | OpCreateOrUpdateDriver _ p =>
      forall d, dcell s !! p = Some d ->
        (Driver.Status d = "" \/ Driver.Status d = DriverAvailable) ->
        ~ referenced_by_assigned s (Driver.ID d)
  | OpUpdateDriverStatus _ id st =>
      st = DriverAvailable -> ~ referenced_by_assigned s id
  | _ => True
  end.

(** Guard: no [SetOrderStatus] call has [assigned] as its target, so that
    orders become assigned through [AssignOrderToDriver] only. *)
Definition no_direct_assign (s : State) (o : op) : Prop :=
  match o with
  | OpUpdateOrderStatus _ _ st => st <> OrderAssigned
  | _ => True
  end.

(** Guard: drivers become [busy] through assignment only, and no order ID
    is submitted twice. *)
Definition busy_by_assignment_only (s : State) (o : op) : Prop :=
  match o with
  | OpCreateOrUpdateDriver _ p =>
      forall d, dcell s !! p = Some d -> Driver.Status d <> DriverBusy
  | OpUpdateDriverStatus _ _ st => st <> DriverBusy
  | OpCreateOrder _ p =>
      forall o, ocell s !! p = Some o -> orders s !! Order.ID o = None
  | _ => True
  end.

(** A busy driver is the driver reference of some order that has left
    [pending]. *)
Definition busy_has_order (s : State) : Prop :=
  forall did d, driver_at s did = Some d -> Driver.Status d = DriverBusy ->
    exists oid o, order_at s oid = Some o /\
      Order.DriverID o = did /\ Order.Status o <> OrderPending.

(* ===================================================================== *)
(** ** What an operation does to the records the store holds *)
(* ===================================================================== *)

(** [s'] has the maps of [s] and every cell of [s], and possibly more
    cells: what allocating copies does to a state. *)
Definition extends (s s' : State) : Prop :=
  drivers s' = drivers s /\ orders s' = orders s /\
  dcell s ⊆ dcell s' /\ ocell s ⊆ ocell s'.

Definition driver_same (s s' : State) : Prop :=
  forall k, driver_at s' k = driver_at s k.
Definition order_same (s s' : State) : Prop :=
  forall k, order_at s' k = order_at s k.
Definition driver_put (s s' : State) (id : string) (d : Driver.t) : Prop :=
  forall k, driver_at s' k = if decide (k = id) then Some d else driver_at s k.
Definition order_put (s s' : State) (id : string) (o : Order.t) : Prop :=
  forall k, order_at s' k = if decide (k = id) then Some o else order_at s k.

(** The status [UpsertDriver] stores for a submitted status. *)
Definition stored_status (st : DriverStatus) : DriverStatus :=
  if decide (st = "") then DriverAvailable else st.

(** The effect of one operation on the records held under each ID: either
    nothing (reads, allocations, rejected calls), or one of the five
    writes. *)
Inductive effect (s s' : State) : op -> Prop :=
| effect_none o :
    driver_same s s' -> order_same s s' -> effect s s' o
| effect_upsert now p d :
    dcell s !! p = Some d ->
    Driver.ID d <> "" -> Driver.Name d <> "" ->
    IsValidDriverStatus (stored_status (Driver.Status d)) = true ->
    driver_put s s' (Driver.ID d)
      (Driver.mk (Driver.ID d) (Driver.Name d)
         (stored_status (Driver.Status d)) (Driver.Loc d) now) ->
    order_same s s' ->
    effect s s' (OpCreateOrUpdateDriver now p)
| effect_driver_status now id st d :
    driver_at s id = Some d ->
    IsValidDriverStatus st = true ->
    driver_put s s' id
      (Driver.mk (Driver.ID d) (Driver.Name d) st (Driver.Loc d) now) ->
    order_same s s' ->
    effect s s' (OpUpdateDriverStatus now id st)
| effect_create_order now p o :
    ocell s !! p = Some o ->
    Order.ID o <> "" -> Order.Customer o <> "" ->
    order_put s s' (Order.ID o)
      (Order.mk (Order.ID o) (Order.Customer o) (Order.Pickup o)
         (Order.Dropoff o) OrderPending "" now now) ->
    driver_same s s' ->
    effect s s' (OpCreateOrder now p)
| effect_order_status now id st o :
    order_at s id = Some o ->
    CanTransitionOrderStatus (Order.Status o) st = true ->
    order_put s s' id
      (Order.mk (Order.ID o) (Order.Customer o) (Order.Pickup o)
         (Order.Dropoff o) st (Order.DriverID o) (Order.CreatedAt o) now) ->
    driver_same s s' ->
    effect s s' (OpUpdateOrderStatus now id st)
| effect_assign now1 now2 oid did o d :
    order_at s oid = Some o -> driver_at s did = Some d ->
    Order.Status o = OrderPending -> Driver.Status d = DriverAvailable ->
    order_put s s' oid
      (Order.mk (Order.ID o) (Order.Customer o) (Order.Pickup o)
         (Order.Dropoff o) OrderAssigned did (Order.CreatedAt o) now1) ->
    driver_put s s' did
      (Driver.mk (Driver.ID d) (Driver.Name d) DriverBusy (Driver.Loc d)
         now2) ->
    effect s s' (OpAssignOrderToDriver now1 now2 oid did).

(** Which entries of an iteration a [range] loop with filter [keep]
    copies, judged on the cells of [s]. *)
Definition kept_driver (keep : Driver.t -> bool) (s : State)
    (kp : string * ptr) : Prop :=
  from_option keep false (dcell s !! kp.2) = true.
Definition kept_order (keep : Order.t -> bool) (s : State)
    (kp : string * ptr) : Prop :=
  from_option keep false (ocell s !! kp.2) = true.

#[global] Instance kept_driver_dec keep s kp : Decision (kept_driver keep s kp) :=
  decide (from_option keep false (dcell s !! kp.2) = true).
#[global] Instance kept_order_dec keep s kp : Decision (kept_order keep s kp) :=
  decide (from_option keep false (ocell s !! kp.2) = true).

(** [kq] is the entry a loop produced for [kp]: same ID, a cell that did
    not exist in [s], holding in [s'] what [kp]'s cell held in [s0]. *)
Definition driver_copy (s0 s s' : State) (kp kq : string * ptr) : Prop :=
  kq.1 = kp.1 /\ dcell s !! kq.2 = None /\ dcell s' !! kq.2 = dcell s0 !! kp.2.
Definition order_copy (s0 s s' : State) (kp kq : string * ptr) : Prop :=
  kq.1 = kp.1 /\ ocell s !! kq.2 = None /\ ocell s' !! kq.2 = ocell s0 !! kp.2.

(** The IDs of the pending orders (of the available drivers) in the order
    in which an iteration [ko] (or [kd]) of the store's map meets them. *)
Definition pending_IDs (s : State) (ko : list (string * ptr)) : list string :=
  (filter (kept_order (fun o => bool_decide (Order.Status o = OrderPending)) s)
     ko).*1.
Definition available_IDs (s : State) (kd : list (string * ptr)) : list string :=
  (filter
     (kept_driver (fun d => bool_decide (Driver.Status d = DriverAvailable)) s)
     kd).*1.

(* ===================================================================== *)
(** ** The invariants as the spec words them *)
(* ===================================================================== *)

Definition assigned_or_later : list OrderStatus :=
  [OrderAssigned; OrderPickedUp; OrderDelivered].

Definition terminal : list OrderStatus := [OrderDelivered; OrderCanceled].

(** Every order that is assigned or later has a non-empty driver reference
    that identifies a driver of the store. *)
Definition assigned_has_driver (s : State) : Prop :=
  forall id o, order_at s id = Some o ->
    Order.Status o ∈ assigned_or_later ->
    Order.DriverID o <> "" /\ is_Some (driver_at s (Order.DriverID o)).

(** Every busy driver is the assignee of a non-terminal order. *)
Definition busy_has_active_order (s : State) : Prop :=
  forall did d, driver_at s did = Some d -> Driver.Status d = DriverBusy ->
    exists oid o, order_at s oid = Some o /\
      Order.DriverID o = did /\ Order.Status o ∉ terminal.

(* ===================================================================== *)
(** ** Sample records and stores *)
(* ===================================================================== *)

Module Sample.

Definition origin : Location := {| Lat := 0%float; Lon := 0%float |}.
Definition depot : Location := {| Lat := 37.75%float; Lon := (-122.5)%float |}.

Definition d1 : Driver.t := Driver.mk "d1" "Alice" DriverAvailable depot 0.
Definition d2 : Driver.t := Driver.mk "d2" "Carol" DriverBusy origin 0.
Definition d3 : Driver.t := Driver.mk "d3" "Dave" "" origin 0.
Definition o1 : Order.t := Order.mk "o1" "Bob" depot origin "" "" 0 0.
Definition o2 : Order.t := Order.mk "o2" "Erin" origin depot "delivered" "d9" 0 0.
Definition o3 : Order.t := Order.mk "o3" "Finn" origin depot "" "" 0 0.

(** Drivers [d1] (available), [d2] (busy); orders [o1] (pending) and
    [o2] (pending, then canceled). Cells are allocated in sequence, so
    the records sit at addresses 1 and 2 of their heaps. *)
Definition setup : list op :=
  [ OpNewDriver d1; OpCreateOrUpdateDriver 10 1%positive;
    OpNewDriver d2; OpCreateOrUpdateDriver 11 2%positive;
    OpNewOrder o1; OpCreateOrder 12 1%positive;
    OpNewOrder o2; OpCreateOrder 13 2%positive;
    OpUpdateOrderStatus 14 "o2" OrderCanceled ].

Definition store : State :=
  default NewStateManager (run_all setup NewStateManager).

Definition d4 : Driver.t := Driver.mk "d4" "" DriverOffline origin 0.
Definition d5 : Driver.t := Driver.mk "d5" "Gus" "flying" origin 0.

(** Four driver records built by a caller and not yet submitted, at
    addresses 1 to 4, in front of an empty store. *)
Definition submitted : State :=
  default NewStateManager
    (run_all [OpNewDriver d1; OpNewDriver d3; OpNewDriver d4; OpNewDriver d5]
       NewStateManager).

(** An order moved from [pending] to [assigned] by a status update. *)
Definition assigned_by_update : list op :=
  [ OpNewOrder o1; OpCreateOrder 1 1%positive;
    OpUpdateOrderStatus 2 "o1" OrderAssigned ].

(** A driver registered as [busy]. *)
Definition registered_busy : list op :=
  [ OpNewDriver d2; OpCreateOrUpdateDriver 1 1%positive ].

(** An assignment followed by a status update that makes the driver
    [available] again. *)
Definition released_after_assignment : list op :=
  [ OpNewDriver d1; OpCreateOrUpdateDriver 1 1%positive;
    OpNewOrder o1; OpCreateOrder 2 1%positive;
    OpAssignOrderToDriver 3 4 "o1" "d1";
    OpUpdateDriverStatus 5 "d1" DriverAvailable ].

(** One driver, one order, and the assignment of the one to the
    other. *)
Definition one_assignment : list op :=
  [ OpNewDriver d1; OpCreateOrUpdateDriver 10 1%positive;
    OpNewOrder o1; OpCreateOrder 12 1%positive;
    OpAssignOrderToDriver 20 21 "o1" "d1" ].

(** An order assigned to [d1], submitted again under the same ID, and
    then assigned to [d3]. *)
Definition reassigned : list op :=
  [ OpNewDriver d1; OpCreateOrUpdateDriver 1 1%positive;
    OpNewDriver d3; OpCreateOrUpdateDriver 2 2%positive;
    OpNewOrder o1; OpCreateOrder 3 1%positive;
    OpAssignOrderToDriver 4 5 "o1" "d1";
    OpNewOrder o1; OpCreateOrder 6 2%positive;
    OpAssignOrderToDriver 7 8 "o1" "d3" ].

(** One available driver and two pending orders. *)
Definition two_pending : list op :=
  [ OpNewDriver d1; OpCreateOrUpdateDriver 10 1%positive;
    OpNewOrder o1; OpCreateOrder 12 1%positive;
    OpNewOrder o3; OpCreateOrder 13 2%positive ].

(** A clock that answers 20 and 21 to every assignment. *)
Definition clock : nat -> Z * Z := fun _ => (20, 21).

(** A caller builds [d1], submits it, and keeps the pointer (address 1);
    likewise for [o1]. *)
Definition submitted_and_kept : list op :=
  [ OpNewDriver d1; OpCreateOrUpdateDriver 10 1%positive;
    OpNewOrder o1; OpCreateOrder 12 1%positive ].

Definition after (os : list op) : State :=
  default NewStateManager (run_all os NewStateManager).

End Sample.

(* ===================================================================== *)
(** ** Further properties: definitions *)
(* ===================================================================== *)

(** What validation lets into the store: every record sits under its own
    ID, IDs and names are non-empty, statuses are recognized. *)
Definition valid_driver (id : string) (d : Driver.t) : Prop :=
  Driver.ID d = id /\ id <> "" /\ Driver.Name d <> "" /\
  Driver.Status d ∈ recognized_driver_statuses.
Definition valid_order (id : string) (o : Order.t) : Prop :=
  Order.ID o = id /\ id <> "" /\ Order.Customer o <> "" /\
  Order.Status o ∈ recognized_order_statuses.
Definition valid_records (s : State) : Prop :=
  (forall id d, driver_at s id = Some d -> valid_driver id d) /\
  (forall id o, order_at s id = Some o -> valid_order id o).

(** The record [UpsertDriver] stores for a submitted record, and the one
    [CreateOrder] stores. *)
Definition stored_driver (now : Z) (d : Driver.t) : Driver.t :=
  Driver.mk (Driver.ID d) (Driver.Name d) (stored_status (Driver.Status d))
    (Driver.Loc d) now.
Definition stored_order (now : Z) (o : Order.t) : Order.t :=
  Order.mk (Order.ID o) (Order.Customer o) (Order.Pickup o) (Order.Dropoff o)
    OrderPending "" now now.

(** The IDs an operation is aimed at: the ID of the submitted record for
    the two create paths, the ID argument for the status updates, both
    arguments for the assignment, none for the reads. *)
Definition targets_driver (s : State) (o : op) (k : string) : Prop :=
  match o with
  | OpCreateOrUpdateDriver _ p =>
      exists d, dcell s !! p = Some d /\ Driver.ID d = k
  | OpUpdateDriverStatus _ id _ => k = id
  | OpAssignOrderToDriver _ _ _ did => k = did
  | _ => False
  end.
Definition targets_order (s : State) (o : op) (k : string) : Prop :=
  match o with
  | OpCreateOrder _ p => exists r, ocell s !! p = Some r /\ Order.ID r = k
  | OpUpdateOrderStatus _ id _ => k = id
  | OpAssignOrderToDriver _ _ oid _ => k = oid
  | _ => False
  end.

(** Is the operation a [CreateOrder] / an [UpsertDriver]? *)
Definition is_CreateOrder (o : op) : Prop :=
  match o with OpCreateOrder _ _ => True | _ => False end.
Definition is_CreateOrUpdateDriver (o : op) : Prop :=
  match o with OpCreateOrUpdateDriver _ _ => True | _ => False end.

(** The log line of a successful attempt on a pair. *)
Definition matched_line (p : string * string) : Matcher.log_line :=
  Matcher.Matched p.1 p.2.

(** No order of the store is pending / no driver of the store is
    available. *)
Definition no_pending_order (s : State) : Prop :=
  forall id o, order_at s id = Some o -> Order.Status o <> OrderPending.
Definition no_available_driver (s : State) : Prop :=
  forall id d, driver_at s id = Some d -> Driver.Status d <> DriverAvailable.

(** The records a successful assignment leaves. *)
Definition assigned_record (did : string) (now : Z) (o : Order.t) : Order.t :=
  Order.mk (Order.ID o) (Order.Customer o) (Order.Pickup o) (Order.Dropoff o)
    OrderAssigned did (Order.CreatedAt o) now.
Definition busy_record (now : Z) (d : Driver.t) : Driver.t :=
  Driver.mk (Driver.ID d) (Driver.Name d) DriverBusy (Driver.Loc d) now.

(* ===================================================================== *)
(** ** internal/handler: the HTTP adapters *)
(* ===================================================================== *)

(** Each handler is the function [func(c *gin.Context)] it returns, run
    with no other request or tick between its calls of the store. What
    the handler takes from the request is an input: the [:id] path
    parameter, and for a body the value [ShouldBindJSON] left in the
    variable together with whether it returned an error. What the handler
    passes to its one call of [c.JSON] is the result: the status code and
    the value to be serialised. The lines a handler logs are not kept. *)
Module Handler.

Definition StatusOK : Z := 200.
Definition StatusCreated : Z := 201.
Definition StatusBadRequest : Z := 400.
Definition StatusNotFound : Z := 404.

(** The text of an [errorResponse]: the fixed text of a failed binding, or
    [err.Error()] of a sentinel error, kept as the sentinel itself. *)
Inductive message : Type :=
| InvalidRequestBody
| Error_ (err : error).

(** The values the handlers serialise. A [*models.Driver] or
    [*models.Order] that is nil serialises as [null]; a slice or a map of
    pointers serialises as the records the pointers lead to. *)
Inductive json : Type :=
| errorResponse (Error : message)
| driverJSON (driver : option Driver.t)
| orderJSON (order : option Order.t)
| driversJSON (drivers : list Driver.t)
| ordersJSON (orders : list Order.t)
| snapshotJSON (Drivers : gmap string Driver.t) (Orders : gmap string Order.t)
    (Timestamp : Z).

Definition response : Type := Z * json.

(** The records behind the pointers of a map; following a pointer to no
    cell is a nil dereference. *)
Definition deref_map {A : Type} (cells : gmap positive A)
    (m : gmap string positive) : option (gmap string A) :=
  if bool_decide (map_Forall (fun _ p => is_Some (cells !! p)) m)
  then Some (omap (fun p => cells !! p) m)
  else None.

(** [POST /drivers]. The local [driver] is a cell of its own, because its
    address is passed on. *)
Definition createOrUpdateDriverHandler (now : Z) (bound : Driver.t)
    (bindErr : bool) (s : State) : option (State * response) :=
  let '(driver, s0) := new_Driver bound s in
  if bindErr then
    Some (s0, (StatusBadRequest, errorResponse InvalidRequestBody))
  else
    match DriverUseCase.CreateOrUpdateDriver now driver s0 with
    | None => None
    | Some (s1, Some err) =>
        Some (s1, (StatusBadRequest, errorResponse (Error_ err)))
    | Some (s1, None) =>
        match dcell s1 !! driver with
        | None => None
        | Some d => Some (s1, (StatusOK, driverJSON (Some d)))
        end
    end.

(** [GET /drivers]; [kvs] is the iteration order of the store's loop. *)
Definition getAllDriversHandler (kvs : list (string * ptr)) (s : State)
    : option (State * response) :=
  match DriverUseCase.GetAllDrivers kvs s with
  | None => None
  | Some (s1, drivers) =>
      match mapM (fun p => dcell s1 !! p) drivers with
      | None => None
      | Some ds => Some (s1, (StatusOK, driversJSON ds))
      end
  end.

(** [GET /drivers/:id]. *)
Definition getDriverHandler (id : string) (s : State)
    : option (State * response) :=
  match DriverUseCase.GetDriver id s with
  | None => None
  | Some (s1, inr err) =>
      Some (s1, (StatusNotFound, errorResponse (Error_ err)))
  | Some (s1, inl driver) =>
      match dcell s1 !! driver with
      | None => None
      | Some d => Some (s1, (StatusOK, driverJSON (Some d)))
      end
  end.

(** [PATCH /drivers/:id/status]. After a successful update the handler
    reads the driver again and drops the error of that read. *)
Definition updateDriverStatusHandler (now : Z) (id : string)
    (Status : DriverStatus) (bindErr : bool) (s : State)
    : option (State * response) :=
  if bindErr then
    Some (s, (StatusBadRequest, errorResponse InvalidRequestBody))
  else
    match DriverUseCase.UpdateDriverStatus now id Status s with
    | None => None
    | Some (s1, Some err) =>
        Some (s1,
              (match err with
               | ErrDriverNotFound => StatusNotFound
               | _ => StatusBadRequest
               end, errorResponse (Error_ err)))
    | Some (s1, None) =>
        match DriverUseCase.GetDriver id s1 with
        | None => None
        | Some (s2, inr _) => Some (s2, (StatusOK, driverJSON None))
        | Some (s2, inl driver) =>
            match dcell s2 !! driver with
            | None => None
            | Some d => Some (s2, (StatusOK, driverJSON (Some d)))
            end
        end
    end.

(** [POST /orders]. *)
Definition createOrderHandler (now : Z) (bound : Order.t) (bindErr : bool)
    (s : State) : option (State * response) :=
  let '(order, s0) := new_Order bound s in
  if bindErr then
    Some (s0, (StatusBadRequest, errorResponse InvalidRequestBody))
  else
    match OrderUseCase.CreateOrder now order s0 with
    | None => None
    | Some (s1, Some err) =>
        Some (s1, (StatusBadRequest, errorResponse (Error_ err)))
    | Some (s1, None) =>
        match ocell s1 !! order with
        | None => None
        | Some o => Some (s1, (StatusCreated, orderJSON (Some o)))
        end
    end.

(** [GET /orders]. *)
Definition getAllOrdersHandler (kvs : list (string * ptr)) (s : State)
    : option (State * response) :=
  match OrderUseCase.GetAllOrders kvs s with
  | None => None
  | Some (s1, orders) =>
      match mapM (fun p => ocell s1 !! p) orders with
      | None => None
      | Some os => Some (s1, (StatusOK, ordersJSON os))
      end
  end.

(** [GET /orders/:id]. *)
Definition getOrderHandler (id : string) (s : State)
    : option (State * response) :=
  match OrderUseCase.GetOrder id s with
  | None => None
  | Some (s1, inr err) =>
      Some (s1, (StatusNotFound, errorResponse (Error_ err)))
  | Some (s1, inl order) =>
      match ocell s1 !! order with
      | None => None
      | Some o => Some (s1, (StatusOK, orderJSON (Some o)))
      end
  end.

(** [PATCH /orders/:id/status]. *)
Definition updateOrderStatusHandler (now : Z) (id : string)
    (Status : OrderStatus) (bindErr : bool) (s : State)
    : option (State * response) :=
  if bindErr then
    Some (s, (StatusBadRequest, errorResponse InvalidRequestBody))
  else
    match OrderUseCase.UpdateOrderStatus now id Status s with
    | None => None
    | Some (s1, Some err) =>
        Some (s1,
              (match err with
               | ErrOrderNotFound => StatusNotFound
               | _ => StatusBadRequest
               end, errorResponse (Error_ err)))
    | Some (s1, None) =>
        match OrderUseCase.GetOrder id s1 with
        | None => None
        | Some (s2, inr _) => Some (s2, (StatusOK, orderJSON None))
        | Some (s2, inl order) =>
            match ocell s2 !! order with
            | None => None
            | Some o => Some (s2, (StatusOK, orderJSON (Some o)))
            end
        end
    end.

(** [GET /debug/state]; the debug use case passes the store's snapshot
    on. *)
Definition getStateHandler (now : Z) (kd ko : list (string * ptr))
    (s : State) : option (State * response) :=
  match StateManager.GetSnapshot now kd ko s with
  | None => None
  | Some (s1, snapshot) =>
      match deref_map (dcell s1) (StateManager.Drivers snapshot),
            deref_map (ocell s1) (StateManager.Orders snapshot) with
      | Some ds, Some os =>
          Some (s1, (StatusOK,
                     snapshotJSON ds os (StateManager.Timestamp snapshot)))
      | _, _ => None
      end
  end.

End Handler.

(** Nothing the store holds has changed. *)
Definition records_same (s s' : State) : Prop :=
  driver_same s s' /\ order_same s s'.

(** What the running service does, one event after the other: a request
    on one of the nine routes of [SetupRouter], or a tick of the matcher
    that [main] started. *)
Inductive event : Type :=
| Req_POST_drivers (now : Z) (bound : Driver.t) (bindErr : bool)
| Req_GET_drivers
| Req_GET_driver (id : string)
| Req_PATCH_driver_status (now : Z) (id : string) (Status : DriverStatus)
    (bindErr : bool)
| Req_POST_orders (now : Z) (bound : Order.t) (bindErr : bool)
| Req_GET_orders
| Req_GET_order (id : string)
| Req_PATCH_order_status (now : Z) (id : string) (Status : OrderStatus)
    (bindErr : bool)
| Req_GET_debug_state (now : Z)
| Tick (clock : nat -> Z * Z).

(** What an event leaves behind: a response, or the lines the tick
    logged. *)
Inductive output : Type :=
| responded (r : Handler.response)
| logged (lg : list Matcher.log_line).

(** The two copies of [matcher.go]. In both, [main] builds the matcher
    with [NewMatcher(repo)]: in the copy with one repository that binds
    the field all three calls go through, in the copy with
    [orderRepo]/[driverRepo] it leaves those two nil. *)
Inductive matcher_copy : Type :=
| single_repository
| split_repositories.

Definition MatchOrders_of (c : matcher_copy) (clock : nat -> Z * Z)
    (ko kd : list (string * ptr)) (s : State)
    : option (State * list Matcher.log_line) :=
  match c with
  | single_repository => Matcher.MatchOrders clock ko kd s
  | split_repositories =>
      SplitMatcher.MatchOrders SplitMatcher.NewMatcher clock ko kd s
  end.

(** One event; [ko] and [kd] are the orders in which a loop over the two
    maps of the given state meets their entries. *)
Definition handle (c : matcher_copy) (ko kd : State -> list (string * ptr))
    (e : event) (s : State) : option (State * output) :=
  match e with
  | Req_POST_drivers now bound bindErr =>
      prod_map id responded
        <$> Handler.createOrUpdateDriverHandler now bound bindErr s
  | Req_GET_drivers =>
      prod_map id responded <$> Handler.getAllDriversHandler (kd s) s
  | Req_GET_driver i => prod_map id responded <$> Handler.getDriverHandler i s
  | Req_PATCH_driver_status now i st bindErr =>
      prod_map id responded
        <$> Handler.updateDriverStatusHandler now i st bindErr s
  | Req_POST_orders now bound bindErr =>
      prod_map id responded <$> Handler.createOrderHandler now bound bindErr s
  | Req_GET_orders =>
      prod_map id responded <$> Handler.getAllOrdersHandler (ko s) s
  | Req_GET_order i => prod_map id responded <$> Handler.getOrderHandler i s
  | Req_PATCH_order_status now i st bindErr =>
      prod_map id responded
        <$> Handler.updateOrderStatusHandler now i st bindErr s
  | Req_GET_debug_state now =>
      prod_map id responded <$> Handler.getStateHandler now (kd s) (ko s) s
  | Tick clock =>
      prod_map id logged <$> MatchOrders_of c clock (ko s) (kd s) s
  end.

(** A sequence of events; the [i]-th one meets the maps in the orders
    [ko i] and [kd i]. *)
Fixpoint serve (c : matcher_copy)
    (ko kd : nat -> State -> list (string * ptr)) (i : nat)
    (es : list event) (s : State) : option (State * list output) :=
  match es with
  | [] => Some (s, [])
  | e :: rest =>
      match handle c (ko i) (kd i) e s with
      | None => None
      | Some (s1, out) =>
          match serve c ko kd (S i) rest s1 with
          | None => None
          | Some (s2, outs) => Some (s2, out :: outs)
          end
      end
  end.

(* ===================================================================== *)
(** ** config and the start of the matcher *)
(* ===================================================================== *)

From Stdlib Require Import Ascii.
From stdpp Require Import pretty.

Local Open Scope string_scope.
Local Open Scope Z_scope.

(** The process environment, as [os.Getenv] and [os.LookupEnv] see it: a
    finite map from variable names to values. [Getenv] gives the empty
    string for a variable that is not set; [LookupEnv] tells the two
    apart. *)
Module os.

Definition Getenv (env : gmap string string) (key : string) : string :=
  default "" (env !! key).

Definition LookupEnv (env : gmap string string) (key : string)
    : option string :=
  env !! key.

End os.

(** [strconv.Atoi] with a 64-bit [int]: an optional sign, then one or more
    decimal digits and nothing else, the value within the range of the
    type; [None] is a non-nil error. *)
Module strconv.

Definition digit (ch : ascii) : option Z :=
  let n := Z.of_N (N_of_ascii ch) in
  if bool_decide (48 <= n <= 57) then Some (n - 48) else None.

Fixpoint digits (n : Z) (s : string) : option Z :=
  match s with
  | EmptyString => Some n
  | String ch r =>
      match digit ch with
      | None => None
      | Some d => digits (n * 10 + d) r
      end
  end.

Definition unsigned (s : string) : option Z :=
  match s with
  | EmptyString => None
  | _ => digits 0 s
  end.

Definition Atoi (s : string) : option Z :=
  match
    match s with
    | EmptyString => None
    | String ch r =>
        if bool_decide (ch = "+"%char) then unsigned r
        else if bool_decide (ch = "-"%char) then Z.opp <$> unsigned r
        else unsigned s
    end
  with
  | None => None
  | Some v => if bool_decide (- 2 ^ 63 <= v < 2 ^ 63) then Some v else None
  end.

End strconv.

Module config.

(** [time.Duration] is an [int64] count of nanoseconds, and its
    arithmetic wraps around. *)
Definition int64 (z : Z) : Z := (z + 2 ^ 63) mod 2 ^ 64 - 2 ^ 63.

Definition Second : Z := 1000000000.

Record Config : Type := mkConfig {
  ServerPort : string;
  MatcherInterval : Z
}.

Definition getEnv (env : gmap string string) (key defaultValue : string)
    : string :=
  let value := os.Getenv env key in
  if bool_decide (value = "") then defaultValue else value.

Definition getDurationEnv (env : gmap string string) (key : string)
    (defaultValue : Z) : Z :=
  match os.LookupEnv env key with
  | Some value =>
      match strconv.Atoi value with
      | Some intVal => int64 (intVal * Second)
      | None => int64 (defaultValue * Second)
      end
  | None => int64 (defaultValue * Second)
  end.

Definition LoadConfig (env : gmap string string) : Config :=
  let serverPort := getEnv env "SERVER_PORT" ":8080" in
  let matcherInterval := getDurationEnv env "MATCHER_INTERVAL" (3 * Second) in
  mkConfig serverPort matcherInterval.

End config.

(** [StartMatcher]: [time.NewTicker] panics on an interval that is not
    positive; after that the loop runs one [MatchOrders] per tick the
    ticker delivers, and never ends by itself. [ticks] is the run of the
    first [n] ticks; the [i]-th tick reads the clock through [clock i]
    and meets the maps in the orders [ko i] and [kd i] give for the state
    it starts from. Of the log, the lines of the ticks are kept, one list
    per tick. *)
Module service.

Fixpoint ticks (clock : nat -> nat -> Z * Z)
    (ko kd : nat -> State -> list (string * ptr)) (i n : nat) (s : State)
    : option (State * list (list Matcher.log_line)) :=
  match n with
  | O => Some (s, [])
  | S n' =>
      match Matcher.MatchOrders (clock i) (ko i s) (kd i s) s with
      | None => None
      | Some (s1, lg) =>
          match ticks clock ko kd (S i) n' s1 with
          | None => None
          | Some (s2, lgs) => Some (s2, lg :: lgs)
          end
      end
  end.

Definition StartMatcher (interval : Z) (clock : nat -> nat -> Z * Z)
    (ko kd : nat -> State -> list (string * ptr)) (n : nat) (s : State)
    : option (State * list (list Matcher.log_line)) :=
  if bool_decide (interval <= 0) then None
  else ticks clock ko kd 0 n s.

End service.

(** A value of [MATCHER_INTERVAL] that [strconv.Atoi] rejects. *)
Definition not_an_integer (env : gmap string string) (key : string) : Prop :=
  exists value, env !! key = Some value /\ strconv.Atoi value = None.

(** [main]: the configuration is loaded, the store starts empty, the
    matcher is started in a goroutine of its own on the configured
    interval, and the router serves. [time.NewTicker] panics on an
    interval that is not positive, and a panic in a goroutine ends the
    process; otherwise the events, requests and ticks of the matcher, are
    handled one after the other. *)
Definition main (c : matcher_copy) (env : gmap string string)
    (ko kd : nat -> State -> list (string * ptr)) (es : list event)
    : option (State * list output) :=
  let config := config.LoadConfig env in
  if bool_decide (config.MatcherInterval config <= 0) then None
  else serve c ko kd 0 es NewStateManager.

(* ===================================================================== *)
(** * Properties *)
(* ===================================================================== *)

(** ** The transition table *)

Lemma validTransitions_lookup (from : OrderStatus) :
  validTransitions !! from =
    if decide (from = OrderPending) then Some [OrderAssigned; OrderCanceled]
    else if decide (from = OrderAssigned) then Some [OrderPickedUp; OrderCanceled]
    else if decide (from = OrderPickedUp) then Some [OrderDelivered; OrderCanceled]
    else if decide (from = OrderDelivered) then Some []
    else if decide (from = OrderCanceled) then Some []
    else None.
Proof.
  unfold validTransitions.
  repeat (rewrite lookup_insert; case_decide; subst;
          [ repeat (case_decide; try done) | ]).
  rewrite lookup_empty. repeat (case_decide; try done).
Qed.

(** The table and the spec's edge list describe the same graph, for
    arbitrary strings. *)
Lemma CanTransitionOrderStatus_edges (from to : OrderStatus) :
  CanTransitionOrderStatus from to = true <-> (from, to) ∈ edges.
Proof.
  unfold CanTransitionOrderStatus, edges. rewrite validTransitions_lookup.
  repeat case_decide; subst; simpl;
    rewrite ?orb_true_iff, ?bool_decide_eq_true;
    rewrite ?elem_of_cons, ?elem_of_nil; unfold OrderPending, OrderAssigned,
      OrderPickedUp, OrderDelivered, OrderCanceled in *;
    intuition (try discriminate; try congruence).
Qed.

Lemma CanTransition_to_assigned (from : OrderStatus) :
  CanTransitionOrderStatus from OrderAssigned = true -> from = OrderPending.
Proof.
  rewrite CanTransitionOrderStatus_edges. unfold edges.
  rewrite !elem_of_cons, elem_of_nil.
  intros H; repeat destruct H as [H|H]; try done; by injection H.
Qed.

Lemma CanTransition_not_to_pending (from : OrderStatus) :
  CanTransitionOrderStatus from OrderPending = false.
Proof.
  apply not_true_is_false. rewrite CanTransitionOrderStatus_edges.
  unfold edges. rewrite !elem_of_cons, elem_of_nil.
  intros H; repeat destruct H as [H|H]; try done.
Qed.

(** ** Heap and map bookkeeping *)

Lemma fresh_dcell (s : State) : dcell s !! fresh (dom (dcell s)) = None.
Proof. apply not_elem_of_dom, is_fresh. Qed.

Lemma fresh_ocell (s : State) : ocell s !! fresh (dom (ocell s)) = None.
Proof. apply not_elem_of_dom, is_fresh. Qed.

(** ** C10 and C1: [AssignOrderToDriver] *)

(** C10. [AssignOrderToDriver] checks order existence first, then driver
    existence, then the order's status, then the driver's: with both IDs
    unknown the error is the order-not-found one, and with an unknown
    driver and a known order the error is the driver-not-found one whatever
    the order's status (in particular when it is not pending). *)
Theorem AssignOrderToDriver_error_precedence
    (now1 now2 : Z) (orderID driverID : string) (s : State) :
  (orders s !! orderID = None -> drivers s !! driverID = None ->
     StateManager.AssignOrderToDriver now1 now2 orderID driverID s
       = Some (s, Some ErrOrderNotFound)) /\
  (forall o, order_at s orderID = Some o ->
     Order.Status o <> OrderPending -> drivers s !! driverID = None ->
     StateManager.AssignOrderToDriver now1 now2 orderID driverID s
       = Some (s, Some ErrDriverNotFound)) /\
  (orders s !! orderID = None ->
     StateManager.AssignOrderToDriver now1 now2 orderID driverID s
       = Some (s, Some ErrOrderNotFound)) /\
  (is_Some (orders s !! orderID) -> drivers s !! driverID = None ->
     StateManager.AssignOrderToDriver now1 now2 orderID driverID s
       = Some (s, Some ErrDriverNotFound)) /\
  (forall o d, order_at s orderID = Some o -> driver_at s driverID = Some d ->
     Order.Status o <> OrderPending -> Driver.Status d <> DriverAvailable ->
     StateManager.AssignOrderToDriver now1 now2 orderID driverID s
       = Some (s, Some ErrOrderAlreadyAssigned)).
Proof.
  unfold StateManager.AssignOrderToDriver, order_at, driver_at.
  repeat split.
  - intros -> _. done.
  - intros o Ho _ Hd. destruct (orders s !! orderID); [|done]. by rewrite Hd.
  - intros ->. done.
  - intros [p ->] ->. done.
  - intros o d Ho Hd Hno _.
    destruct (orders s !! orderID) as [po|]; [|done].
    destruct (drivers s !! driverID) as [pd|]; [|done].
    simpl in Ho, Hd. rewrite Ho.
    by rewrite bool_decide_eq_false_2.
Qed.

Lemma AssignOrderToDriver_error_precedence_witness :
  StateManager.AssignOrderToDriver 20 21 "o7" "d7" Sample.store
    = Some (Sample.store, Some ErrOrderNotFound) /\
  StateManager.AssignOrderToDriver 20 21 "o2" "d7" Sample.store
    = Some (Sample.store, Some ErrDriverNotFound) /\
  StateManager.AssignOrderToDriver 20 21 "o2" "d2" Sample.store
    = Some (Sample.store, Some ErrOrderAlreadyAssigned).
Proof.
  destruct (AssignOrderToDriver_error_precedence 20 21 "o7" "d7" Sample.store)
    as (H1 & _).
  destruct (AssignOrderToDriver_error_precedence 20 21 "o2" "d7" Sample.store)
    as (_ & H2 & _).
  destruct (AssignOrderToDriver_error_precedence 20 21 "o2" "d2" Sample.store)
    as (_ & _ & _ & _ & H5).
  split; [|split].
  - apply H1; reflexivity.
  - eapply H2; [ vm_compute; reflexivity | vm_compute; discriminate
               | reflexivity ].
  - eapply H5; [ vm_compute; reflexivity | vm_compute; reflexivity
               | vm_compute; discriminate | vm_compute; discriminate ].
Defined.

(** Splits a conjunction of contract clauses and clears the clauses whose
    premises contradict the branch of the code under inspection. *)
Ltac contract_cases :=
  split_and!; intros;
  repeat match goal with
    | H : _ \/ _ |- _ => destruct H
    | H : is_Some _ |- _ => destruct H
    end;
  simplify_eq/=; eauto 10; try done.

(** C1. [AssignOrderToDriver] fails with a not-found error when either ID
    is unknown, with [ErrOrderAlreadyAssigned] when the order is not
    pending, with [ErrDriverNotAvailable] when the driver is not available
    (the checks being made in that order); on success the order becomes
    assigned to the driver with a fresh update stamp and the driver becomes
    busy with a fresh update stamp; every failure returns the state it was
    given, so neither record is touched. *)
Theorem AssignOrderToDriver_contract
    (now1 now2 : Z) (orderID driverID : string) (s : State) :
  let r := StateManager.AssignOrderToDriver now1 now2 orderID driverID s in
  (orders s !! orderID = None \/ drivers s !! driverID = None ->
     exists e, r = Some (s, Some e) /\ is_NotFound e = true) /\
  (forall o, order_at s orderID = Some o ->
     is_Some (drivers s !! driverID) ->
     Order.Status o <> OrderPending ->
     r = Some (s, Some ErrOrderAlreadyAssigned)) /\
  (forall o d, order_at s orderID = Some o -> driver_at s driverID = Some d ->
     Order.Status o = OrderPending ->
     Driver.Status d <> DriverAvailable ->
     r = Some (s, Some ErrDriverNotAvailable)) /\
  (forall o d, order_at s orderID = Some o -> driver_at s driverID = Some d ->
     Order.Status o = OrderPending ->
     Driver.Status d = DriverAvailable ->
     exists s', r = Some (s', None) /\
       order_at s' orderID =
         Some (Order.mk (Order.ID o) (Order.Customer o) (Order.Pickup o)
                 (Order.Dropoff o) OrderAssigned driverID
                 (Order.CreatedAt o) now1) /\
       driver_at s' driverID =
         Some (Driver.mk (Driver.ID d) (Driver.Name d) DriverBusy
                 (Driver.Loc d) now2) /\
       drivers s' = drivers s /\ orders s' = orders s) /\
  (forall s' e, r = Some (s', Some e) -> s' = s) /\
  (forall s', r = Some (s', None) ->
     exists o d, order_at s orderID = Some o /\ driver_at s driverID = Some d /\
       Order.Status o = OrderPending /\ Driver.Status d = DriverAvailable).
Proof.
  unfold StateManager.AssignOrderToDriver, order_at, driver_at. cbv zeta.
  destruct (orders s !! orderID) as [po|] eqn:Hpo; simpl;
    [|contract_cases; by exists ErrOrderNotFound].
  destruct (drivers s !! driverID) as [pd|] eqn:Hpd; simpl;
    [|contract_cases; by exists ErrDriverNotFound].
  destruct (ocell s !! po) as [o|] eqn:Ho; simpl; [|contract_cases].
  destruct (decide (Order.Status o = OrderPending)) as [Hst|Hst];
    [ rewrite (bool_decide_eq_true_2 _ Hst)
    | rewrite (bool_decide_eq_false_2 _ Hst); simpl; contract_cases ].
  simpl. destruct (dcell s !! pd) as [d|] eqn:Hd; simpl; [|contract_cases].
  destruct (decide (Driver.Status d = DriverAvailable)) as [Hds|Hds];
    [ rewrite (bool_decide_eq_true_2 _ Hds)
    | rewrite (bool_decide_eq_false_2 _ Hds); simpl; contract_cases ].
  simpl. contract_cases.
  eexists. split; [reflexivity|]. simpl. rewrite Hpo, Hpd. simpl.
  by rewrite !lookup_insert_eq.
Qed.

Lemma AssignOrderToDriver_contract_witness :
  (exists e, StateManager.AssignOrderToDriver 20 21 "o7" "d1" Sample.store
               = Some (Sample.store, Some e) /\ is_NotFound e = true) /\
  StateManager.AssignOrderToDriver 20 21 "o2" "d1" Sample.store
    = Some (Sample.store, Some ErrOrderAlreadyAssigned) /\
  StateManager.AssignOrderToDriver 20 21 "o1" "d2" Sample.store
    = Some (Sample.store, Some ErrDriverNotAvailable) /\
  (exists s', StateManager.AssignOrderToDriver 20 21 "o1" "d1" Sample.store
                = Some (s', None) /\
     order_at s' "o1" =
       Some (Order.mk "o1" "Bob" Sample.depot Sample.origin
               OrderAssigned "d1" 12 20) /\
     driver_at s' "d1" =
       Some (Driver.mk "d1" "Alice" DriverBusy Sample.depot 21) /\
     drivers s' = drivers Sample.store /\ orders s' = orders Sample.store).
Proof.
  destruct (AssignOrderToDriver_contract 20 21 "o7" "d1" Sample.store)
    as (H1 & _).
  destruct (AssignOrderToDriver_contract 20 21 "o2" "d1" Sample.store)
    as (_ & H2 & _).
  destruct (AssignOrderToDriver_contract 20 21 "o1" "d2" Sample.store)
    as (_ & _ & H3 & _).
  destruct (AssignOrderToDriver_contract 20 21 "o1" "d1" Sample.store)
    as (_ & _ & _ & H4 & _).
  split; [|split; [|split]].
  - apply H1. left. reflexivity.
  - eapply H2; [ vm_compute; reflexivity | vm_compute; eauto
               | vm_compute; discriminate ].
  - eapply H3; [ vm_compute; reflexivity | vm_compute; reflexivity
               | reflexivity | vm_compute; discriminate ].
  - apply (H4 (Order.mk "o1" "Bob" Sample.depot Sample.origin
                 OrderPending "" 12 12)
              (Driver.mk "d1" "Alice" DriverAvailable Sample.depot 10));
      vm_compute; reflexivity.
Defined.

(** ** C2: [SetOrderStatus] and the transition graph *)

Lemma IsValidOrderStatus_recognized (st : OrderStatus) :
  IsValidOrderStatus st = true <-> st ∈ recognized_order_statuses.
Proof.
  unfold IsValidOrderStatus, recognized_order_statuses.
  rewrite !elem_of_cons, elem_of_nil.
  repeat case_decide; intuition (try discriminate; try congruence).
Qed.

Lemma IsValidDriverStatus_recognized (st : DriverStatus) :
  IsValidDriverStatus st = true <-> st ∈ recognized_driver_statuses.
Proof.
  unfold IsValidDriverStatus, recognized_driver_statuses.
  rewrite !elem_of_cons, elem_of_nil.
  repeat case_decide; intuition (try discriminate; try congruence).
Qed.

(** C2. For a stored order and a recognized requested status, the request
    succeeds exactly on the six edges of the transition graph, and then
    rewrites the order's status and update stamp and nothing else; off the
    graph (same-state requests and requests leaving [delivered] or
    [canceled] included) it fails with [ErrInvalidTransition] and returns
    the state unchanged. *)
Theorem UpdateOrderStatus_transition_graph
    (now : Z) (id : string) (to : OrderStatus) (s : State) (o : Order.t) :
  order_at s id = Some o ->
  to ∈ recognized_order_statuses ->
  ((Order.Status o, to) ∈ edges ->
     exists s', OrderUseCase.UpdateOrderStatus now id to s = Some (s', None) /\
       order_at s' id =
         Some (Order.mk (Order.ID o) (Order.Customer o) (Order.Pickup o)
                 (Order.Dropoff o) to (Order.DriverID o)
                 (Order.CreatedAt o) now) /\
       orders s' = orders s /\ drivers s' = drivers s /\
       dcell s' = dcell s) /\
  ((Order.Status o, to) ∉ edges ->
     OrderUseCase.UpdateOrderStatus now id to s
       = Some (s, Some ErrInvalidTransition)).
Proof.
  intros Ho Hto.
  unfold OrderUseCase.UpdateOrderStatus, StateManager.UpdateOrderStatus.
  apply IsValidOrderStatus_recognized in Hto. rewrite Hto. simpl.
  unfold order_at in *.
  destruct (orders s !! id) as [p|] eqn:Hp; [|done]. simpl in Ho. rewrite Ho.
  split; intros He.
  - apply CanTransitionOrderStatus_edges in He. rewrite He. simpl.
    eexists. split; [reflexivity|]. simpl. rewrite Hp. simpl.
    by rewrite lookup_insert_eq.
  - rewrite <- CanTransitionOrderStatus_edges in He.
    apply not_true_is_false in He. by rewrite He.
Qed.

(** The 25 pairs of recognized statuses, decided by the source table. *)
Lemma CanTransitionOrderStatus_table :
  (fun from => (fun to => CanTransitionOrderStatus from to)
                 <$> recognized_order_statuses)
    <$> recognized_order_statuses
  = [ [false; true; false; false; true];
      [false; false; true; false; true];
      [false; false; false; true; true];
      [false; false; false; false; false];
      [false; false; false; false; false] ].
Proof. vm_compute. reflexivity. Qed.

Lemma UpdateOrderStatus_transition_graph_witness :
  (exists s', OrderUseCase.UpdateOrderStatus 30 "o1" OrderCanceled Sample.store
                = Some (s', None) /\
     order_at s' "o1" =
       Some (Order.mk "o1" "Bob" Sample.depot Sample.origin
               OrderCanceled "" 12 30) /\
     orders s' = orders Sample.store /\ drivers s' = drivers Sample.store /\
     dcell s' = dcell Sample.store) /\
  OrderUseCase.UpdateOrderStatus 30 "o2" OrderPending Sample.store
    = Some (Sample.store, Some ErrInvalidTransition).
Proof.
  split.
  - apply (UpdateOrderStatus_transition_graph 30 "o1" OrderCanceled
             Sample.store
             (Order.mk "o1" "Bob" Sample.depot Sample.origin
                OrderPending "" 12 12)).
    + vm_compute. reflexivity.
    + apply IsValidOrderStatus_recognized. reflexivity.
    + apply CanTransitionOrderStatus_edges. reflexivity.
  - apply (UpdateOrderStatus_transition_graph 30 "o2" OrderPending
             Sample.store
             (Order.mk "o2" "Erin" Sample.origin Sample.depot
                OrderCanceled "" 13 14)).
    + vm_compute. reflexivity.
    + apply IsValidOrderStatus_recognized. reflexivity.
    + rewrite <- CanTransitionOrderStatus_edges. vm_compute. discriminate.
Defined.

(** ** C7: [CreateOrder] *)

(** C7. [CreateOrder] rejects a record with an empty ID or customer with
    [ErrMissingRequiredField] and stores nothing; otherwise it stores the
    record under its ID, replacing whatever was there, with status
    [pending], an empty driver reference and both stamps set to the
    current time. *)
Theorem CreateOrder_contract (now : Z) (order : ptr) (s : State) (o : Order.t) :
  ocell s !! order = Some o ->
  (Order.ID o = "" \/ Order.Customer o = "" ->
     OrderUseCase.CreateOrder now order s
       = Some (s, Some ErrMissingRequiredField)) /\
  (Order.ID o <> "" -> Order.Customer o <> "" ->
     exists s', OrderUseCase.CreateOrder now order s = Some (s', None) /\
       order_at s' (Order.ID o) =
         Some (Order.mk (Order.ID o) (Order.Customer o) (Order.Pickup o)
                 (Order.Dropoff o) OrderPending "" now now) /\
       orders s' = <[Order.ID o := order]> (orders s) /\
       drivers s' = drivers s /\ dcell s' = dcell s).
Proof.
  intros Ho. unfold OrderUseCase.CreateOrder, StateManager.CreateOrder.
  rewrite Ho. split.
  - intros [H|H]; rewrite H; simpl; by rewrite ?orb_true_r.
  - intros Hid Hc.
    rewrite (bool_decide_eq_false_2 _ Hid), (bool_decide_eq_false_2 _ Hc).
    simpl. eexists. split; [reflexivity|]. unfold order_at. simpl.
    rewrite lookup_insert_eq. simpl. by rewrite lookup_insert_eq.
Qed.

Lemma CreateOrder_contract_witness :
  OrderUseCase.CreateOrder 40 1%positive
      (new_Order (Order.mk "o5" "" Sample.origin Sample.origin "" "" 0 0)
         NewStateManager).2
    = Some ((new_Order (Order.mk "o5" "" Sample.origin Sample.origin "" "" 0 0)
               NewStateManager).2, Some ErrMissingRequiredField) /\
  (exists s', OrderUseCase.CreateOrder 40 1%positive
                (new_Order Sample.o2 NewStateManager).2 = Some (s', None) /\
     order_at s' "o2" =
       Some (Order.mk "o2" "Erin" Sample.origin Sample.depot
               OrderPending "" 40 40) /\
     orders s' = <[ "o2" := 1%positive ]> ∅ /\
     drivers s' = ∅ /\ dcell s' = ∅).
Proof.
  split.
  - apply (CreateOrder_contract 40 1%positive _
             (Order.mk "o5" "" Sample.origin Sample.origin "" "" 0 0)).
    + vm_compute. reflexivity.
    + right. reflexivity.
  - apply (CreateOrder_contract 40 1%positive
             (new_Order Sample.o2 NewStateManager).2 Sample.o2).
    + vm_compute. reflexivity.
    + vm_compute. discriminate.
    + vm_compute. discriminate.
Defined.

(** ** C8: [UpsertDriver] and [SetDriverStatus] *)

Lemma recognized_driver_status_nonempty (st : DriverStatus) :
  st ∈ recognized_driver_statuses -> st <> "".
Proof.
  unfold recognized_driver_statuses. rewrite !elem_of_cons, elem_of_nil.
  intros [->|[->|[->|[]]]]; discriminate.
Qed.

(** C8. [UpsertDriver] rejects an empty ID or name with
    [ErrMissingRequiredField]; with both present, a recognized status is
    stored as given, an empty status is stored as [available], and any other
    status is rejected with [ErrInvalidStatusUpdate]; what is stored under
    the ID is the submitted record itself with the current time as its
    stamp, none of the previous record's fields surviving.
    [SetDriverStatus] rejects every unrecognized status (the empty one
    included) with [ErrInvalidStatusUpdate], and for a stored driver and a
    recognized status rewrites the status and the stamp. Every rejection
    returns the state unchanged. *)
Theorem driver_status_contract
    (now : Z) (driver : ptr) (id : string) (status : DriverStatus)
    (s : State) (d : Driver.t) :
  dcell s !! driver = Some d ->
  (Driver.ID d = "" \/ Driver.Name d = "" ->
     DriverUseCase.CreateOrUpdateDriver now driver s
       = Some (s, Some ErrMissingRequiredField)) /\
  (Driver.ID d <> "" -> Driver.Name d <> "" ->
     Driver.Status d ∈ recognized_driver_statuses ->
     exists s', DriverUseCase.CreateOrUpdateDriver now driver s
                  = Some (s', None) /\
       driver_at s' (Driver.ID d) =
         Some (Driver.mk (Driver.ID d) (Driver.Name d) (Driver.Status d)
                 (Driver.Loc d) now) /\
       drivers s' = <[Driver.ID d := driver]> (drivers s) /\
       orders s' = orders s /\ ocell s' = ocell s) /\
  (Driver.ID d <> "" -> Driver.Name d <> "" -> Driver.Status d = "" ->
     exists s', DriverUseCase.CreateOrUpdateDriver now driver s
                  = Some (s', None) /\
       driver_at s' (Driver.ID d) =
         Some (Driver.mk (Driver.ID d) (Driver.Name d) DriverAvailable
                 (Driver.Loc d) now) /\
       drivers s' = <[Driver.ID d := driver]> (drivers s) /\
       orders s' = orders s /\ ocell s' = ocell s) /\
  (Driver.ID d <> "" -> Driver.Name d <> "" -> Driver.Status d <> "" ->
     Driver.Status d ∉ recognized_driver_statuses ->
     DriverUseCase.CreateOrUpdateDriver now driver s
       = Some (s, Some ErrInvalidStatusUpdate)) /\
  (status ∉ recognized_driver_statuses ->
     DriverUseCase.UpdateDriverStatus now id status s
       = Some (s, Some ErrInvalidStatusUpdate)) /\
  (status ∈ recognized_driver_statuses ->
     forall d0, driver_at s id = Some d0 ->
     exists s', DriverUseCase.UpdateDriverStatus now id status s
                  = Some (s', None) /\
       driver_at s' id =
         Some (Driver.mk (Driver.ID d0) (Driver.Name d0) status
                 (Driver.Loc d0) now) /\
       drivers s' = drivers s /\ orders s' = orders s /\
       ocell s' = ocell s).
Proof.
  intros Hd.
  unfold DriverUseCase.CreateOrUpdateDriver, StateManager.CreateOrUpdateDriver,
    DriverUseCase.UpdateDriverStatus, StateManager.UpdateDriverStatus.
  rewrite Hd. split_and!.
  - intros [H|H]; rewrite H; simpl; by rewrite ?orb_true_r.
  - intros Hid Hn Hst.
    rewrite (bool_decide_eq_false_2 _ Hid), (bool_decide_eq_false_2 _ Hn).
    pose proof (recognized_driver_status_nonempty _ Hst) as Hne.
    apply IsValidDriverStatus_recognized in Hst.
    rewrite (bool_decide_eq_false_2 _ Hne), Hst. simpl. rewrite Hd.
    eexists. split; [reflexivity|]. unfold driver_at. simpl.
    rewrite lookup_insert_eq. simpl. by rewrite lookup_insert_eq.
  - intros Hid Hn Hst.
    rewrite (bool_decide_eq_false_2 _ Hid), (bool_decide_eq_false_2 _ Hn).
    rewrite (bool_decide_eq_true_2 _ Hst). simpl. rewrite lookup_insert_eq.
    eexists. split; [reflexivity|]. unfold driver_at. simpl.
    rewrite lookup_insert_eq. simpl. by rewrite lookup_insert_eq.
  - intros Hid Hn Hne Hst.
    rewrite (bool_decide_eq_false_2 _ Hid), (bool_decide_eq_false_2 _ Hn).
    rewrite <- IsValidDriverStatus_recognized in Hst.
    apply not_true_is_false in Hst.
    by rewrite (bool_decide_eq_false_2 _ Hne), Hst.
  - intros Hst. rewrite <- IsValidDriverStatus_recognized in Hst.
    apply not_true_is_false in Hst. by rewrite Hst.
  - intros Hst d0 Hd0. apply IsValidDriverStatus_recognized in Hst.
    rewrite Hst. simpl. unfold driver_at in *.
    destruct (drivers s !! id) as [p|] eqn:Hp; [|done]. simpl in Hd0.
    rewrite Hd0. eexists. split; [reflexivity|]. simpl. rewrite Hp. simpl.
    by rewrite lookup_insert_eq.
Qed.

Lemma driver_status_contract_witness :
  DriverUseCase.CreateOrUpdateDriver 50 3%positive Sample.submitted
    = Some (Sample.submitted, Some ErrMissingRequiredField) /\
  (exists s', DriverUseCase.CreateOrUpdateDriver 50 1%positive Sample.submitted
                = Some (s', None) /\
     driver_at s' "d1" =
       Some (Driver.mk "d1" "Alice" DriverAvailable Sample.depot 50) /\
     drivers s' = <[ "d1" := 1%positive ]> (drivers Sample.submitted) /\
     orders s' = orders Sample.submitted /\
     ocell s' = ocell Sample.submitted) /\
  (exists s', DriverUseCase.CreateOrUpdateDriver 50 2%positive Sample.submitted
                = Some (s', None) /\
     driver_at s' "d3" =
       Some (Driver.mk "d3" "Dave" DriverAvailable Sample.origin 50) /\
     drivers s' = <[ "d3" := 2%positive ]> (drivers Sample.submitted) /\
     orders s' = orders Sample.submitted /\
     ocell s' = ocell Sample.submitted) /\
  DriverUseCase.CreateOrUpdateDriver 50 4%positive Sample.submitted
    = Some (Sample.submitted, Some ErrInvalidStatusUpdate) /\
  DriverUseCase.UpdateDriverStatus 50 "d1" "flying" Sample.store
    = Some (Sample.store, Some ErrInvalidStatusUpdate) /\
  (exists s', DriverUseCase.UpdateDriverStatus 50 "d1" DriverOffline Sample.store
                = Some (s', None) /\
     driver_at s' "d1" =
       Some (Driver.mk "d1" "Alice" DriverOffline Sample.depot 50) /\
     drivers s' = drivers Sample.store /\ orders s' = orders Sample.store /\
     ocell s' = ocell Sample.store).
Proof.
  assert (Hbad : "flying" ∉ recognized_driver_statuses).
  { rewrite <- IsValidDriverStatus_recognized. vm_compute. discriminate. }
  destruct (driver_status_contract 50 3%positive "" "" Sample.submitted
              Sample.d4 ltac:(vm_compute; reflexivity)) as (H1 & _).
  destruct (driver_status_contract 50 1%positive "" "" Sample.submitted
              Sample.d1 ltac:(vm_compute; reflexivity)) as (_ & H2 & _).
  destruct (driver_status_contract 50 2%positive "" "" Sample.submitted
              Sample.d3 ltac:(vm_compute; reflexivity)) as (_ & _ & H3 & _).
  destruct (driver_status_contract 50 4%positive "" "" Sample.submitted
              Sample.d5 ltac:(vm_compute; reflexivity))
    as (_ & _ & _ & H4 & _).
  destruct (driver_status_contract 50 1%positive "d1" "flying" Sample.store
              (Driver.mk "d1" "Alice" DriverAvailable Sample.depot 10)
              ltac:(vm_compute; reflexivity)) as (_ & _ & _ & _ & H5 & _).
  destruct (driver_status_contract 50 1%positive "d1" DriverOffline
              Sample.store
              (Driver.mk "d1" "Alice" DriverAvailable Sample.depot 10)
              ltac:(vm_compute; reflexivity)) as (_ & _ & _ & _ & _ & H6).
  split_and!.
  - apply H1. right. reflexivity.
  - apply H2; [ vm_compute; discriminate | vm_compute; discriminate
              | apply IsValidDriverStatus_recognized; reflexivity ].
  - apply H3; [ vm_compute; discriminate | vm_compute; discriminate
              | reflexivity ].
  - apply H4; [ vm_compute; discriminate | vm_compute; discriminate
              | vm_compute; discriminate | exact Hbad ].
  - apply H5. exact Hbad.
  - apply (H6 ltac:(apply IsValidDriverStatus_recognized; reflexivity)
              (Driver.mk "d1" "Alice" DriverAvailable Sample.depot 10)).
    vm_compute. reflexivity.
Defined.

(** ** Allocation only extends the heap *)

Lemma extends_refl (s : State) : extends s s.
Proof. by repeat split. Qed.

Lemma extends_trans (s1 s2 s3 : State) :
  extends s1 s2 -> extends s2 s3 -> extends s1 s3.
Proof.
  intros (Hd1 & Ho1 & Hdc1 & Hoc1) (Hd2 & Ho2 & Hdc2 & Hoc2).
  repeat split; try congruence; by etrans.
Qed.

Lemma new_Driver_extends (d : Driver.t) (s : State) :
  extends s (new_Driver d s).2.
Proof.
  repeat split; simpl; try done. apply insert_subseteq, fresh_dcell.
Qed.

Lemma new_Order_extends (o : Order.t) (s : State) :
  extends s (new_Order o s).2.
Proof.
  repeat split; simpl; try done. apply insert_subseteq, fresh_ocell.
Qed.

Lemma closed_of_wf (s : State) : wf s -> closed s.
Proof.
  intros [Hd Ho _]. split; intros id p Hp.
  - destruct (Hd id p Hp) as (d & -> & _). eauto.
  - destruct (Ho id p Hp) as (o & -> & _). eauto.
Qed.

(** Allocating cells changes nothing the store holds. *)
Lemma extends_driver_same (s s' : State) :
  closed s -> extends s s' -> driver_same s s'.
Proof.
  intros [Hc _] (Hd & _ & Hdc & _) k. unfold driver_at. rewrite Hd.
  destruct (drivers s !! k) as [p|] eqn:Hp; [|done]. simpl.
  destruct (Hc k p Hp) as [d Hcell]. rewrite Hcell.
  by eapply lookup_weaken.
Qed.

Lemma extends_order_same (s s' : State) :
  closed s -> extends s s' -> order_same s s'.
Proof.
  intros [_ Hc] (_ & Ho & _ & Hoc) k. unfold order_at. rewrite Ho.
  destruct (orders s !! k) as [p|] eqn:Hp; [|done]. simpl.
  destruct (Hc k p Hp) as [o Hcell]. rewrite Hcell.
  by eapply lookup_weaken.
Qed.

Lemma extends_wf (s s' : State) : wf s -> extends s s' -> wf s'.
Proof.
  intros [Hwd Hwo Hne] (Hd & Ho & Hdc & Hoc). split.
  - intros id p. rewrite Hd. intros Hp.
    destruct (Hwd id p Hp) as (d & Hcell & Hid). exists d. split; [|done].
    by eapply lookup_weaken.
  - intros id p. rewrite Ho. intros Hp.
    destruct (Hwo id p Hp) as (o & Hcell & Hid). exists o. split; [|done].
    by eapply lookup_weaken.
  - by rewrite Hd.
Qed.

(** ** The [range] loops *)

Lemma range_drivers_general (keep : Driver.t -> bool)
    (kvs : list (string * ptr)) (s0 s : State) :
  dcell s0 ⊆ dcell s ->
  Forall (fun kp => is_Some (dcell s0 !! kp.2)) kvs ->
  exists s' out,
    StateManager.range_drivers keep kvs s = Some (s', out) /\
    extends s s' /\ ocell s' = ocell s /\
    Forall2 (driver_copy s0 s s') (filter (kept_driver keep s0) kvs) out /\
    NoDup out.*2.
Proof.
  revert s. induction kvs as [|[id p] rest IH]; intros s Hsub Hall.
  - exists s, []. simpl.
    split_and!; [done | apply extends_refl | done | constructor | constructor].
  - apply Forall_cons in Hall as [[d Hd] Hall]. simpl in Hd.
    pose proof (lookup_weaken _ _ _ _ Hd Hsub) as Hd'.
    simpl. rewrite Hd'.
    destruct (keep d) eqn:Hk.
    + pose proof (new_Driver_extends d s) as Hext. simpl in Hext.
      set (q := fresh (dom (dcell s))) in *.
      set (s1 := upd_dcell <[q:=d]> s) in *.
      destruct (IH s1) as (s' & out & Hrun & Hext' & Hoc & Hcp & Hnd);
        [ etrans; [exact Hsub | apply Hext] | exact Hall | ].
      rewrite Hrun. exists s', ((id, q) :: out). split_and!; try done.
      * by eapply extends_trans.
      * rewrite filter_cons_True
          by (unfold kept_driver; simpl; by rewrite Hd).
        constructor.
        -- split_and!; simpl; [done | apply fresh_dcell |].
           rewrite Hd. destruct Hext' as (_ & _ & Hdc & _).
           eapply lookup_weaken; [|exact Hdc]. simpl.
           apply lookup_insert_eq.
        -- eapply Forall2_impl; [exact Hcp|].
           intros kp kq (? & Hnone & ?). split_and!; try done.
           destruct Hext as (_ & _ & Hdc & _).
           by eapply lookup_weaken_None.
      * simpl. constructor; [|done]. intros Hin.
        apply list_elem_of_fmap in Hin as ([k q'] & Hq & Hin). simpl in Hq.
        subst q'.
        apply list_elem_of_lookup in Hin as [i Hi].
        destruct (Forall2_lookup_r _ _ _ _ _ Hcp Hi) as (kp & _ & _ & Hn & _).
        simpl in Hn. unfold s1 in Hn. simpl in Hn.
        by rewrite lookup_insert_eq in Hn.
    + destruct (IH s) as (s' & out & Hrun & Hext' & Hoc & Hcp & Hnd);
        [done | done |].
      rewrite Hrun. exists s', out. split_and!; try done.
      rewrite filter_cons_False; [done|].
      unfold kept_driver. simpl. rewrite Hd. simpl. by rewrite Hk.
Qed.

Lemma range_orders_general (keep : Order.t -> bool)
    (kvs : list (string * ptr)) (s0 s : State) :
  ocell s0 ⊆ ocell s ->
  Forall (fun kp => is_Some (ocell s0 !! kp.2)) kvs ->
  exists s' out,
    StateManager.range_orders keep kvs s = Some (s', out) /\
    extends s s' /\ dcell s' = dcell s /\
    Forall2 (order_copy s0 s s') (filter (kept_order keep s0) kvs) out /\
    NoDup out.*2.
Proof.
  revert s. induction kvs as [|[id p] rest IH]; intros s Hsub Hall.
  - exists s, []. simpl.
    split_and!; [done | apply extends_refl | done | constructor | constructor].
  - apply Forall_cons in Hall as [[d Hd] Hall]. simpl in Hd.
    pose proof (lookup_weaken _ _ _ _ Hd Hsub) as Hd'.
    simpl. rewrite Hd'.
    destruct (keep d) eqn:Hk.
    + pose proof (new_Order_extends d s) as Hext. simpl in Hext.
      set (q := fresh (dom (ocell s))) in *.
      set (s1 := upd_ocell <[q:=d]> s) in *.
      destruct (IH s1) as (s' & out & Hrun & Hext' & Hoc & Hcp & Hnd);
        [ etrans; [exact Hsub | apply Hext] | exact Hall | ].
      rewrite Hrun. exists s', ((id, q) :: out). split_and!; try done.
      * by eapply extends_trans.
      * rewrite filter_cons_True
          by (unfold kept_order; simpl; by rewrite Hd).
        constructor.
        -- split_and!; simpl; [done | apply fresh_ocell |].
           rewrite Hd. destruct Hext' as (_ & _ & _ & Hdc).
           eapply lookup_weaken; [|exact Hdc]. simpl.
           apply lookup_insert_eq.
        -- eapply Forall2_impl; [exact Hcp|].
           intros kp kq (? & Hnone & ?). split_and!; try done.
           destruct Hext as (_ & _ & _ & Hdc).
           by eapply lookup_weaken_None.
      * simpl. constructor; [|done]. intros Hin.
        apply list_elem_of_fmap in Hin as ([k q'] & Hq & Hin). simpl in Hq.
        subst q'.
        apply list_elem_of_lookup in Hin as [i Hi].
        destruct (Forall2_lookup_r _ _ _ _ _ Hcp Hi) as (kp & _ & _ & Hn & _).
        simpl in Hn. unfold s1 in Hn. simpl in Hn.
        by rewrite lookup_insert_eq in Hn.
    + destruct (IH s) as (s' & out & Hrun & Hext' & Hoc & Hcp & Hnd);
        [done | done |].
      rewrite Hrun. exists s', out. split_and!; try done.
      rewrite filter_cons_False; [done|].
      unfold kept_order. simpl. rewrite Hd. simpl. by rewrite Hk.
Qed.

Lemma range_drivers_extends (keep : Driver.t -> bool)
    (kvs : list (string * ptr)) (s s' : State) (out : list (string * ptr)) :
  StateManager.range_drivers keep kvs s = Some (s', out) -> extends s s'.
Proof.
  revert s s' out. induction kvs as [|[id p] rest IH]; intros s s' out; simpl.
  - intros [= <- _]. apply extends_refl.
  - destruct (dcell s !! p) as [d|]; [|done].
    destruct (keep d); [|by apply IH].
    destruct (StateManager.range_drivers keep rest _) as [[s2 out2]|] eqn:Hr;
      [|done].
    intros [= <- _]. eapply extends_trans; [apply (new_Driver_extends d)|].
    by eapply IH.
Qed.

Lemma range_orders_extends (keep : Order.t -> bool)
    (kvs : list (string * ptr)) (s s' : State) (out : list (string * ptr)) :
  StateManager.range_orders keep kvs s = Some (s', out) -> extends s s'.
Proof.
  revert s s' out. induction kvs as [|[id p] rest IH]; intros s s' out; simpl.
  - intros [= <- _]. apply extends_refl.
  - destruct (ocell s !! p) as [o|]; [|done].
    destruct (keep o); [|by apply IH].
    destruct (StateManager.range_orders keep rest _) as [[s2 out2]|] eqn:Hr;
      [|done].
    intros [= <- _]. eapply extends_trans; [apply (new_Order_extends o)|].
    by eapply IH.
Qed.

(** ** Writes through the store's pointers *)

(** Writing [d'] into a cell whose record has the same ID, and (re)binding
    that ID to the cell, replaces the record held under the ID and leaves
    every other record alone: by [wf] no other ID leads to that cell. *)
Lemma driver_write (s s' : State) (p : ptr) (d0 d' : Driver.t) :
  wf s ->
  dcell s !! p = Some d0 -> Driver.ID d' = Driver.ID d0 ->
  Driver.ID d' <> "" ->
  dcell s' = <[p := d']> (dcell s) -> ocell s' = ocell s ->
  drivers s' = <[Driver.ID d' := p]> (drivers s) -> orders s' = orders s ->
  wf s' /\ driver_put s s' (Driver.ID d') d' /\ order_same s s'.
Proof.
  intros [Hwd Hwo Hne] Hcell Hid Hnonempty Hdc Hoc Hdm Hom.
  assert (Hother : forall k q, k <> Driver.ID d' ->
            drivers s !! k = Some q -> q <> p).
  { intros k q Hk Hq Heq. subst q. destruct (Hwd k p Hq) as (d1 & Hc1 & Hid1).
    rewrite Hcell in Hc1. injection Hc1 as <-. congruence. }
  split_and!.
  - split.
    + intros k q. rewrite Hdm, Hdc, lookup_insert.
      case_decide as Hk.
      * intros [= <-]. subst k. exists d'. by rewrite lookup_insert_eq.
      * intros Hq. destruct (Hwd k q Hq) as (d1 & Hc1 & Hid1).
        exists d1. split; [|done].
        rewrite lookup_insert_ne; [done|].
        intros <-. by eapply (Hother k p).
    + intros k q. rewrite Hom, Hoc. apply Hwo.
    + rewrite Hdm, lookup_insert_ne; done.
  - intros k. unfold driver_at. rewrite Hdm, Hdc, lookup_insert.
    case_decide as Hk; case_decide as Hk'; try congruence; simpl.
    + by rewrite lookup_insert_eq.
    + destruct (drivers s !! k) as [q|] eqn:Hq; [|done]. simpl.
      rewrite lookup_insert_ne; [done|].
      intros <-. by eapply (Hother k p).
  - intros k. unfold order_at. by rewrite Hom, Hoc.
Qed.

Lemma order_write (s s' : State) (p : ptr) (o0 o' : Order.t) :
  wf s ->
  ocell s !! p = Some o0 -> Order.ID o' = Order.ID o0 ->
  ocell s' = <[p := o']> (ocell s) -> dcell s' = dcell s ->
  orders s' = <[Order.ID o' := p]> (orders s) -> drivers s' = drivers s ->
  wf s' /\ order_put s s' (Order.ID o') o' /\ driver_same s s'.
Proof.
  intros [Hwd Hwo Hne] Hcell Hid Hoc Hdc Hom Hdm.
  assert (Hother : forall k q, k <> Order.ID o' ->
            orders s !! k = Some q -> q <> p).
  { intros k q Hk Hq Heq. subst q. destruct (Hwo k p Hq) as (o1 & Hc1 & Hid1).
    rewrite Hcell in Hc1. injection Hc1 as <-. congruence. }
  split_and!.
  - split.
    + intros k q. rewrite Hdm, Hdc. apply Hwd.
    + intros k q. rewrite Hom, Hoc, lookup_insert.
      case_decide as Hk.
      * intros [= <-]. subst k. exists o'. by rewrite lookup_insert_eq.
      * intros Hq. destruct (Hwo k q Hq) as (o1 & Hc1 & Hid1).
        exists o1. split; [|done].
        rewrite lookup_insert_ne; [done|].
        intros <-. by eapply (Hother k p).
    + by rewrite Hdm.
  - intros k. unfold order_at. rewrite Hom, Hoc, lookup_insert.
    case_decide as Hk; case_decide as Hk'; try congruence; simpl.
    + by rewrite lookup_insert_eq.
    + destruct (orders s !! k) as [q|] eqn:Hq; [|done]. simpl.
      rewrite lookup_insert_ne; [done|].
      intros <-. by eapply (Hother k p).
  - intros k. unfold driver_at. by rewrite Hdm, Hdc.
Qed.

(** ** Every operation as a change of the held records *)

Lemma effect_of_extends (o : op) (s s' : State) :
  wf s -> extends s s' -> wf s' /\ effect s s' o.
Proof.
  intros Hwf Hext. split; [by eapply extends_wf|].
  apply effect_none.
  - by apply extends_driver_same; [apply closed_of_wf|].
  - by apply extends_order_same; [apply closed_of_wf|].
Qed.

Lemma effect_of_unchanged (o : op) (s : State) :
  wf s -> wf s /\ effect s s o.
Proof. intros Hwf. apply effect_of_extends; [done | apply extends_refl]. Qed.

Lemma CreateOrUpdateDriver_effect (now : Z) (p : ptr) (s s' : State)
    (r : option error) :
  wf s -> DriverUseCase.CreateOrUpdateDriver now p s = Some (s', r) ->
  wf s' /\ effect s s' (OpCreateOrUpdateDriver now p).
Proof.
  intros Hwf. unfold DriverUseCase.CreateOrUpdateDriver.
  destruct (dcell s !! p) as [d|] eqn:Hd; [|done].
  destruct (bool_decide (Driver.ID d = "")) eqn:Hid; simpl;
    [intros [= <- _]; by apply effect_of_unchanged|].
  destruct (bool_decide (Driver.Name d = "")) eqn:Hn; simpl;
    [intros [= <- _]; by apply effect_of_unchanged|].
  apply bool_decide_eq_false in Hid, Hn.
  destruct (decide (Driver.Status d = "")) as [Hst|Hst].
  - rewrite (bool_decide_eq_true_2 _ Hst). simpl.
    unfold StateManager.CreateOrUpdateDriver. simpl.
    rewrite lookup_insert_eq. intros [= <- _].
    destruct (driver_write s
                (upd_drivers <[Driver.ID d := p]>
                   (upd_dcell
                      <[p := Driver.set_UpdatedAt now
                               (Driver.set_Status DriverAvailable d)]>
                      (upd_dcell <[p := Driver.set_Status DriverAvailable d]> s)))
                p d
                (Driver.mk (Driver.ID d) (Driver.Name d) DriverAvailable
                   (Driver.Loc d) now))
      as (Hwf' & Hput & Hsame); try done.
    { simpl. by rewrite insert_insert_eq. }
    split; [done|].
    eapply effect_upsert; eauto; unfold stored_status;
      rewrite Hst; case_decide; done.
  - rewrite (bool_decide_eq_false_2 _ Hst). simpl.
    destruct (IsValidDriverStatus (Driver.Status d)) eqn:Hv; simpl;
      [|intros [= <- _]; by apply effect_of_unchanged].
    unfold StateManager.CreateOrUpdateDriver. rewrite Hd.
    intros [= <- _].
    destruct (driver_write s
                (upd_drivers <[Driver.ID d := p]>
                   (upd_dcell <[p := Driver.set_UpdatedAt now d]> s))
                p d
                (Driver.mk (Driver.ID d) (Driver.Name d) (Driver.Status d)
                   (Driver.Loc d) now))
      as (Hwf' & Hput & Hsame); try done.
    split; [done|].
    eapply effect_upsert; eauto; unfold stored_status;
      case_decide; done.
Qed.

Lemma UpdateDriverStatus_effect (now : Z) (id : string) (st : DriverStatus)
    (s s' : State) (r : option error) :
  wf s -> StateManager.UpdateDriverStatus now id st s = Some (s', r) ->
  wf s' /\ effect s s' (OpUpdateDriverStatus now id st).
Proof.
  intros Hwf. unfold StateManager.UpdateDriverStatus.
  destruct (IsValidDriverStatus st) eqn:Hv; simpl;
    [|intros [= <- _]; by apply effect_of_unchanged].
  destruct (drivers s !! id) as [p|] eqn:Hp;
    [|intros [= <- _]; by apply effect_of_unchanged].
  destruct (dcell s !! p) as [d|] eqn:Hd; [|done].
  intros [= <- _].
  destruct (wf_drivers s Hwf id p Hp) as (d1 & Hd1 & Hid).
  assert (d1 = d) by congruence. subst d1.
  assert (id <> "") as Hne.
  { intros ->. by rewrite (wf_nonempty s Hwf) in Hp. }
  subst id.
  destruct (driver_write s
              (upd_dcell <[p := Driver.set_UpdatedAt now
                                   (Driver.set_Status st d)]> s)
              p d
              (Driver.mk (Driver.ID d) (Driver.Name d) st (Driver.Loc d) now))
    as (Hwf' & Hput & Hsame); try done.
  { simpl. symmetry. by apply insert_id. }
  split; [done|].
  apply (effect_driver_status _ _ now (Driver.ID d) st d); try done.
  unfold driver_at. by rewrite Hp.
Qed.

Lemma CreateOrder_effect (now : Z) (p : ptr) (s s' : State)
    (r : option error) :
  wf s -> OrderUseCase.CreateOrder now p s = Some (s', r) ->
  wf s' /\ effect s s' (OpCreateOrder now p).
Proof.
  intros Hwf. unfold OrderUseCase.CreateOrder.
  destruct (ocell s !! p) as [o|] eqn:Ho; [|done].
  destruct (bool_decide (Order.ID o = "")) eqn:Hid; simpl;
    [intros [= <- _]; by apply effect_of_unchanged|].
  destruct (bool_decide (Order.Customer o = "")) eqn:Hn; simpl;
    [intros [= <- _]; by apply effect_of_unchanged|].
  apply bool_decide_eq_false in Hid, Hn.
  unfold StateManager.CreateOrder. rewrite Ho. intros [= <- _].
  destruct (order_write s
              (upd_orders <[Order.ID o := p]>
                 (upd_ocell
                    <[p := Order.set_DriverID ""
                             (Order.set_UpdatedAt now
                                (Order.set_CreatedAt now
                                   (Order.set_Status OrderPending o)))]> s))
              p o
              (Order.mk (Order.ID o) (Order.Customer o) (Order.Pickup o)
                 (Order.Dropoff o) OrderPending "" now now))
    as (Hwf' & Hput & Hsame); try done.
  split; [done|]. eapply effect_create_order; eauto.
Qed.

Lemma UpdateOrderStatus_effect (now : Z) (id : string) (st : OrderStatus)
    (s s' : State) (r : option error) :
  wf s -> StateManager.UpdateOrderStatus now id st s = Some (s', r) ->
  wf s' /\ effect s s' (OpUpdateOrderStatus now id st).
Proof.
  intros Hwf. unfold StateManager.UpdateOrderStatus.
  destruct (IsValidOrderStatus st) eqn:Hv; simpl;
    [|intros [= <- _]; by apply effect_of_unchanged].
  destruct (orders s !! id) as [p|] eqn:Hp;
    [|intros [= <- _]; by apply effect_of_unchanged].
  destruct (ocell s !! p) as [o|] eqn:Ho; [|done].
  destruct (CanTransitionOrderStatus (Order.Status o) st) eqn:Hcan; simpl;
    [|intros [= <- _]; by apply effect_of_unchanged].
  intros [= <- _].
  destruct (wf_orders s Hwf id p Hp) as (o1 & Ho1 & Hid).
  assert (o1 = o) by congruence. subst o1. subst id.
  destruct (order_write s
              (upd_ocell <[p := Order.set_UpdatedAt now
                                   (Order.set_Status st o)]> s)
              p o
              (Order.mk (Order.ID o) (Order.Customer o) (Order.Pickup o)
                 (Order.Dropoff o) st (Order.DriverID o)
                 (Order.CreatedAt o) now))
    as (Hwf' & Hput & Hsame); try done.
  { simpl. symmetry. by apply insert_id. }
  split; [done|].
  apply (effect_order_status _ _ now (Order.ID o) st o); try done.
  unfold order_at. by rewrite Hp.
Qed.

(** The two writes of a successful assignment. *)
Lemma assignment_writes (now1 now2 : Z) (oid did : string) (s : State)
    (po pd : ptr) (o : Order.t) (d : Driver.t) :
  wf s ->
  orders s !! oid = Some po -> drivers s !! did = Some pd ->
  ocell s !! po = Some o -> dcell s !! pd = Some d ->
  let o' := Order.mk (Order.ID o) (Order.Customer o) (Order.Pickup o)
              (Order.Dropoff o) OrderAssigned did (Order.CreatedAt o) now1 in
  let d' := Driver.mk (Driver.ID d) (Driver.Name d) DriverBusy
              (Driver.Loc d) now2 in
  let s' := upd_dcell <[pd := d']> (upd_ocell <[po := o']> s) in
  wf s' /\ order_put s s' oid o' /\ driver_put s s' did d'.
Proof.
  intros Hwf Hpo Hpd Ho Hd o' d' s'.
  destruct (wf_orders s Hwf oid po Hpo) as (o1 & Ho1 & Hoid).
  assert (o1 = o) by congruence. subst o1. subst oid.
  destruct (wf_drivers s Hwf did pd Hpd) as (d1 & Hd1 & Hdid).
  assert (d1 = d) by congruence. subst d1.
  assert (did <> "") as Hne.
  { intros ->. by rewrite (wf_nonempty s Hwf) in Hpd. }
  subst did.
  set (s1 := upd_ocell <[po := o']> s).
  destruct (order_write s s1 po o o') as (Hwf1 & Hoput & Hdsame); try done.
  { simpl. symmetry. by apply insert_id. }
  destruct (driver_write s1 s' pd d d')
    as (Hwf' & Hdput & Hosame); try done.
  { simpl. symmetry. by apply insert_id. }
Qed.

Lemma AssignOrderToDriver_effect (now1 now2 : Z) (oid did : string)
    (s s' : State) (r : option error) :
  wf s -> StateManager.AssignOrderToDriver now1 now2 oid did s = Some (s', r) ->
  wf s' /\ effect s s' (OpAssignOrderToDriver now1 now2 oid did).
Proof.
  intros Hwf. unfold StateManager.AssignOrderToDriver.
  destruct (orders s !! oid) as [po|] eqn:Hpo;
    [|intros [= <- _]; by apply effect_of_unchanged].
  destruct (drivers s !! did) as [pd|] eqn:Hpd;
    [|intros [= <- _]; by apply effect_of_unchanged].
  destruct (ocell s !! po) as [o|] eqn:Ho; [|done].
  destruct (bool_decide (Order.Status o = OrderPending)) eqn:Hst; simpl;
    [|intros [= <- _]; by apply effect_of_unchanged].
  destruct (dcell s !! pd) as [d|] eqn:Hd; [|done].
  destruct (bool_decide (Driver.Status d = DriverAvailable)) eqn:Hds; simpl;
    [|intros [= <- _]; by apply effect_of_unchanged].
  apply bool_decide_eq_true in Hst, Hds. intros [= <- _].
  destruct (assignment_writes now1 now2 oid did s po pd o d)
    as (Hwf' & Hoput & Hdput); try done.
  split; [exact Hwf'|].
  apply (effect_assign _ _ now1 now2 oid did o d); try done.
  - unfold order_at. by rewrite Hpo.
  - unfold driver_at. by rewrite Hpd.
Qed.

(** A pending order and an available driver: the assignment succeeds and
    rewrites exactly these two records. *)
Lemma AssignOrderToDriver_success (now1 now2 : Z) (oid did : string)
    (s : State) (o : Order.t) (d : Driver.t) :
  wf s ->
  order_at s oid = Some o -> driver_at s did = Some d ->
  Order.Status o = OrderPending -> Driver.Status d = DriverAvailable ->
  exists s',
    StateManager.AssignOrderToDriver now1 now2 oid did s = Some (s', None) /\
    wf s' /\
    order_put s s' oid
      (Order.mk (Order.ID o) (Order.Customer o) (Order.Pickup o)
         (Order.Dropoff o) OrderAssigned did (Order.CreatedAt o) now1) /\
    driver_put s s' did
      (Driver.mk (Driver.ID d) (Driver.Name d) DriverBusy (Driver.Loc d) now2).
Proof.
  intros Hwf Ho Hd Hst Hds. unfold order_at, driver_at in Ho, Hd.
  destruct (orders s !! oid) as [po|] eqn:Hpo; [|done].
  destruct (drivers s !! did) as [pd|] eqn:Hpd; [|done].
  simpl in Ho, Hd. unfold StateManager.AssignOrderToDriver.
  rewrite Hpo, Hpd, Ho, Hd.
  rewrite (bool_decide_eq_true_2 _ Hst), (bool_decide_eq_true_2 _ Hds).
  simpl. eexists. split; [reflexivity|].
  exact (assignment_writes now1 now2 oid did s po pd o d Hwf Hpo Hpd Ho Hd).
Qed.

(** One step of the store, seen on the records it holds. *)
Lemma run_effect (o : op) (s s' : State) :
  wf s -> run o s = Some s' -> wf s' /\ effect s s' o.
Proof.
  intros Hwf Hrun. destruct o; simpl in Hrun.
  - injection Hrun as <-. apply effect_of_extends; [done|].
    apply new_Driver_extends.
  - injection Hrun as <-. apply effect_of_extends; [done|].
    apply new_Order_extends.
  - apply fmap_Some in Hrun as ([s1 r] & Hrun & ->).
    by eapply CreateOrUpdateDriver_effect.
  - apply fmap_Some in Hrun as ([s1 r] & Hrun & ->). simpl.
    apply effect_of_extends; [done|].
    unfold DriverUseCase.GetDriver, StateManager.GetDriver in Hrun.
    destruct (drivers s !! id); [|injection Hrun as <- _; apply extends_refl].
    destruct (dcell s !! p) as [d|]; [|done].
    injection Hrun as <- _. apply (new_Driver_extends d).
  - apply fmap_Some in Hrun as ([s1 r] & Hrun & ->). simpl.
    apply effect_of_extends; [done|].
    unfold DriverUseCase.GetAllDrivers, StateManager.GetAllDrivers in Hrun.
    destruct (StateManager.range_drivers _ kvs s) as [[s2 out]|] eqn:Hr;
      [|done].
    injection Hrun as <- _. by eapply range_drivers_extends.
  - apply fmap_Some in Hrun as ([s1 r] & Hrun & ->).
    by eapply UpdateDriverStatus_effect.
  - apply fmap_Some in Hrun as ([s1 r] & Hrun & ->). simpl.
    apply effect_of_extends; [done|].
    unfold StateManager.GetAvailableDrivers in Hrun.
    destruct (StateManager.range_drivers _ kvs s) as [[s2 out]|] eqn:Hr;
      [|done].
    injection Hrun as <- _. by eapply range_drivers_extends.
  - apply fmap_Some in Hrun as ([s1 r] & Hrun & ->).
    by eapply CreateOrder_effect.
  - apply fmap_Some in Hrun as ([s1 r] & Hrun & ->). simpl.
    apply effect_of_extends; [done|].
    unfold OrderUseCase.GetOrder, StateManager.GetOrder in Hrun.
    destruct (orders s !! id); [|injection Hrun as <- _; apply extends_refl].
    destruct (ocell s !! p) as [o|]; [|done].
    injection Hrun as <- _. apply (new_Order_extends o).
  - apply fmap_Some in Hrun as ([s1 r] & Hrun & ->). simpl.
    apply effect_of_extends; [done|].
    unfold OrderUseCase.GetAllOrders, StateManager.GetAllOrders in Hrun.
    destruct (StateManager.range_orders _ kvs s) as [[s2 out]|] eqn:Hr;
      [|done].
    injection Hrun as <- _. by eapply range_orders_extends.
  - apply fmap_Some in Hrun as ([s1 r] & Hrun & ->). simpl.
    apply effect_of_extends; [done|].
    unfold StateManager.GetPendingOrders in Hrun.
    destruct (StateManager.range_orders _ kvs s) as [[s2 out]|] eqn:Hr;
      [|done].
    injection Hrun as <- _. by eapply range_orders_extends.
  - apply fmap_Some in Hrun as ([s1 r] & Hrun & ->).
    by eapply UpdateOrderStatus_effect.
  - apply fmap_Some in Hrun as ([s1 r] & Hrun & ->).
    by eapply AssignOrderToDriver_effect.
  - apply fmap_Some in Hrun as ([s1 r] & Hrun & ->). simpl.
    apply effect_of_extends; [done|].
    unfold StateManager.GetSnapshot in Hrun.
    destruct (StateManager.range_drivers _ kd s) as [[s2 outd]|] eqn:Hr1;
      [|done].
    destruct (StateManager.range_orders _ ko s2) as [[s3 outo]|] eqn:Hr2;
      [|done].
    injection Hrun as <- _. eapply extends_trans.
    + by eapply range_drivers_extends.
    + by eapply range_orders_extends.
Qed.

Lemma wf_NewStateManager : wf NewStateManager.
Proof. split; intros; by rewrite ?lookup_empty in *. Qed.

Lemma reachable_by_weaken (allowed : State -> op -> Prop) (s : State) :
  reachable_by allowed s -> reachable s.
Proof.
  induction 1 as [|s o s' _ IH _ Hrun]; [constructor|].
  by eapply reachable_step; [exact IH | | exact Hrun].
Qed.

Lemma reachable_wf (s : State) : reachable s -> wf s.
Proof.
  induction 1 as [|s o s' _ IH _ Hrun]; [apply wf_NewStateManager|].
  by destruct (run_effect o s s' IH Hrun).
Qed.

Lemma reachable_run_all (os : list op) (s s' : State) :
  reachable s -> run_all os s = Some s' -> reachable s'.
Proof.
  revert s. induction os as [|o os IH]; intros s Hs; simpl.
  - by intros [= <-].
  - destruct (run o s) as [s1|] eqn:Hrun; [|done].
    apply IH. by eapply reachable_step; [exact Hs | | exact Hrun].
Qed.

Lemma reachable_after (os : list op) :
  is_Some (run_all os NewStateManager) -> reachable (Sample.after os).
Proof.
  intros [s Hs]. unfold Sample.after. rewrite Hs. simpl.
  eapply reachable_run_all; [constructor | exact Hs].
Qed.

Lemma reachable_Sample_store : reachable Sample.store.
Proof. apply (reachable_after Sample.setup). vm_compute. eauto. Qed.

Lemma reachable_by_run_all (allowed : State -> op -> Prop) (os : list op)
    (s : State) :
  reachable_by allowed s -> allowed_all allowed os s ->
  exists s', run_all os s = Some s' /\ reachable_by allowed s'.
Proof.
  revert s. induction os as [|o os IH]; intros s Hs; simpl.
  - intros _. by exists s.
  - intros [Hguard Hrest]. destruct (run o s) as [s1|] eqn:Hrun; [|done].
    apply IH; [|done]. by eapply reachable_step.
Qed.

Lemma reachable_by_after (allowed : State -> op -> Prop) (os : list op) :
  allowed_all allowed os NewStateManager ->
  reachable_by allowed (Sample.after os).
Proof.
  intros Hall.
  destruct (reachable_by_run_all allowed os NewStateManager) as (s & Hs & Hr);
    [constructor | done |].
  unfold Sample.after. by rewrite Hs.
Qed.

(** ** C3: the orders' driver references *)

Lemma effect_keeps_drivers (o : op) (s s' : State) (k : string) :
  effect s s' o -> is_Some (driver_at s k) -> is_Some (driver_at s' k).
Proof.
  intros Heff Hk.
  inversion Heff; subst;
    repeat match goal with
      | H : driver_same _ _ |- _ => rewrite (H k)
      | H : driver_put _ _ _ _ |- _ => rewrite (H k); case_decide
      end; eauto.
Qed.

Lemma refs_ok_step (o : op) (s s' : State) :
  effect s s' o -> refs_ok s -> refs_ok s'.
Proof.
  intros Heff Hok id rec Hrec.
  assert (Hkeep : forall k, is_Some (driver_at s k) -> is_Some (driver_at s' k))
    by (intros k; by apply (effect_keeps_drivers o)).
  inversion Heff; subst;
    repeat match goal with
      | H : order_same _ _ |- _ => rewrite (H id) in Hrec; clear H
      | H : order_put _ _ _ _ |- _ =>
          rewrite (H id) in Hrec; clear H; case_decide
      end; simplify_eq/=;
    try (destruct (Hok _ _ Hrec) as [Ha Hb]; split; [done|];
         intros Hne; by apply Hkeep, Hb).
  - (* CreateOrder *) split; [done|]. by intros [].
  - (* UpdateOrderStatus *)
    match goal with Hx : order_at s _ = Some _ |- _ =>
      destruct (Hok _ _ Hx) as [Ha Hb] end.
    split.
    + intros ->. by rewrite CanTransition_not_to_pending in *.
    + intros Hne. by apply Hkeep, Hb.
  - (* AssignOrderToDriver *) split; [done|]. intros _.
    match goal with Hx : driver_put _ _ _ _ |- _ => rewrite (Hx did) end.
    case_decide; [eauto|done].
Qed.

Lemma refs_ok_NewStateManager : refs_ok NewStateManager.
Proof. intros id o. unfold order_at. simpl. by rewrite lookup_empty. Qed.

Lemma reachable_refs_ok (s : State) : reachable s -> refs_ok s.
Proof.
  induction 1 as [|s o s' Hs IH _ Hrun]; [apply refs_ok_NewStateManager|].
  destruct (run_effect o s s' (reachable_wf s Hs) Hrun) as [_ Heff].
  by eapply refs_ok_step.
Qed.

Lemma driver_at_nonempty (s : State) (id : string) :
  wf s -> is_Some (driver_at s id) -> id <> "".
Proof.
  intros Hwf [d Hd] ->. unfold driver_at in Hd.
  by rewrite (wf_nonempty s Hwf) in Hd.
Qed.

(** A status update to [picked_up] or [delivered] starts from [assigned]
    or [picked_up]. *)
Lemma later_from_later (from to : OrderStatus) :
  CanTransitionOrderStatus from to = true ->
  to ∈ assigned_or_later -> to <> OrderAssigned -> from ∈ assigned_or_later.
Proof.
  rewrite CanTransitionOrderStatus_edges. unfold edges, assigned_or_later.
  rewrite !elem_of_cons, !elem_of_nil.
  unfold OrderPending, OrderAssigned, OrderPickedUp, OrderDelivered,
    OrderCanceled.
  intros Hedge Hto Hne.
  destruct Hto as [->|[->|[->|[]]]]; [done | |];
    repeat destruct Hedge as [Hedge|Hedge]; try done;
    simplify_eq; tauto.
Qed.

Lemma assigned_has_driver_step (o : op) (s s' : State) :
  wf s -> no_direct_assign s o -> effect s s' o ->
  assigned_has_driver s -> assigned_has_driver s'.
Proof.
  intros Hwf Hguard Heff Hinv id rec Hrec Hst.
  assert (Hkeep : forall k, is_Some (driver_at s k) -> is_Some (driver_at s' k))
    by (intros k; by apply (effect_keeps_drivers o)).
  assert (Hold : forall r, order_at s id = Some r ->
            Order.Status r ∈ assigned_or_later ->
            Order.DriverID r <> "" /\ is_Some (driver_at s' (Order.DriverID r))).
  { intros r Hr Hs. destruct (Hinv id r Hr Hs) as [Hne Hd]. split; [done|].
    by apply Hkeep. }
  destruct Heff
    as [ o Hds Hos
       | now p d0 Hcell Hid Hname Hvalid Hdp Hos
       | now id0 st d0 Hd0 Hvalid Hdp Hos
       | now p o0 Hcell Hid Hcust Hop Hds
       | now id0 st o0 Ho0 Hcan Hop Hds
       | now1 now2 oid0 did0 o0 d0 Ho0 Hd0 Hpend Havail Hop Hdp ];
    simpl in Hguard;
    repeat match goal with
      | H : order_same _ _ |- _ => rewrite (H id) in Hrec; clear H
      | H : order_put _ _ _ _ |- _ => rewrite (H id) in Hrec; clear H
      end;
    try (by apply Hold).
  - (* CreateOrder *)
    case_decide; [|by apply Hold]. injection Hrec as <-. simpl in Hst.
    unfold assigned_or_later in Hst.
    rewrite !elem_of_cons, elem_of_nil in Hst.
    by destruct Hst as [?|[?|[?|[]]]].
  - (* UpdateOrderStatus *)
    case_decide as Hk; [|by apply Hold]. subst id0.
    injection Hrec as <-. simpl in *.
    apply (Hold o0 Ho0). by apply (later_from_later _ st).
  - (* AssignOrderToDriver *)
    case_decide as Hk; [|by apply Hold]. subst oid0.
    injection Hrec as <-. simpl. split.
    + by apply (driver_at_nonempty s did0 Hwf).
    + apply Hkeep. by eexists.
Qed.

Lemma guarded_assigned_has_driver (s : State) :
  reachable_by no_direct_assign s -> assigned_has_driver s.
Proof.
  induction 1 as [|s o s' Hs IH Hguard Hrun].
  - intros id o Ho. unfold order_at in Ho. simpl in Ho.
    by rewrite lookup_empty in Ho.
  - pose proof (reachable_wf s (reachable_by_weaken _ _ Hs)) as Hwf.
    destruct (run_effect o s s' Hwf Hrun) as [_ Heff].
    by eapply assigned_has_driver_step.
Qed.

Lemma one_assignment_no_direct_assign :
  reachable_by no_direct_assign (Sample.after Sample.one_assignment).
Proof. apply reachable_by_after. simpl. by split_and!. Qed.

(** C3, as the code has it. As long as no [SetOrderStatus] call has
    [assigned] as its target, every order that is assigned or later has a
    non-empty driver reference that identifies a driver of the store. With
    or without such calls, in every reachable state an order that is still
    pending has an empty driver reference, and a non-empty driver
    reference identifies a driver of the store; one operation changes the
    reference of a stored order only if it is [AssignOrderToDriver] on that
    order, which fills an empty reference with the ID of an existing
    driver, or [CreateOrder], which empties it; an order that enters the
    store enters pending with an empty reference. *)
Theorem driver_reference_discipline (s : State) :
  (reachable_by no_direct_assign s -> assigned_has_driver s) /\
  (reachable s ->
   refs_ok s /\
   (forall o s' id rec rec',
      run o s = Some s' ->
      order_at s id = Some rec -> order_at s' id = Some rec' ->
      Order.DriverID rec' <> Order.DriverID rec ->
      (exists now1 now2,
         o = OpAssignOrderToDriver now1 now2 id (Order.DriverID rec') /\
         Order.DriverID rec = "" /\ Order.DriverID rec' <> "" /\
         is_Some (driver_at s (Order.DriverID rec'))) \/
      (exists now p, o = OpCreateOrder now p /\ Order.DriverID rec' = "" /\
         Order.Status rec' = OrderPending)) /\
   (forall o s' id rec',
      run o s = Some s' ->
      order_at s id = None -> order_at s' id = Some rec' ->
      Order.DriverID rec' = "" /\ Order.Status rec' = OrderPending)).
Proof.
  split; [apply guarded_assigned_has_driver|].
  intros Hs. pose proof (reachable_wf s Hs) as Hwf.
  pose proof (reachable_refs_ok s Hs) as Hok.
  split_and!; [done | |].
  - intros o s' id rec rec' Hrun Hrec Hrec' Hne.
    destruct (run_effect o s s' Hwf Hrun) as [_ Heff].
    inversion Heff; subst;
      repeat match goal with
        | H : order_same _ _ |- _ => rewrite (H id) in Hrec'; clear H
        | H : order_put _ _ _ _ |- _ =>
            rewrite (H id) in Hrec'; clear H; case_decide
        end; simplify_eq/=.
    + right. eauto.
    + left. exists now1, now2. destruct (Hok _ _ Hrec) as [Ha _].
      split_and!; [done | by apply Ha | | by eauto].
      eapply driver_at_nonempty; eauto.
  - intros o s' id rec' Hrun Hnone Hrec'.
    destruct (run_effect o s s' Hwf Hrun) as [_ Heff].
    inversion Heff; subst;
      repeat match goal with
        | H : order_same _ _ |- _ => rewrite (H id) in Hrec'; clear H
        | H : order_put _ _ _ _ |- _ =>
            rewrite (H id) in Hrec'; clear H; case_decide
        end; simplify_eq/=; done.
Qed.

Lemma driver_reference_discipline_witness :
  ("d1" <> "" /\
   is_Some (driver_at (Sample.after Sample.one_assignment) "d1")) /\
  refs_ok Sample.store /\
  ((exists now1 now2,
      OpAssignOrderToDriver 20 21 "o1" "d1"
        = OpAssignOrderToDriver now1 now2 "o1" "d1" /\
      "" = "" /\ "d1" <> "" /\ is_Some (driver_at Sample.store "d1")) \/
   (exists now p, OpAssignOrderToDriver 20 21 "o1" "d1" = OpCreateOrder now p /\
      "d1" = "" /\ OrderAssigned = OrderPending)).
Proof.
  destruct (driver_reference_discipline (Sample.after Sample.one_assignment))
    as (H0 & _).
  destruct (driver_reference_discipline Sample.store) as (_ & H).
  destruct (H reachable_Sample_store) as (H1 & H2 & _).
  split; [|split].
  - apply (H0 one_assignment_no_direct_assign "o1"
             (Order.mk "o1" "Bob" Sample.depot Sample.origin
                OrderAssigned "d1" 12 20)).
    + vm_compute. reflexivity.
    + unfold assigned_or_later. apply elem_of_cons. by left.
  - exact H1.
  - apply (H2 (OpAssignOrderToDriver 20 21 "o1" "d1")
              (default Sample.store
                 (run (OpAssignOrderToDriver 20 21 "o1" "d1") Sample.store))
              "o1"
              (Order.mk "o1" "Bob" Sample.depot Sample.origin
                 OrderPending "" 12 12)
              (Order.mk "o1" "Bob" Sample.depot Sample.origin
                 OrderAssigned "d1" 12 20));
      [ vm_compute; reflexivity | vm_compute; reflexivity
      | vm_compute; reflexivity | vm_compute; discriminate ].
Defined.

(** The invariant as the spec words it fails: [SetOrderStatus] alone takes a
    pending order to [assigned], and its driver reference stays empty. And
    the reference is not set once only: an order submitted again under its
    ID loses its reference and can be assigned again. *)
Lemma assigned_has_driver_counterexample :
  reachable (Sample.after Sample.assigned_by_update) /\
  order_at (Sample.after Sample.assigned_by_update) "o1" =
    Some (Order.mk "o1" "Bob" Sample.depot Sample.origin
            OrderAssigned "" 1 2) /\
  ~ (forall s, reachable s -> assigned_has_driver s) /\
  reachable (Sample.after Sample.reassigned) /\
  order_at (Sample.after (take 7 Sample.reassigned)) "o1" =
    Some (Order.mk "o1" "Bob" Sample.depot Sample.origin
            OrderAssigned "d1" 3 4) /\
  order_at (Sample.after (take 9 Sample.reassigned)) "o1" =
    Some (Order.mk "o1" "Bob" Sample.depot Sample.origin
            OrderPending "" 6 6) /\
  order_at (Sample.after Sample.reassigned) "o1" =
    Some (Order.mk "o1" "Bob" Sample.depot Sample.origin
            OrderAssigned "d3" 6 7).
Proof.
  assert (Hr : reachable (Sample.after Sample.assigned_by_update)).
  { apply reachable_after. vm_compute. eauto. }
  assert (Ho : order_at (Sample.after Sample.assigned_by_update) "o1" =
    Some (Order.mk "o1" "Bob" Sample.depot Sample.origin
            OrderAssigned "" 1 2)) by (vm_compute; reflexivity).
  split_and!; [done | done | | | | |].
  - intros Hall. destruct (Hall _ Hr _ _ Ho) as [Hne _].
    + unfold assigned_or_later. simpl. apply elem_of_cons. by left.
    + by apply Hne.
  - apply reachable_after. vm_compute. eauto.
  - vm_compute. reflexivity.
  - vm_compute. reflexivity.
  - vm_compute. reflexivity.
Qed.

(** ** C6: snapshots *)

Section copies.
Context {A : Type}.

(** A map built from the copies of a full iteration over [m] holds, under
    each ID, a pointer to a cell with the content [m]'s pointer led to. *)
Lemma copies_lookup (cells cells' : gmap positive A)
    (m : gmap string positive) (kvs out : list (string * positive))
    (id : string) :
  kvs ≡ₚ map_to_list m ->
  Forall2 (fun kp kq => kq.1 = kp.1 /\ cells' !! kq.2 = cells !! kp.2)
    kvs out ->
  (list_to_map out : gmap string positive) !! id ≫= (fun q => cells' !! q)
    = m !! id ≫= (fun p => cells !! p).
Proof.
  intros Hperm Hcp.
  assert (Hkeys : out.*1 = kvs.*1).
  { clear Hperm. induction Hcp as [|kp kq ? ? [Hk _] _ IH]; [done|].
    rewrite !fmap_cons. by f_equal. }
  assert (Hnd : NoDup out.*1).
  { rewrite Hkeys, Hperm. apply NoDup_fst_map_to_list. }
  destruct (m !! id) as [p|] eqn:Hm; simpl.
  - assert (Hin : (id, p) ∈ kvs).
    { rewrite Hperm. by apply elem_of_map_to_list. }
    apply list_elem_of_lookup in Hin as [i Hi].
    destruct (Forall2_lookup_l _ _ _ _ _ Hcp Hi) as ([k q] & Hq & Hk & Hc).
    simpl in Hk, Hc. subst k.
    assert (Hl : (list_to_map out : gmap string positive) !! id = Some q).
    { apply elem_of_list_to_map; [done|].
      apply list_elem_of_lookup. eauto. }
    by rewrite Hl.
  - assert (Hl : (list_to_map out : gmap string positive) !! id = None).
    { apply not_elem_of_list_to_map. rewrite Hkeys. intros Hin.
      apply list_elem_of_fmap in Hin as ([k p] & -> & Hin). simpl in Hm.
      rewrite Hperm in Hin. apply elem_of_map_to_list in Hin. congruence. }
    by rewrite Hl.
Qed.
End copies.

Lemma range_all_allocated_drivers (s : State) (kd : list (string * ptr)) :
  closed s -> range_of (drivers s) kd ->
  Forall (fun kp => is_Some (dcell s !! kp.2)) kd.
Proof.
  intros [Hc _] Hr. apply Forall_forall. intros [k p] Hin.
  unfold range_of in Hr. rewrite Hr in Hin.
  apply elem_of_map_to_list in Hin. by apply (Hc k).
Qed.

Lemma range_all_allocated_orders (s : State) (ko : list (string * ptr)) :
  closed s -> range_of (orders s) ko ->
  Forall (fun kp => is_Some (ocell s !! kp.2)) ko.
Proof.
  intros [_ Hc] Hr. apply Forall_forall. intros [k p] Hin.
  unfold range_of in Hr. rewrite Hr in Hin.
  apply elem_of_map_to_list in Hin. by apply (Hc k).
Qed.

Lemma filter_kept_all_drivers (s : State) (kvs : list (string * ptr)) :
  Forall (fun kp => is_Some (dcell s !! kp.2)) kvs ->
  filter (kept_driver (fun _ => true) s) kvs = kvs.
Proof.
  induction 1 as [|kp rest [d Hd] _ IH]; [done|].
  rewrite filter_cons_True by (unfold kept_driver; by rewrite Hd).
  by rewrite IH.
Qed.

Lemma filter_kept_all_orders (s : State) (kvs : list (string * ptr)) :
  Forall (fun kp => is_Some (ocell s !! kp.2)) kvs ->
  filter (kept_order (fun _ => true) s) kvs = kvs.
Proof.
  induction 1 as [|kp rest [o Ho] _ IH]; [done|].
  rewrite filter_cons_True by (unfold kept_order; by rewrite Ho).
  by rewrite IH.
Qed.

(** [GetSnapshot] returns, and what it returns shows under every ID exactly
    the record the store holds under that ID, in freshly allocated cells. *)
Lemma GetSnapshot_faithful (now : Z) (kd ko : list (string * ptr)) (s : State) :
  closed s -> range_of (drivers s) kd -> range_of (orders s) ko ->
  exists s' snap,
    StateManager.GetSnapshot now kd ko s = Some (s', snap) /\
    extends s s' /\ StateManager.Timestamp snap = now /\
    (forall id, StateManager.Drivers snap !! id ≫= (fun q => dcell s' !! q)
                = driver_at s id) /\
    (forall id, StateManager.Orders snap !! id ≫= (fun q => ocell s' !! q)
                = order_at s id).
Proof.
  intros Hc Hkd Hko.
  pose proof (range_all_allocated_drivers s kd Hc Hkd) as Had.
  pose proof (range_all_allocated_orders s ko Hc Hko) as Hao.
  destruct (range_drivers_general (fun _ => true) kd s s)
    as (s1 & outd & Hr1 & Hext1 & Hoc1 & Hcp1 & _); [done | done |].
  rewrite filter_kept_all_drivers in Hcp1 by done.
  rewrite <- Hoc1 in Hao.
  destruct (range_orders_general (fun _ => true) ko s1 s1)
    as (s2 & outo & Hr2 & Hext2 & Hdc2 & Hcp2 & _); [done | done |].
  rewrite filter_kept_all_orders in Hcp2 by done.
  exists s2, (StateManager.mkSnapshot (list_to_map outd) (list_to_map outo) now).
  unfold StateManager.GetSnapshot. rewrite Hr1, Hr2.
  split_and!; try done.
  - by eapply extends_trans.
  - intros id. simpl. rewrite Hdc2. unfold driver_at.
    apply (copies_lookup (dcell s) (dcell s1) (drivers s) kd outd id);
      [done|].
    eapply Forall2_impl; [exact Hcp1|]. by intros kp kq (? & _ & ?).
  - intros id. simpl. unfold order_at. rewrite <- Hoc1.
    destruct Hext1 as (_ & Hom & _). rewrite <- Hom.
    apply (copies_lookup (ocell s1) (ocell s2) (orders s1) ko outo id);
      [by rewrite Hom|].
    eapply Forall2_impl; [exact Hcp2|]. by intros kp kq (? & _ & ?).
Qed.

Lemma stored_status_cases (st : DriverStatus) :
  stored_status st = DriverAvailable -> st = "" \/ st = DriverAvailable.
Proof. unfold stored_status. case_decide; auto. Qed.

(** Rewrites a record read in the new state into a read in the old one. *)
Ltac old_order H :=
  match type of H with
  | order_at _ ?k = _ =>
      first [ match goal with Hs : order_same _ _ |- _ => rewrite (Hs k) in H end
            | match goal with Hp : order_put _ _ _ _ |- _ => rewrite (Hp k) in H end ]
  end.
Ltac old_driver H :=
  match type of H with
  | driver_at _ ?k = _ =>
      first [ match goal with Hs : driver_same _ _ |- _ => rewrite (Hs k) in H end
            | match goal with Hp : driver_put _ _ _ _ |- _ => rewrite (Hp k) in H end ]
  end.

Lemma no_anomaly_step (o : op) (s s' : State) :
  wf s -> refs_ok s -> no_release s o -> effect s s' o ->
  ~ assigned_to_available s -> ~ assigned_to_available s'.
Proof.
  intros Hwf Hok Hguard Heff Hno (oid & rec & d & Hrec & Hst & Hd & Hav).
  destruct Heff
    as [ o Hds Hos
       | now p d0 Hcell Hid Hname Hvalid Hdp Hos
       | now id st d0 Hd0 Hvalid Hdp Hos
       | now p o0 Hcell Hid Hcust Hop Hds
       | now id st o0 Ho0 Hcan Hop Hds
       | now1 now2 oid0 did0 o0 d0 Ho0 Hd0 Hpend Havail Hop Hdp ];
    simpl in Hguard; old_order Hrec; old_driver Hd;
    repeat case_decide; simplify_eq/=;
    try (apply Hno; by exists oid, rec, d).
  - apply stored_status_cases in Hav.
    apply (Hguard d0 Hcell Hav). by exists oid, rec.
  - apply (Hguard eq_refl). by exists oid, rec.
  - apply CanTransition_to_assigned in Hcan.
    destruct (Hok _ _ Ho0) as [Hempty _]. rewrite (Hempty Hcan) in Hd.
    by apply (driver_at_nonempty s "" Hwf); [eauto|].
Qed.

Lemma no_anomaly_reachable (s : State) :
  reachable_by no_release s -> ~ assigned_to_available s.
Proof.
  induction 1 as [|s o s' Hs IH Hguard Hrun].
  - intros (oid & rec & d & Hrec & _). unfold order_at in Hrec. simpl in Hrec.
    by rewrite lookup_empty in Hrec.
  - pose proof (reachable_by_weaken _ _ Hs) as Hr.
    destruct (run_effect o s s' (reachable_wf s Hr) Hrun) as [_ Heff].
    eapply no_anomaly_step; eauto using reachable_wf, reachable_refs_ok.
Qed.

(** C6, as the code has it. From the empty store, as long as no
    [UpsertDriver] or [SetDriverStatus] call makes [available] a driver that
    an assigned order refers to, every snapshot is free of the anomaly:
    [Snapshot] returns, and no order it shows as assigned refers to a
    driver it shows as available. In particular [AssignOrderToDriver] never
    exposes the order assigned with the driver still available. *)
Theorem snapshot_consistency
    (now : Z) (kd ko : list (string * ptr)) (s : State) :
  reachable_by no_release s ->
  range_of (drivers s) kd -> range_of (orders s) ko ->
  exists s' snap,
    StateManager.GetSnapshot now kd ko s = Some (s', snap) /\
    ~ snapshot_anomaly s' snap.
Proof.
  intros Hs Hkd Hko.
  pose proof (reachable_wf s (reachable_by_weaken _ _ Hs)) as Hwf.
  destruct (GetSnapshot_faithful now kd ko s (closed_of_wf s Hwf) Hkd Hko)
    as (s' & snap & Hsnap & _ & _ & Hdv & Hov).
  exists s', snap. split; [done|].
  intros (oid & po & o & pd & d & Hpo & Ho & Hst & Hpd & Hd & Hav).
  apply (no_anomaly_reachable s Hs). exists oid, o, d. split_and!; try done.
  - by rewrite <- Hov, Hpo.
  - by rewrite <- Hdv, Hpd.
Qed.

Lemma one_assignment_no_release :
  reachable_by no_release (Sample.after Sample.one_assignment).
Proof.
  apply reachable_by_after. simpl. split_and!; try done.
  intros d _ _ (oid & o & Ho & _). unfold order_at in Ho. simpl in Ho.
  by rewrite lookup_empty in Ho.
Qed.

Lemma snapshot_consistency_witness :
  exists s' snap,
    StateManager.GetSnapshot 30
      (map_to_list (drivers (Sample.after Sample.one_assignment)))
      (map_to_list (orders (Sample.after Sample.one_assignment)))
      (Sample.after Sample.one_assignment) = Some (s', snap) /\
    ~ snapshot_anomaly s' snap.
Proof.
  apply (snapshot_consistency 30 _ _ (Sample.after Sample.one_assignment)
           one_assignment_no_release); unfold range_of; reflexivity.
Defined.

(** The property as the spec words it fails: after an assignment a plain
    status update makes the driver available again, and the next snapshot
    shows the order assigned to an available driver. *)
Lemma snapshot_anomaly_counterexample :
  let s := Sample.after Sample.released_after_assignment in
  reachable s /\
  exists s' snap,
    StateManager.GetSnapshot 6 (map_to_list (drivers s))
      (map_to_list (orders s)) s = Some (s', snap) /\
    snapshot_anomaly s' snap.
Proof.
  split.
  - apply reachable_after. vm_compute. eauto.
  - eexists _, _. split; [vm_compute; reflexivity|].
    exists "o1", 2%positive,
      (Order.mk "o1" "Bob" Sample.depot Sample.origin OrderAssigned "d1" 2 3),
      2%positive,
      (Driver.mk "d1" "Alice" DriverAvailable Sample.depot 5).
    split_and!; vm_compute; reflexivity.
Qed.

(** ** C4: busy drivers *)

Lemma stored_status_busy (st : DriverStatus) :
  stored_status st = DriverBusy -> st = DriverBusy.
Proof. unfold stored_status. case_decide; [discriminate|done]. Qed.

Lemma busy_has_order_step (o : op) (s s' : State) :
  wf s -> busy_by_assignment_only s o -> effect s s' o ->
  busy_has_order s -> busy_has_order s'.
Proof.
  intros Hwf Hguard Heff Hinv did d Hd Hbusy.
  destruct Heff
    as [ o Hds Hos
       | now p d0 Hcell Hid Hname Hvalid Hdp Hos
       | now id st d0 Hd0 Hvalid Hdp Hos
       | now p o0 Hcell Hid Hcust Hop Hds
       | now id st o0 Ho0 Hcan Hop Hds
       | now1 now2 oid0 did0 o0 d0 Ho0 Hd0 Hpend Havail Hop Hdp ];
    simpl in Hguard; old_driver Hd.
  - destruct (Hinv did d Hd Hbusy) as (oid & rec & Hrec & Href & Hst).
    exists oid, rec. by rewrite (Hos oid).
  - case_decide as Hk.
    + injection Hd as <-. simpl in Hbusy. apply stored_status_busy in Hbusy.
      by destruct (Hguard d0 Hcell).
    + destruct (Hinv did d Hd Hbusy) as (oid & rec & Hrec & Href & Hst).
      exists oid, rec. by rewrite (Hos oid).
  - case_decide as Hk.
    + injection Hd as <-. simpl in Hbusy. done.
    + destruct (Hinv did d Hd Hbusy) as (oid & rec & Hrec & Href & Hst).
      exists oid, rec. by rewrite (Hos oid).
  - destruct (Hinv did d Hd Hbusy) as (oid & rec & Hrec & Href & Hst).
    exists oid, rec. rewrite (Hop oid). case_decide as Hk; [|done].
    subst oid. specialize (Hguard o0 Hcell). unfold order_at in Hrec.
    by rewrite Hguard in Hrec.
  - destruct (Hinv did d Hd Hbusy) as (oid & rec & Hrec & Href & Hst).
    destruct (decide (oid = id)) as [->|Hk].
    + eexists id, _. rewrite (Hop id), decide_True by done.
      split; [reflexivity|]. simpl. assert (rec = o0) by congruence. subst rec.
      split; [done|]. intros ->.
      by rewrite CanTransition_not_to_pending in Hcan.
    + exists oid, rec. by rewrite (Hop oid), decide_False.
  - case_decide as Hk.
    + subst did. eexists oid0, _. rewrite (Hop oid0), decide_True by done.
      split; [reflexivity|]. simpl. split; [done|discriminate].
    + destruct (Hinv did d Hd Hbusy) as (oid & rec & Hrec & Href & Hst).
      exists oid, rec. rewrite (Hop oid). case_decide as Hk'; [|done].
      subst oid. assert (rec = o0) by congruence. by subst rec.
Qed.

(** C4, as the code has it. A driver can be registered or set [busy]
    directly, and nothing releases a driver when its order is delivered or
    canceled, so [busy] does not imply an active order. What the store
    guarantees: from the empty store, as long as no [UpsertDriver] or
    [SetDriverStatus] call sets [busy] and no order ID is submitted twice,
    every busy driver is the driver reference of at least one order that
    has left [pending] (an order that may be terminal). *)
Theorem busy_driver_has_order (s : State) :
  reachable_by busy_by_assignment_only s -> busy_has_order s.
Proof.
  induction 1 as [|s o s' Hs IH Hguard Hrun].
  - intros did d Hd. unfold driver_at in Hd. simpl in Hd.
    by rewrite lookup_empty in Hd.
  - pose proof (reachable_wf s (reachable_by_weaken _ _ Hs)) as Hwf.
    destruct (run_effect o s s' Hwf Hrun) as [_ Heff].
    by eapply busy_has_order_step.
Qed.

Lemma one_assignment_busy_by_assignment_only :
  reachable_by busy_by_assignment_only (Sample.after Sample.one_assignment).
Proof.
  apply reachable_by_after. simpl. split_and!; try done.
  intros d. vm_compute. intros [= <-]. discriminate.
Qed.

Lemma busy_driver_has_order_witness :
  exists oid o,
    order_at (Sample.after Sample.one_assignment) oid = Some o /\
    Order.DriverID o = "d1" /\ Order.Status o <> OrderPending.
Proof.
  apply (busy_driver_has_order (Sample.after Sample.one_assignment)
           one_assignment_busy_by_assignment_only "d1"
           (Driver.mk "d1" "Alice" DriverBusy Sample.depot 21));
    vm_compute; reflexivity.
Defined.

(** The invariant as the spec words it fails: a driver registered as [busy] in
    a store without orders is the assignee of no order at all. *)
Lemma busy_has_active_order_counterexample :
  reachable (Sample.after Sample.registered_busy) /\
  driver_at (Sample.after Sample.registered_busy) "d2" =
    Some (Driver.mk "d2" "Carol" DriverBusy Sample.origin 1) /\
  orders (Sample.after Sample.registered_busy) = ∅ /\
  ~ busy_has_active_order (Sample.after Sample.registered_busy).
Proof.
  assert (Hd : driver_at (Sample.after Sample.registered_busy) "d2" =
    Some (Driver.mk "d2" "Carol" DriverBusy Sample.origin 1))
    by (vm_compute; reflexivity).
  split_and!; [ | done | vm_compute; reflexivity | ].
  - apply reachable_after. vm_compute. eauto.
  - intros Hall. destruct (Hall _ _ Hd eq_refl) as (oid & o & Ho & _).
    unfold order_at in Ho.
    replace (orders (Sample.after Sample.registered_busy))
      with (∅ : gmap string positive) in Ho by (vm_compute; reflexivity).
    by rewrite lookup_empty in Ho.
Qed.

(** ** C5: the matching loop *)

Lemma pairs_spec_cons (o d : string) (os ds : list string) :
  pairs_spec (o :: os) (d :: ds) = (o, d) :: pairs_spec os ds.
Proof.
  unfold pairs_spec. simpl. f_equal.
  generalize (Nat.min (length os) (length ds)). intros n.
  generalize 0%nat. induction n as [|n IH]; intros k; [done|].
  simpl. by rewrite IH.
Qed.

(** The spec's index-by-index pairing is the zip of the two lists. *)
Lemma pairs_spec_zip (os ds : list string) : pairs_spec os ds = zip os ds.
Proof.
  revert ds. induction os as [|o os IH]; intros [|d ds]; try done.
  by rewrite pairs_spec_cons, IH.
Qed.

Lemma AssignOrderToDriver_total (now1 now2 : Z) (oid did : string) (s : State) :
  closed s ->
  is_Some (StateManager.AssignOrderToDriver now1 now2 oid did s).
Proof.
  intros [Hcd Hco]. unfold StateManager.AssignOrderToDriver.
  destruct (orders s !! oid) as [po|] eqn:Hpo; [|eauto].
  destruct (drivers s !! did) as [pd|] eqn:Hpd; [|eauto].
  destruct (Hco _ _ Hpo) as [o ->]. destruct (Hcd _ _ Hpd) as [d ->].
  destruct (negb _); [eauto|]. destruct (negb _); eauto.
Qed.

(** An assignment moves no pointer and changes no cell's ID. *)
Lemma AssignOrderToDriver_keeps_IDs (now1 now2 : Z) (oid did : string)
    (s s' : State) (r : option error) :
  StateManager.AssignOrderToDriver now1 now2 oid did s = Some (s', r) ->
  drivers s' = drivers s /\ orders s' = orders s /\
  (forall p id, order_cell_ID s p id -> order_cell_ID s' p id) /\
  (forall p id, driver_cell_ID s p id -> driver_cell_ID s' p id).
Proof.
  unfold StateManager.AssignOrderToDriver, order_cell_ID, driver_cell_ID.
  destruct (orders s !! oid) as [po|]; [|by intros [= <- _]].
  destruct (drivers s !! did) as [pd|]; [|by intros [= <- _]].
  destruct (ocell s !! po) as [o|] eqn:Ho; [|done].
  destruct (negb _); [by intros [= <- _]|].
  destruct (dcell s !! pd) as [d|] eqn:Hd; [|done].
  destruct (negb _); [by intros [= <- _]|].
  intros [= <- _]. simpl. split_and!; try done.
  - intros p id. destruct (decide (p = po)) as [->|Hne].
    + rewrite lookup_insert_eq, Ho. done.
    + by rewrite lookup_insert_ne.
  - intros p id. destruct (decide (p = pd)) as [->|Hne].
    + rewrite lookup_insert_eq, Hd. done.
    + by rewrite lookup_insert_ne.
Qed.

Lemma AssignOrderToDriver_closed (now1 now2 : Z) (oid did : string)
    (s s' : State) (r : option error) :
  StateManager.AssignOrderToDriver now1 now2 oid did s = Some (s', r) ->
  closed s -> closed s'.
Proof.
  intros Hrun [Hcd Hco].
  destruct (AssignOrderToDriver_keeps_IDs _ _ _ _ _ _ _ Hrun)
    as (Hd & Ho & Hoid & Hdid).
  split; intros id p; [rewrite Hd | rewrite Ho]; intros Hp.
  - destruct (Hcd _ _ Hp) as [d Hc].
    specialize (Hdid p (Driver.ID d)). unfold driver_cell_ID in Hdid.
    rewrite Hc in Hdid. specialize (Hdid eq_refl).
    destruct (dcell s' !! p); [eauto|done].
  - destruct (Hco _ _ Hp) as [o Hc].
    specialize (Hoid p (Order.ID o)). unfold order_cell_ID in Hoid.
    rewrite Hc in Hoid. specialize (Hoid eq_refl).
    destruct (ocell s' !! p); [eauto|done].
Qed.

Arguments StateManager.AssignOrderToDriver : simpl never.

(** The loop of [MatchOrders], started at index [i] with [rest] still to
    visit, makes one attempt per remaining pair and counts the successes. *)
Lemma loop_attempt_each (clock : nat -> Z * Z)
    (avail : list ptr) (dids : list string) (rest : list ptr) :
  forall (rids : list string) (i matched : nat) (s : State),
  closed s ->
  Forall2 (order_cell_ID s) rest rids ->
  Forall2 (driver_cell_ID s) avail dids ->
  exists s' lg,
    attempt_each clock i (zip rids (drop i dids)) s = Some (s', lg) /\
    Matcher.loop clock i rest avail matched s
      = Some (s', (matched + matched_count lg)%nat, lg).
Proof.
  induction rest as [|order rest IH]; intros rids i matched s Hc Hord Hdrv.
  - apply Forall2_nil_inv_l in Hord as ->. simpl. exists s, [].
    by rewrite Nat.add_0_r.
  - apply Forall2_cons_inv_l in Hord as (oid & rids' & Hoid & Hord & ->).
    pose proof (Forall2_length _ _ _ Hdrv) as Hlen.
    simpl. case_bool_decide as Hi.
    + rewrite drop_ge by lia. simpl. exists s, [].
      by rewrite Nat.add_0_r.
    + destruct (lookup_lt_is_Some_2 avail i ltac:(lia)) as [driver Hdr].
      destruct (Forall2_lookup_l _ _ _ _ _ Hdrv Hdr) as (did & Hdid & Hcell).
      rewrite Hdr. rewrite (drop_S _ _ _ Hdid). simpl.
      unfold order_cell_ID in Hoid. unfold driver_cell_ID in Hcell.
      destruct (ocell s !! order) as [o|] eqn:Ho; [|done].
      destruct (dcell s !! driver) as [d|] eqn:Hd; [|done].
      simpl in Hoid, Hcell. injection Hoid as ->. injection Hcell as ->.
      destruct (AssignOrderToDriver_total (clock i).1 (clock i).2
                  oid did s Hc) as [[s1 r] Hrun].
      rewrite Hrun.
      destruct (AssignOrderToDriver_keeps_IDs _ _ _ _ _ _ _ Hrun)
        as (_ & _ & Hkeepo & Hkeepd).
      destruct (IH rids' (S i)
                  (match r with Some _ => matched | None => S matched end) s1)
        as (s' & lg & Hspec & Hloop).
      * by eapply AssignOrderToDriver_closed.
      * eapply Forall2_impl; [exact Hord|]. intros p id. apply Hkeepo.
      * eapply Forall2_impl; [exact Hdrv|]. intros p id. apply Hkeepd.
      * rewrite Hspec. destruct r as [err|]; rewrite Hloop; simpl.
        -- by exists s', (Matcher.FailedToAssign oid did err :: lg).
        -- exists s', (Matcher.Matched oid did :: lg).
           split; [done|]. do 3 f_equal. simpl. lia.
Qed.

Lemma attempt_each_attempts (clock : nat -> Z * Z)
    (pairs : list (string * string)) :
  forall (i : nat) (s s' : State) (lg : list Matcher.log_line),
  attempt_each clock i pairs s = Some (s', lg) ->
  Matcher.attempts lg = pairs /\ length lg = length pairs.
Proof.
  induction pairs as [|[o d] pairs IH]; intros i s s' lg; simpl.
  - by intros [= <- <-].
  - destruct (StateManager.AssignOrderToDriver _ _ o d s) as [[s1 r]|];
      [|done].
    destruct (attempt_each clock (S i) pairs s1) as [[s2 lg2]|] eqn:Hrest;
      [|done].
    intros [= <- <-]. destruct (IH _ _ _ _ Hrest) as [Ha Hl].
    unfold Matcher.attempts in *.
    split; [destruct r; simpl; by f_equal | simpl; by f_equal].
Qed.

Lemma attempts_app (l1 l2 : list Matcher.log_line) :
  Matcher.attempts (l1 ++ l2) = (Matcher.attempts l1 ++ Matcher.attempts l2)%list.
Proof. apply omap_app. Qed.

(** The body of a tick on the lists it read: one attempt per pair of the
    zip, and the log built from the attempts. *)
Lemma match_lists_attempt_each (clock : nat -> Z * Z) (pend avail : list ptr)
    (s : State) (oids dids : list string) :
  closed s ->
  Forall2 (order_cell_ID s) pend oids ->
  Forall2 (driver_cell_ID s) avail dids ->
  exists s' lg0,
    attempt_each clock 0 (pairs_spec oids dids) s = Some (s', lg0) /\
    Matcher.match_lists clock pend avail s
      = Some (s', tick_log (length pend) (length avail) lg0).
Proof.
  intros Hc Ho Hd. rewrite pairs_spec_zip.
  unfold Matcher.match_lists, tick_log.
  pose proof (Forall2_length _ _ _ Ho) as Hlo.
  pose proof (Forall2_length _ _ _ Hd) as Hld.
  case_bool_decide as Hp.
  { destruct oids; [|simpl in *; lia]. by exists s, []. }
  case_bool_decide as Ha.
  { destruct dids; [|simpl in *; lia]. exists s, [].
    split; [|done]. by destruct oids. }
  destruct (loop_attempt_each clock avail dids pend oids 0 0 s Hc Ho Hd)
    as (s' & lg & Hspec & Hloop).
  rewrite drop_0 in Hspec. rewrite Hloop. simpl. by exists s', lg.
Qed.

(** ** The reads of a tick *)

Lemma NoDup_filter_fst {B : Type} (P : string * B -> Prop)
    `{!forall x, Decision (P x)} (l : list (string * B)) :
  NoDup l.*1 -> NoDup (filter P l).*1.
Proof.
  induction l as [|[k v] l IH]; [done|]. rewrite fmap_cons.
  intros [Hk Hnd]%NoDup_cons. rewrite filter_cons.
  destruct (decide (P (k, v))); [|by apply IH].
  rewrite fmap_cons. apply NoDup_cons. split; [|by apply IH].
  intros Hin. apply Hk.
  apply list_elem_of_fmap in Hin as ([k' v'] & -> & Hin).
  apply list_elem_of_filter in Hin as [_ Hin].
  apply list_elem_of_fmap. by exists (k', v').
Qed.

Lemma range_of_NoDup (m : gmap string positive) (kvs : list (string * ptr)) :
  range_of m kvs -> NoDup kvs.*1.
Proof. intros Hr. unfold range_of in Hr. rewrite Hr. apply NoDup_fst_map_to_list. Qed.

Lemma range_of_elem (m : gmap string positive) (kvs : list (string * ptr))
    (k : string) (p : ptr) :
  range_of m kvs -> (k, p) ∈ kvs <-> m !! k = Some p.
Proof. intros Hr. unfold range_of in Hr. rewrite Hr. apply elem_of_map_to_list. Qed.

(** The pending IDs a read meets are exactly the IDs under which the store
    holds a pending order, each once. *)
Lemma pending_IDs_spec (s : State) (ko : list (string * ptr)) :
  range_of (orders s) ko ->
  NoDup (pending_IDs s ko) /\
  forall id, id ∈ pending_IDs s ko <->
    exists o, order_at s id = Some o /\ Order.Status o = OrderPending.
Proof.
  intros Hr. unfold pending_IDs. split.
  - apply NoDup_filter_fst. by eapply range_of_NoDup.
  - intros id. rewrite list_elem_of_fmap. split.
    + intros ([k p] & -> & Hin). apply list_elem_of_filter in Hin as [Hk Hin].
      apply (range_of_elem _ _ _ _ Hr) in Hin. unfold kept_order in Hk.
      simpl in *. unfold order_at. rewrite Hin. simpl.
      destruct (ocell s !! p) as [o|]; [|done]. simpl in Hk.
      exists o. split; [done|]. by apply bool_decide_eq_true in Hk.
    + intros (o & Ho & Hst). unfold order_at in Ho.
      destruct (orders s !! id) as [p|] eqn:Hp; [|done]. simpl in Ho.
      exists (id, p). split; [done|]. apply list_elem_of_filter. split.
      * unfold kept_order. simpl. rewrite Ho. simpl.
        by apply bool_decide_eq_true.
      * by apply (range_of_elem _ _ _ _ Hr).
Qed.

Lemma available_IDs_spec (s : State) (kd : list (string * ptr)) :
  range_of (drivers s) kd ->
  NoDup (available_IDs s kd) /\
  forall id, id ∈ available_IDs s kd <->
    exists d, driver_at s id = Some d /\ Driver.Status d = DriverAvailable.
Proof.
  intros Hr. unfold available_IDs. split.
  - apply NoDup_filter_fst. by eapply range_of_NoDup.
  - intros id. rewrite list_elem_of_fmap. split.
    + intros ([k p] & -> & Hin). apply list_elem_of_filter in Hin as [Hk Hin].
      apply (range_of_elem _ _ _ _ Hr) in Hin. unfold kept_driver in Hk.
      simpl in *. unfold driver_at. rewrite Hin. simpl.
      destruct (dcell s !! p) as [d|]; [|done]. simpl in Hk.
      exists d. split; [done|]. by apply bool_decide_eq_true in Hk.
    + intros (d & Hd & Hst). unfold driver_at in Hd.
      destruct (drivers s !! id) as [p|] eqn:Hp; [|done]. simpl in Hd.
      exists (id, p). split; [done|]. apply list_elem_of_filter. split.
      * unfold kept_driver. simpl. rewrite Hd. simpl.
        by apply bool_decide_eq_true.
      * by apply (range_of_elem _ _ _ _ Hr).
Qed.

(** [GetPendingOrders] returns copies of the pending orders, in iteration
    order, and touches nothing the store holds. *)
Lemma GetPendingOrders_spec (ko : list (string * ptr)) (s : State) :
  wf s -> range_of (orders s) ko ->
  exists s1 pend,
    StateManager.GetPendingOrders ko s = Some (s1, pend) /\
    extends s s1 /\ dcell s1 = dcell s /\
    Forall2 (order_cell_ID s1) pend (pending_IDs s ko).
Proof.
  intros Hwf Hr.
  pose proof (range_all_allocated_orders s ko (closed_of_wf s Hwf) Hr) as Hall.
  destruct (range_orders_general
              (fun o => bool_decide (Order.Status o = OrderPending)) ko s s)
    as (s1 & out & Hrun & Hext & Hdc & Hcp & _); [done | done |].
  exists s1, out.*2. unfold StateManager.GetPendingOrders. rewrite Hrun.
  split_and!; try done. unfold pending_IDs.
  apply Forall2_fmap. apply Forall2_flip.
  eapply Forall2_same_length_lookup_2; [by eapply Forall2_length|].
  intros i [k p] [k' q] Hi Hj.
  destruct (Forall2_lookup_lr _ _ _ _ _ _ Hcp Hi Hj) as (Hk & _ & Hcell).
  simpl in *. subst k'.
  assert (Hin : (k, p) ∈ ko).
  { apply list_elem_of_lookup_2 in Hi.
    by apply list_elem_of_filter in Hi as [_ Hi]. }
  apply (range_of_elem _ _ _ _ Hr) in Hin.
  destruct (wf_orders s Hwf k p Hin) as (o & Ho & Hid).
  unfold order_cell_ID. by rewrite Hcell, Ho, <- Hid.
Qed.

Lemma GetAvailableDrivers_spec (kd : list (string * ptr)) (s : State) :
  wf s -> range_of (drivers s) kd ->
  exists s1 avail,
    StateManager.GetAvailableDrivers kd s = Some (s1, avail) /\
    extends s s1 /\ ocell s1 = ocell s /\
    Forall2 (driver_cell_ID s1) avail (available_IDs s kd).
Proof.
  intros Hwf Hr.
  pose proof (range_all_allocated_drivers s kd (closed_of_wf s Hwf) Hr) as Hall.
  destruct (range_drivers_general
              (fun d => bool_decide (Driver.Status d = DriverAvailable)) kd s s)
    as (s1 & out & Hrun & Hext & Hoc & Hcp & _); [done | done |].
  exists s1, out.*2. unfold StateManager.GetAvailableDrivers. rewrite Hrun.
  split_and!; try done. unfold available_IDs.
  apply Forall2_fmap. apply Forall2_flip.
  eapply Forall2_same_length_lookup_2; [by eapply Forall2_length|].
  intros i [k p] [k' q] Hi Hj.
  destruct (Forall2_lookup_lr _ _ _ _ _ _ Hcp Hi Hj) as (Hk & _ & Hcell).
  simpl in *. subst k'.
  assert (Hin : (k, p) ∈ kd).
  { apply list_elem_of_lookup_2 in Hi.
    by apply list_elem_of_filter in Hi as [_ Hi]. }
  apply (range_of_elem _ _ _ _ Hr) in Hin.
  destruct (wf_drivers s Hwf k p Hin) as (d & Hd & Hid).
  unfold driver_cell_ID. by rewrite Hcell, Hd, <- Hid.
Qed.

(** A whole tick: the two reads allocate copies and change nothing the
    store holds; the pairing then runs on the IDs the reads met. *)
Lemma MatchOrders_tick (clock : nat -> Z * Z) (ko kd : list (string * ptr))
    (s : State) :
  wf s -> range_of (orders s) ko -> range_of (drivers s) kd ->
  exists s2 s' lg0,
    extends s s2 /\ wf s2 /\
    attempt_each clock 0
      (pairs_spec (pending_IDs s ko) (available_IDs s kd)) s2
      = Some (s', lg0) /\
    Matcher.MatchOrders clock ko kd s
      = Some (s', tick_log (length (pending_IDs s ko))
                    (length (available_IDs s kd)) lg0).
Proof.
  intros Hwf Hko Hkd.
  destruct (GetPendingOrders_spec ko s Hwf Hko)
    as (s1 & pend & Hr1 & Hext1 & Hdc1 & Hpend).
  pose proof (extends_wf s s1 Hwf Hext1) as Hwf1.
  assert (Hkd1 : range_of (drivers s1) kd).
  { destruct Hext1 as (-> & _). done. }
  destruct (GetAvailableDrivers_spec kd s1 Hwf1 Hkd1)
    as (s2 & avail & Hr2 & Hext2 & Hoc2 & Havail).
  pose proof (extends_wf s1 s2 Hwf1 Hext2) as Hwf2.
  assert (Hav : available_IDs s1 kd = available_IDs s kd).
  { unfold available_IDs. f_equal. apply list_filter_iff.
    intros kp. unfold kept_driver. by rewrite Hdc1. }
  rewrite Hav in Havail.
  assert (Hpend2 : Forall2 (order_cell_ID s2) pend (pending_IDs s ko)).
  { eapply Forall2_impl; [exact Hpend|]. intros p id.
    unfold order_cell_ID. by rewrite Hoc2. }
  destruct (match_lists_attempt_each clock pend avail s2
              (pending_IDs s ko) (available_IDs s kd)
              (closed_of_wf s2 Hwf2) Hpend2 Havail)
    as (s' & lg0 & Hspec & Hml).
  exists s2, s', lg0. split_and!; try done.
  - by eapply extends_trans.
  - unfold Matcher.MatchOrders. rewrite Hr1, Hr2, Hml.
    by rewrite (Forall2_length _ _ _ Hpend2), (Forall2_length _ _ _ Havail).
Qed.

Lemma two_element_list (l : list string) (a b : string) :
  NoDup l -> a <> b -> (forall x, x ∈ l <-> x = a \/ x = b) ->
  l = [a; b] \/ l = [b; a].
Proof.
  intros Hnd Hab Hin.
  assert (Hp : [a; b] ≡ₚ l).
  { apply NoDup_Permutation; [|done|].
    - apply NoDup_cons. split; [|apply NoDup_singleton].
      by intros ->%list_elem_of_singleton.
    - intros x. rewrite Hin, elem_of_cons, list_elem_of_singleton. done. }
  by apply Permutation_length_2_inv in Hp.
Qed.

Lemma one_element_list (l : list string) (a : string) :
  NoDup l -> (forall x, x ∈ l <-> x = a) -> l = [a].
Proof.
  intros Hnd Hin. apply Permutation_singleton_r.
  apply NoDup_Permutation; [done | apply NoDup_singleton |].
  intros x. by rewrite Hin, list_elem_of_singleton.
Qed.

(** The loop of a tick, on whatever two lists were read and whatever state
    the store is in by then: it attempts exactly the pairs (i-th pending
    order, i-th available driver) for i below the size of the smaller
    list, in that order, one attempt per pair whether or not earlier
    attempts failed (the state after the tick is the one [attempt_each]
    reaches, which moves on after a failure); with an empty list it
    attempts nothing and leaves the state as it is. And a tick on a store
    with exactly two pending orders and one available driver assigns the
    order its read met first to that driver and leaves the other order as
    it was. *)
Lemma MatchOrders_loop :
  (forall (clock : nat -> Z * Z) (pend avail : list ptr) (s : State)
          (oids dids : list string),
     closed s ->
     Forall2 (order_cell_ID s) pend oids ->
     Forall2 (driver_cell_ID s) avail dids ->
     exists s' lg lg0,
       Matcher.match_lists clock pend avail s = Some (s', lg) /\
       Matcher.attempts lg = pairs_spec oids dids /\
       attempt_each clock 0 (pairs_spec oids dids) s = Some (s', lg0) /\
       lg = tick_log (length pend) (length avail) lg0 /\
       (pend = [] \/ avail = [] -> s' = s /\ Matcher.attempts lg = [])) /\
  (forall (clock : nat -> Z * Z) (ko kd : list (string * ptr)) (s : State)
          (oa ob did : string) (ra rb : Order.t) (rd : Driver.t),
     wf s -> range_of (orders s) ko -> range_of (drivers s) kd ->
     oa <> ob ->
     order_at s oa = Some ra -> order_at s ob = Some rb ->
     driver_at s did = Some rd ->
     (forall id o, order_at s id = Some o ->
        Order.Status o = OrderPending <-> id = oa \/ id = ob) ->
     (forall id d, driver_at s id = Some d ->
        Driver.Status d = DriverAvailable <-> id = did) ->
     exists s' x y rx,
       Matcher.MatchOrders clock ko kd s
         = Some (s', [Matcher.Matched x did; Matcher.Completed 1]) /\
       (x = oa /\ y = ob \/ x = ob /\ y = oa) /\
       pending_IDs s ko = [x; y] /\
       order_at s x = Some rx /\
       order_at s' x =
         Some (Order.mk (Order.ID rx) (Order.Customer rx) (Order.Pickup rx)
                 (Order.Dropoff rx) OrderAssigned did (Order.CreatedAt rx)
                 (clock 0%nat).1) /\
       order_at s' y = order_at s y /\
       (exists ry, order_at s' y = Some ry /\
                   Order.Status ry = OrderPending) /\
       driver_at s' did =
         Some (Driver.mk (Driver.ID rd) (Driver.Name rd) DriverBusy
                 (Driver.Loc rd) (clock 0%nat).2)).
Proof.
  split.
  - intros clock pend avail s oids dids Hc Ho Hd.
    destruct (match_lists_attempt_each clock pend avail s oids dids Hc Ho Hd)
      as (s' & lg0 & Hspec & Hml).
    destruct (attempt_each_attempts _ _ _ _ _ _ Hspec) as [Hatt _].
    exists s', (tick_log (length pend) (length avail) lg0), lg0.
    assert (Hempty : pend = [] \/ avail = [] -> pairs_spec oids dids = []).
    { rewrite pairs_spec_zip. intros [->| ->].
      - by apply Forall2_nil_inv_l in Ho as ->.
      - apply Forall2_nil_inv_l in Hd as ->. by destruct oids. }
    split_and!; try done.
    + unfold tick_log. repeat case_bool_decide.
      * destruct pend; [|done]. by rewrite Hempty by auto.
      * destruct avail; [|done]. by rewrite Hempty by auto.
      * rewrite attempts_app, Hatt. by rewrite app_nil_r.
      * rewrite attempts_app, Hatt. by rewrite app_nil_r.
    + intros He. specialize (Hempty He). rewrite Hempty in Hspec.
      simpl in Hspec. injection Hspec as <- <-. split; [done|].
      unfold tick_log. by repeat case_bool_decide.
  - intros clock ko kd s oa ob did ra rb rd Hwf Hko Hkd Hab Hra Hrb Hrd
      Hpend Havail.
    destruct (MatchOrders_tick clock ko kd s Hwf Hko Hkd)
      as (s2 & s' & lg0 & Hext & Hwf2 & Hspec & Htick).
    destruct (pending_IDs_spec s ko Hko) as [Hnd Hin].
    destruct (available_IDs_spec s kd Hkd) as [Hndd Hind].
    assert (Hd1 : available_IDs s kd = [did]).
    { apply one_element_list; [done|]. intros id. rewrite Hind. split.
      - intros (d & Hd & Hst). by apply (Havail id d Hd).
      - intros ->. exists rd. split; [done|]. by apply (Havail did rd Hrd). }
    assert (Hp2 : pending_IDs s ko = [oa; ob] \/ pending_IDs s ko = [ob; oa]).
    { apply two_element_list; [done | done |]. intros id. rewrite Hin. split.
      - intros (o & Ho & Hst). by apply (Hpend id o Ho).
      - intros [->| ->]; [exists ra | exists rb]; split; try done.
        + apply (Hpend oa ra Hra). by left.
        + apply (Hpend ob rb Hrb). by right. }
    assert (Hgen : forall x y rx ry,
      pending_IDs s ko = [x; y] -> x <> y ->
      order_at s x = Some rx -> order_at s y = Some ry ->
      Order.Status rx = OrderPending -> Order.Status ry = OrderPending ->
      exists s',
        Matcher.MatchOrders clock ko kd s
          = Some (s', [Matcher.Matched x did; Matcher.Completed 1]) /\
        order_at s' x =
          Some (Order.mk (Order.ID rx) (Order.Customer rx) (Order.Pickup rx)
                  (Order.Dropoff rx) OrderAssigned did (Order.CreatedAt rx)
                  (clock 0%nat).1) /\
        order_at s' y = order_at s y /\
        driver_at s' did =
          Some (Driver.mk (Driver.ID rd) (Driver.Name rd) DriverBusy
                  (Driver.Loc rd) (clock 0%nat).2)).
    { intros x y rx ry Hxy Hne Hrx Hry Hsx Hsy.
      rewrite Hxy, Hd1 in Hspec, Htick. rewrite pairs_spec_zip in Hspec.
      pose proof (extends_order_same s s2 (closed_of_wf s Hwf) Hext) as Hos.
      pose proof (extends_driver_same s s2 (closed_of_wf s Hwf) Hext) as Hds.
      destruct (AssignOrderToDriver_success (clock 0%nat).1 (clock 0%nat).2
                  x did s2 rx rd Hwf2)
        as (s3 & Hrun & _ & Hop & Hdp);
        [ by rewrite (Hos x) | by rewrite (Hds did) | done
        | by apply (Havail did rd Hrd) | ].
      simpl in Hspec. rewrite Hrun in Hspec. injection Hspec as <- <-.
      exists s3. split_and!.
      - exact Htick.
      - by rewrite (Hop x), decide_True.
      - by rewrite (Hop y), decide_False, (Hos y).
      - by rewrite (Hdp did), decide_True. }
    assert (Hsa : Order.Status ra = OrderPending)
      by (apply (Hpend oa ra Hra); by left).
    assert (Hsb : Order.Status rb = OrderPending)
      by (apply (Hpend ob rb Hrb); by right).
    destruct Hp2 as [Hxy|Hxy].
    + destruct (Hgen oa ob ra rb Hxy Hab Hra Hrb Hsa Hsb)
        as (s3 & Hm & Hx & Hy & Hd).
      exists s3, oa, ob, ra. split_and!; try done; [by left|].
      exists rb. by rewrite Hy.
    + destruct (Hgen ob oa rb ra Hxy (not_eq_sym Hab) Hrb Hra Hsb Hsa)
        as (s3 & Hm & Hx & Hy & Hd).
      exists s3, ob, oa, rb. split_and!; try done; [by right|].
      exists ra. by rewrite Hy.
Qed.

Lemma two_pending_orders (id : string) (o : Order.t) :
  order_at (Sample.after Sample.two_pending) id = Some o ->
  (id = "o1" \/ id = "o3") /\ Order.Status o = OrderPending.
Proof.
  unfold order_at.
  replace (orders (Sample.after Sample.two_pending))
    with (<["o1" := 1%positive]> (<["o3" := 2%positive]> ∅)
            : gmap string positive) by (vm_compute; reflexivity).
  rewrite lookup_insert. case_decide as H1; [subst id|].
  { simpl. vm_compute. intros [= <-]. auto. }
  rewrite lookup_insert. case_decide as H3; [subst id|].
  { simpl. vm_compute. intros [= <-]. auto. }
  by rewrite lookup_empty.
Qed.

Lemma two_pending_drivers (id : string) (d : Driver.t) :
  driver_at (Sample.after Sample.two_pending) id = Some d ->
  id = "d1" /\ Driver.Status d = DriverAvailable.
Proof.
  unfold driver_at.
  replace (drivers (Sample.after Sample.two_pending))
    with (<["d1" := 1%positive]> ∅ : gmap string positive)
    by (vm_compute; reflexivity).
  rewrite lookup_insert. case_decide as H1; [subst id|].
  { simpl. vm_compute. intros [= <-]. auto. }
  by rewrite lookup_empty.
Qed.

Example match_lists_skips_and_continues :
  Matcher.match_lists Sample.clock [2%positive; 1%positive]
    [2%positive; 1%positive] Sample.store
  = Some (default Sample.store
            (run (OpAssignOrderToDriver 20 21 "o1" "d1") Sample.store),
          [ Matcher.FailedToAssign "o2" "d2" ErrOrderAlreadyAssigned;
            Matcher.Matched "o1" "d1"; Matcher.Completed 1 ]).
Proof. vm_compute. reflexivity. Qed.

(** ** C9: copies and aliases *)

(** What the read paths do: [GetDriver] hands out a cell that did not exist
    before, that no ID of the store leads to, and that holds the record. *)
Lemma GetDriver_returns_copy (id : string) (s : State) (d : Driver.t) :
  closed s -> driver_at s id = Some d ->
  exists s' q,
    StateManager.GetDriver id s = Some (s', inl q) /\
    dcell s !! q = None /\ dcell s' !! q = Some d /\ extends s s' /\
    (forall k, drivers s' !! k <> Some q).
Proof.
  intros [Hc _] Hd. unfold driver_at in Hd. unfold StateManager.GetDriver.
  destruct (drivers s !! id) as [p|] eqn:Hp; [|done]. simpl in Hd.
  rewrite Hd. simpl. eexists _, _. split; [reflexivity|].
  split_and!.
  - apply fresh_dcell.
  - simpl. apply lookup_insert_eq.
  - apply (new_Driver_extends d).
  - simpl. intros k Hk. destruct (Hc k _ Hk) as [d' Hd'].
    by rewrite fresh_dcell in Hd'.
Qed.

Lemma GetOrder_returns_copy (id : string) (s : State) (o : Order.t) :
  closed s -> order_at s id = Some o ->
  exists s' q,
    StateManager.GetOrder id s = Some (s', inl q) /\
    ocell s !! q = None /\ ocell s' !! q = Some o /\ extends s s' /\
    (forall k, orders s' !! k <> Some q).
Proof.
  intros [_ Hc] Ho. unfold order_at in Ho. unfold StateManager.GetOrder.
  destruct (orders s !! id) as [p|] eqn:Hp; [|done]. simpl in Ho.
  rewrite Ho. simpl. eexists _, _. split; [reflexivity|].
  split_and!.
  - apply fresh_ocell.
  - simpl. apply lookup_insert_eq.
  - apply (new_Order_extends o).
  - simpl. intros k Hk. destruct (Hc k _ Hk) as [o' Ho'].
    by rewrite fresh_ocell in Ho'.
Qed.

(** A write through a pointer that no ID of the store leads to (a returned
    copy) changes nothing the store holds. *)
Lemma write_to_copy_is_private (q : ptr) (d' : Driver.t) (s s' : State) :
  (forall k, drivers s !! k <> Some q) ->
  write_Driver q d' s = Some s' ->
  driver_same s s' /\ order_same s s'.
Proof.
  intros Hq. unfold write_Driver. destruct (dcell s !! q); [|done].
  intros [= <-]. split; intros k; [|done].
  unfold driver_at. simpl. destruct (drivers s !! k) as [p|] eqn:Hp; [|done].
  simpl. rewrite lookup_insert_ne; [done|]. intros <-. by apply (Hq k).
Qed.

(** The store's own writes go through its own pointers: a status update
    leaves every cell that no ID leads to (a returned copy) as it was. *)
Lemma UpdateDriverStatus_keeps_copies (now : Z) (id : string)
    (st : DriverStatus) (q : ptr) (s s' : State) (r : option error) :
  (forall k, drivers s !! k <> Some q) ->
  StateManager.UpdateDriverStatus now id st s = Some (s', r) ->
  dcell s' !! q = dcell s !! q.
Proof.
  intros Hq. unfold StateManager.UpdateDriverStatus.
  destruct (negb _); [by intros [= <- _]|].
  destruct (drivers s !! id) as [p|] eqn:Hp; [|by intros [= <- _]].
  destruct (dcell s !! p); [|done]. intros [= <- _]. simpl.
  rewrite lookup_insert_ne; [done|]. intros <-. by apply (Hq id).
Qed.

(** What the write paths do: [UpsertDriver] keeps the caller's pointer, so
    whatever the caller later writes through it is what the store holds
    under the ID, valid or not. *)
Lemma CreateOrUpdateDriver_keeps_pointer (now : Z) (p : ptr) (s s' : State)
    (d : Driver.t) :
  dcell s !! p = Some d ->
  DriverUseCase.CreateOrUpdateDriver now p s = Some (s', None) ->
  drivers s' !! Driver.ID d = Some p /\
  forall d', exists s'',
    write_Driver p d' s' = Some s'' /\ driver_at s'' (Driver.ID d) = Some d'.
Proof.
  intros Hd. unfold DriverUseCase.CreateOrUpdateDriver. rewrite Hd.
  destruct (_ || _); [done|]. destruct (_ && _); [done|].
  unfold StateManager.CreateOrUpdateDriver.
  case_bool_decide as Hst; simpl.
  - rewrite lookup_insert_eq. intros [= <-]. simpl.
    split; [by rewrite lookup_insert_eq|]. intros d'.
    unfold write_Driver. simpl. rewrite lookup_insert_eq.
    eexists. split; [reflexivity|]. unfold driver_at. simpl.
    rewrite lookup_insert_eq. simpl. by rewrite lookup_insert_eq.
  - rewrite Hd. intros [= <-]. simpl.
    split; [by rewrite lookup_insert_eq|]. intros d'.
    unfold write_Driver. simpl. rewrite lookup_insert_eq.
    eexists. split; [reflexivity|]. unfold driver_at. simpl.
    rewrite lookup_insert_eq. simpl. by rewrite lookup_insert_eq.
Qed.

(** C9, where the code departs from it. A caller that submitted [d1] and
    [o1] still holds the two pointers (both at address 1). Writing an
    unrecognized status through the driver pointer changes what [GetDriver]
    returns for ["d1"]; and after the store assigns ["o1"], the caller's
    order pointer shows the assignment. (A copy returned by [GetDriver],
    here at address 2, is independent of both.) *)
Theorem caller_pointer_aliases_store :
  let s := Sample.after Sample.submitted_and_kept in
  drivers s !! "d1" = Some 1%positive /\
  orders s !! "o1" = Some 1%positive /\
  (exists s1 s2 q,
     write_Driver 1%positive
       (Driver.mk "d1" "Mallory" "flying" Sample.origin 0) s = Some s1 /\
     StateManager.GetDriver "d1" s1 = Some (s2, inl q) /\
     dcell s2 !! q = Some (Driver.mk "d1" "Mallory" "flying" Sample.origin 0)) /\
  (exists s1,
     StateManager.AssignOrderToDriver 20 21 "o1" "d1" s = Some (s1, None) /\
     ocell s !! 1%positive =
       Some (Order.mk "o1" "Bob" Sample.depot Sample.origin
               OrderPending "" 12 12) /\
     ocell s1 !! 1%positive =
       Some (Order.mk "o1" "Bob" Sample.depot Sample.origin
               OrderAssigned "d1" 12 20)) /\
  (exists s1 q s2 s3,
     StateManager.GetDriver "d1" s = Some (s1, inl q) /\ q = 2%positive /\
     StateManager.UpdateDriverStatus 30 "d1" DriverOffline s1
       = Some (s2, None) /\
     dcell s2 !! q = Some (Driver.mk "d1" "Alice" DriverAvailable Sample.depot 10) /\
     write_Driver q (Driver.mk "d1" "Mallory" "flying" Sample.origin 0) s2
       = Some s3 /\
     driver_at s3 "d1" =
       Some (Driver.mk "d1" "Alice" DriverOffline Sample.depot 30)).
Proof.
  cbv zeta. split_and!.
  - vm_compute. reflexivity.
  - vm_compute. reflexivity.
  - eexists _, _, _. split_and!; vm_compute; reflexivity.
  - eexists. split_and!; vm_compute; reflexivity.
  - eexists _, _, _, _. split_and!; vm_compute; reflexivity.
Qed.

(** ** The matcher among the store's operations *)

(** The assignments of a tick are store operations like any other, so a
    tick leads from reachable states to reachable states, under any guard
    that lets the matcher's three operations through. *)
Lemma loop_reachable (allowed : State -> op -> Prop) (clock : nat -> Z * Z)
    (avail : list ptr) (rest : list ptr) :
  (forall s n1 n2 o d, allowed s (OpAssignOrderToDriver n1 n2 o d)) ->
  forall (i matched : nat) (s s' : State) (m : nat)
         (lg : list Matcher.log_line),
  reachable_by allowed s ->
  Matcher.loop clock i rest avail matched s = Some (s', m, lg) ->
  reachable_by allowed s'.
Proof.
  intros Hal. induction rest as [|order rest IH];
    intros i matched s s' m lg Hs; simpl.
  - by intros [= <- _ _].
  - case_bool_decide; [by intros [= <- _ _]|].
    destruct (avail !! i) as [driver|]; [|done].
    destruct (ocell s !! order) as [o|]; [|done].
    destruct (dcell s !! driver) as [d|]; [|done].
    destruct (StateManager.AssignOrderToDriver _ _ _ _ s) as [[s1 r]|] eqn:Hrun;
      [|done].
    assert (Hs1 : reachable_by allowed s1).
    { eapply reachable_step; [exact Hs | apply Hal |].
      simpl. by rewrite Hrun. }
    destruct r as [err|].
    + destruct (Matcher.loop clock (S i) rest avail matched s1)
        as [[[s2 m2] lg2]|] eqn:Hl; [|done].
      intros [= <- _ _]. by eapply IH.
    + destruct (Matcher.loop clock (S i) rest avail (S matched) s1)
        as [[[s2 m2] lg2]|] eqn:Hl; [|done].
      intros [= <- _ _]. by eapply IH.
Qed.

Lemma MatchOrders_reachable (allowed : State -> op -> Prop)
    (clock : nat -> Z * Z) (ko kd : list (string * ptr)) (s s' : State)
    (lg : list Matcher.log_line) :
  (forall s kvs, allowed s (OpGetPendingOrders kvs)) ->
  (forall s kvs, allowed s (OpGetAvailableDrivers kvs)) ->
  (forall s n1 n2 o d, allowed s (OpAssignOrderToDriver n1 n2 o d)) ->
  reachable_by allowed s ->
  Matcher.MatchOrders clock ko kd s = Some (s', lg) ->
  reachable_by allowed s'.
Proof.
  intros Hp Ha Has Hs. unfold Matcher.MatchOrders.
  destruct (StateManager.GetPendingOrders ko s) as [[s1 pend]|] eqn:Hr1;
    [|done].
  assert (Hs1 : reachable_by allowed s1).
  { eapply reachable_step; [exact Hs | apply (Hp s ko) |].
    simpl. by rewrite Hr1. }
  destruct (StateManager.GetAvailableDrivers kd s1) as [[s2 avail]|] eqn:Hr2;
    [|done].
  assert (Hs2 : reachable_by allowed s2).
  { eapply reachable_step; [exact Hs1 | apply (Ha s1 kd) |].
    simpl. by rewrite Hr2. }
  unfold Matcher.match_lists.
  case_bool_decide; [by intros [= <- _]|].
  case_bool_decide; [by intros [= <- _]|].
  destruct (Matcher.loop clock 0 pend avail 0 s2) as [[[s3 m] lg3]|] eqn:Hl;
    [|done].
  intros [= <- _]. by eapply loop_reachable.
Qed.

(** In the copy of the matcher that reads through [orderRepo] and
    [driverRepo], a matcher built by [NewMatcher] has both fields nil and
    its tick panics at the first read; with the fields bound to the store
    the tick is the one above. *)
Lemma SplitMatcher_NewMatcher_panics (clock : nat -> Z * Z)
    (ko kd : list (string * ptr)) (s : State) :
  SplitMatcher.MatchOrders SplitMatcher.NewMatcher clock ko kd s = None.
Proof. reflexivity. Qed.

Lemma SplitMatcher_bound (clock : nat -> Z * Z)
    (ko kd : list (string * ptr)) (s : State) :
  SplitMatcher.MatchOrders (SplitMatcher.mkMatcher true true) clock ko kd s
    = Matcher.MatchOrders clock ko kd s.
Proof. reflexivity. Qed.

(** ** C5: what a tick does, in the two copies of the matcher *)

Lemma fst_zip_take {A B : Type} (l : list A) (k : list B) :
  (zip l k).*1 = take (length k) l.
Proof.
  revert k. induction l as [|a l IH]; intros [|b k]; simpl; try done.
  by rewrite IH.
Qed.

Lemma snd_zip_take {A B : Type} (l : list A) (k : list B) :
  (zip l k).*2 = take (length l) k.
Proof.
  revert k. induction l as [|a l IH]; intros [|b k]; simpl; try done.
  by rewrite IH.
Qed.

Lemma attempts_matched (pairs : list (string * string)) :
  Matcher.attempts (matched_line <$> pairs) = pairs.
Proof.
  induction pairs as [|[o d] rest IH]; [done|].
  unfold Matcher.attempts in *. rewrite fmap_cons. simpl. by f_equal.
Qed.

Lemma matched_count_matched (pairs : list (string * string)) :
  matched_count (matched_line <$> pairs) = length pairs.
Proof.
  induction pairs as [|[o d] rest IH]; [done|].
  change (S (matched_count (matched_line <$> rest)) = S (length rest)).
  by rewrite IH.
Qed.

Lemma matched_count_Completed (lg : list Matcher.log_line) (n : nat) :
  matched_count (lg ++ [Matcher.Completed n])%list = matched_count lg.
Proof.
  induction lg as [|l lg IH]; simpl; [done|]. destruct l; by rewrite ?IH.
Qed.

(** Pairs of distinct pending orders with distinct available drivers: every
    attempt succeeds, and the run rewrites exactly the paired records. *)
Lemma attempt_each_all_succeed (clock : nat -> Z * Z)
    (pairs : list (string * string)) :
  forall (i : nat) (s : State),
    wf s -> NoDup pairs.*1 -> NoDup pairs.*2 ->
    (forall o d, (o, d) ∈ pairs ->
       (exists r, order_at s o = Some r /\ Order.Status r = OrderPending) /\
       (exists r, driver_at s d = Some r /\
                  Driver.Status r = DriverAvailable)) ->
    exists s',
      attempt_each clock i pairs s = Some (s', matched_line <$> pairs) /\
      wf s' /\
      (forall k, k ∉ pairs.*1 -> order_at s' k = order_at s k) /\
      (forall k, k ∉ pairs.*2 -> driver_at s' k = driver_at s k) /\
      (forall j o d, pairs !! j = Some (o, d) ->
         (exists r, order_at s o = Some r /\
            order_at s' o
              = Some (assigned_record d (clock (i + j)%nat).1 r)) /\
         (exists r, driver_at s d = Some r /\
            driver_at s' d = Some (busy_record (clock (i + j)%nat).2 r))).
Proof.
  induction pairs as [|[o d] rest IH]; intros i s Hwf Hn1 Hn2 Hall.
  - exists s. split_and!; try done.
  - simpl in Hn1, Hn2.
    apply NoDup_cons in Hn1 as [Ho1 Hn1], Hn2 as [Hd1 Hn2].
    destruct (Hall o d) as ((ro & Hro & Hpend) & (rd & Hrd & Hav));
      [apply elem_of_cons; by left|].
    destruct (AssignOrderToDriver_success (clock i).1 (clock i).2 o d s ro rd
                Hwf Hro Hrd Hpend Hav)
      as (s1 & Hrun & Hwf1 & Hop & Hdp).
    assert (Hord : forall o', o' ∈ rest.*1 -> order_at s1 o' = order_at s o').
    { intros o' Hin. rewrite (Hop o').
      destruct (decide (o' = o)) as [->|]; [done|done]. }
    assert (Hdrv : forall d', d' ∈ rest.*2 -> driver_at s1 d' = driver_at s d').
    { intros d' Hin. rewrite (Hdp d').
      destruct (decide (d' = d)) as [->|]; [done|done]. }
    destruct (IH (S i) s1 Hwf1 Hn1 Hn2) as (s' & Hrest & Hwf' & Hko & Hkd & Hj).
    { intros o' d' Hin.
      assert (o' ∈ rest.*1) as Hin1
        by (apply list_elem_of_fmap; by exists (o', d')).
      assert (d' ∈ rest.*2) as Hin2
        by (apply list_elem_of_fmap; by exists (o', d')).
      rewrite (Hord o' Hin1), (Hdrv d' Hin2).
      apply Hall. apply elem_of_cons. by right. }
    exists s'. simpl. rewrite Hrun, Hrest. split_and!; try done.
    + intros k Hk. apply not_elem_of_cons in Hk as [Hne Hk].
      rewrite (Hko k Hk), (Hop k). by rewrite decide_False.
    + intros k Hk. apply not_elem_of_cons in Hk as [Hne Hk].
      rewrite (Hkd k Hk), (Hdp k). by rewrite decide_False.
    + intros [|j] o' d' Hlk; simpl in Hlk.
      * injection Hlk as <- <-. rewrite Nat.add_0_r. split.
        -- exists ro. split; [done|].
           rewrite (Hko o Ho1), (Hop o). by rewrite decide_True.
        -- exists rd. split; [done|].
           rewrite (Hkd d Hd1), (Hdp d). by rewrite decide_True.
      * destruct (Hj j o' d' Hlk) as ((r1 & Hr1 & Hr1') & (r2 & Hr2 & Hr2')).
        assert ((o', d') ∈ rest) as Hin by (by eapply list_elem_of_lookup_2).
        assert (o' ∈ rest.*1) as Hin1
          by (apply list_elem_of_fmap; by exists (o', d')).
        assert (d' ∈ rest.*2) as Hin2
          by (apply list_elem_of_fmap; by exists (o', d')).
        rewrite Nat.add_succ_r. simpl in Hr1', Hr2'. split.
        -- exists r1. split; [by rewrite <- (Hord o' Hin1)|done].
        -- exists r2. split; [by rewrite <- (Hdrv d' Hin2)|done].
Qed.

Lemma NoDup_take_prefix {A : Type} (n : nat) (l : list A) :
  NoDup l -> NoDup (take n l).
Proof.
  intros Hnd. exact (sublist_NoDup _ _ Hnd (sublist_take l n)).
Qed.

(** A tick pairs the zip of what its reads met, and every attempt
    succeeds. *)
Lemma MatchOrders_pairs (clock : nat -> Z * Z)
    (ko kd : list (string * ptr)) (s : State) :
  wf s -> range_of (orders s) ko -> range_of (drivers s) kd ->
  exists s',
    Matcher.MatchOrders clock ko kd s
      = Some (s', tick_log (length (pending_IDs s ko))
                    (length (available_IDs s kd))
                    (matched_line
                       <$> zip (pending_IDs s ko) (available_IDs s kd))) /\
    wf s' /\
    (forall j o d,
       pending_IDs s ko !! j = Some o -> available_IDs s kd !! j = Some d ->
       (exists r, order_at s o = Some r /\
          order_at s' o = Some (assigned_record d (clock j).1 r)) /\
       (exists r, driver_at s d = Some r /\
          driver_at s' d = Some (busy_record (clock j).2 r))) /\
    (forall k, k ∉ take (length (available_IDs s kd)) (pending_IDs s ko) ->
       order_at s' k = order_at s k) /\
    (forall k, k ∉ take (length (pending_IDs s ko)) (available_IDs s kd) ->
       driver_at s' k = driver_at s k).
Proof.
  intros Hwf Hko Hkd.
  destruct (MatchOrders_tick clock ko kd s Hwf Hko Hkd)
    as (s2 & s' & lg0 & Hext & Hwf2 & Hat & Hrun).
  destruct (pending_IDs_spec s ko Hko) as [HndP HP].
  destruct (available_IDs_spec s kd Hkd) as [HndA HA].
  set (P := pending_IDs s ko) in *. set (A := available_IDs s kd) in *.
  pose proof (extends_order_same s s2 (closed_of_wf s Hwf) Hext) as Hos.
  pose proof (extends_driver_same s s2 (closed_of_wf s Hwf) Hext) as Hds.
  rewrite pairs_spec_zip in Hat.
  destruct (attempt_each_all_succeed clock (zip P A) 0 s2 Hwf2)
    as (s3 & Hat3 & Hwf3 & Hko3 & Hkd3 & Hj).
  { rewrite fst_zip_take. by apply NoDup_take_prefix. }
  { rewrite snd_zip_take. by apply NoDup_take_prefix. }
  { intros o d Hin. rewrite (Hos o), (Hds d).
    apply elem_of_zip_l in Hin as Hin1. apply elem_of_zip_r in Hin as Hin2.
    split; [by apply HP | by apply HA]. }
  rewrite Hat3 in Hat. injection Hat as <- <-.
  rewrite fst_zip_take in Hko3. rewrite snd_zip_take in Hkd3.
  exists s3. split_and!; try done.
  - intros j o d Ho Hd.
    destruct (Hj j o d) as ((r1 & Hr1 & Hr1') & (r2 & Hr2 & Hr2')).
    { apply lookup_zip_with_Some. by exists o, d. }
    rewrite (Hos o) in Hr1. rewrite (Hds d) in Hr2. simpl in Hr1', Hr2'.
    split; [by exists r1 | by exists r2].
  - intros k Hk. by rewrite (Hko3 k Hk), (Hos k).
  - intros k Hk. by rewrite (Hkd3 k Hk), (Hds k).
Qed.

(** After a tick no pending order is left, or no available driver. *)
Lemma MatchOrders_exhaustive (clock : nat -> Z * Z)
    (ko kd : list (string * ptr)) (s : State) :
  wf s -> range_of (orders s) ko -> range_of (drivers s) kd ->
  exists s' lg,
    Matcher.MatchOrders clock ko kd s = Some (s', lg) /\ wf s' /\
    (no_pending_order s' \/ no_available_driver s').
Proof.
  intros Hwf Hko Hkd.
  destruct (MatchOrders_pairs clock ko kd s Hwf Hko Hkd)
    as (s' & Hrun & Hwf' & Hpair & Hko' & Hkd').
  destruct (pending_IDs_spec s ko Hko) as [_ HP].
  destruct (available_IDs_spec s kd Hkd) as [_ HA].
  set (P := pending_IDs s ko) in *. set (A := available_IDs s kd) in *.
  eexists s', _. split; [exact Hrun|]. split; [done|].
  destruct (le_ge_dec (length P) (length A)) as [Hle|Hge].
  - left. intros id o Ho Hst.
    destruct (decide (id ∈ P)) as [Hin|Hnin].
    + apply list_elem_of_lookup in Hin as [j Hjl].
      destruct (lookup_lt_is_Some_2 A j) as [d Hd].
      { apply lookup_lt_Some in Hjl. lia. }
      destruct (Hpair j id d Hjl Hd) as ((r & _ & Hr) & _).
      rewrite Ho in Hr. injection Hr as ->. discriminate.
    + rewrite Hko' in Ho.
      { apply Hnin. apply HP. by exists o. }
      rewrite take_ge; [done|lia].
  - right. intros id d Hd Hst.
    destruct (decide (id ∈ A)) as [Hin|Hnin].
    + apply list_elem_of_lookup in Hin as [j Hjl].
      destruct (lookup_lt_is_Some_2 P j) as [o Ho].
      { apply lookup_lt_Some in Hjl. lia. }
      destruct (Hpair j o id Ho Hjl) as (_ & (r & _ & Hr)).
      rewrite Hd in Hr. injection Hr as ->. discriminate.
    + rewrite Hkd' in Hd.
      { apply Hnin. apply HA. by exists d. }
      rewrite take_ge; [done|lia].
Qed.

Lemma attempts_tick_log (pairs : list (string * string)) (n m : nat) :
  (n = 0%nat \/ m = 0%nat -> pairs = []) ->
  Matcher.attempts (tick_log n m (matched_line <$> pairs)) = pairs.
Proof.
  intros Hempty. unfold tick_log. case_bool_decide as Hn.
  { rewrite Hempty by auto. done. }
  case_bool_decide as Hm.
  { rewrite Hempty by auto. done. }
  rewrite attempts_app, attempts_matched.
  case_bool_decide; simpl; by rewrite app_nil_r.
Qed.

Lemma no_failure_tick_log (pairs : list (string * string)) (n m : nat)
    (o d : string) (e : error) :
  Matcher.FailedToAssign o d e ∉ tick_log n m (matched_line <$> pairs).
Proof.
  unfold tick_log. case_bool_decide; [apply not_elem_of_nil|].
  case_bool_decide.
  { intros Hin%list_elem_of_singleton. discriminate. }
  rewrite elem_of_app. intros [Hin|Hin].
  - apply list_elem_of_fmap in Hin as ([o' d'] & Heq & _). discriminate.
  - case_bool_decide.
    + apply list_elem_of_singleton in Hin. discriminate.
    + by apply not_elem_of_nil in Hin.
Qed.

(** C5. The two copies of the matcher differ. In the copy that reads
    through [orderRepo] and [driverRepo], [NewMatcher], its only
    constructor, leaves both fields nil, and every tick panics at its
    first read: on the store with pending orders [o1], [o3] and available
    driver [d1] it assigns nothing, where the other copy assigns one of
    the two orders to [d1] and leaves the other pending. With both fields
    bound the first copy does what the other does. The other copy, which
    reads through the one repository [NewMatcher] sets, does what the
    claim says: a tick on a well-formed store returns, attempts exactly
    the pairs (i-th pending order, i-th available driver) of its two
    reads, in the order the reads met them, none of the attempts fails,
    each paired order ends up assigned to its driver and each paired
    driver busy, every other record is as it was, and with an empty read
    nothing is attempted and no record changes; its loop, on whatever
    lists were read and whatever state the store is in by then, makes one
    attempt per pair and goes on after a failed one. *)
Theorem MatchOrders_pairing :
  (forall (clock : nat -> Z * Z) (ko kd : list (string * ptr)) (s : State),
     SplitMatcher.MatchOrders SplitMatcher.NewMatcher clock ko kd s = None) /\
  (exists ra rb rd,
     order_at (Sample.after Sample.two_pending) "o1" = Some ra /\
     Order.Status ra = OrderPending /\
     order_at (Sample.after Sample.two_pending) "o3" = Some rb /\
     Order.Status rb = OrderPending /\
     driver_at (Sample.after Sample.two_pending) "d1" = Some rd /\
     Driver.Status rd = DriverAvailable /\
     SplitMatcher.MatchOrders SplitMatcher.NewMatcher Sample.clock
       (map_to_list (orders (Sample.after Sample.two_pending)))
       (map_to_list (drivers (Sample.after Sample.two_pending)))
       (Sample.after Sample.two_pending) = None /\
     exists s' x y ry,
       Matcher.MatchOrders Sample.clock
         (map_to_list (orders (Sample.after Sample.two_pending)))
         (map_to_list (drivers (Sample.after Sample.two_pending)))
         (Sample.after Sample.two_pending)
         = Some (s', [Matcher.Matched x "d1"; Matcher.Completed 1]) /\
       (x = "o1" /\ y = "o3" \/ x = "o3" /\ y = "o1") /\
       (exists rx, order_at s' x = Some rx /\
          Order.Status rx = OrderAssigned /\ Order.DriverID rx = "d1") /\
       order_at s' y = Some ry /\ Order.Status ry = OrderPending) /\
  (forall (clock : nat -> Z * Z) (ko kd : list (string * ptr)) (s : State),
     SplitMatcher.MatchOrders (SplitMatcher.mkMatcher true true) clock ko kd s
       = Matcher.MatchOrders clock ko kd s) /\
  (forall (clock : nat -> Z * Z) (ko kd : list (string * ptr)) (s : State),
     wf s -> range_of (orders s) ko -> range_of (drivers s) kd ->
     exists s' lg,
       Matcher.MatchOrders clock ko kd s = Some (s', lg) /\
       Matcher.attempts lg
         = pairs_spec (pending_IDs s ko) (available_IDs s kd) /\
       (forall o d e, Matcher.FailedToAssign o d e ∉ lg) /\
       (forall j o d,
          pending_IDs s ko !! j = Some o ->
          available_IDs s kd !! j = Some d ->
          (exists r, order_at s o = Some r /\
             order_at s' o = Some (assigned_record d (clock j).1 r)) /\
          (exists r, driver_at s d = Some r /\
             driver_at s' d = Some (busy_record (clock j).2 r))) /\
       (forall k,
          k ∉ take (length (available_IDs s kd)) (pending_IDs s ko) ->
          order_at s' k = order_at s k) /\
       (forall k,
          k ∉ take (length (pending_IDs s ko)) (available_IDs s kd) ->
          driver_at s' k = driver_at s k) /\
       (pending_IDs s ko = [] \/ available_IDs s kd = [] ->
          Matcher.attempts lg = [] /\ matched_count lg = 0%nat /\
          order_same s s' /\ driver_same s s')) /\
  (forall (clock : nat -> Z * Z) (pend avail : list ptr) (s : State)
          (oids dids : list string),
     closed s ->
     Forall2 (order_cell_ID s) pend oids ->
     Forall2 (driver_cell_ID s) avail dids ->
     exists s' lg lg0,
       Matcher.match_lists clock pend avail s = Some (s', lg) /\
       Matcher.attempts lg = pairs_spec oids dids /\
       attempt_each clock 0 (pairs_spec oids dids) s = Some (s', lg0) /\
       lg = tick_log (length pend) (length avail) lg0 /\
       (pend = [] \/ avail = [] -> s' = s /\ Matcher.attempts lg = [])).
Proof.
  destruct MatchOrders_loop as [Hloop Hscenario].
  split_and!.
  - apply SplitMatcher_NewMatcher_panics.
  - destruct (Hscenario Sample.clock
                (map_to_list (orders (Sample.after Sample.two_pending)))
                (map_to_list (drivers (Sample.after Sample.two_pending)))
                (Sample.after Sample.two_pending) "o1" "o3" "d1"
                (Order.mk "o1" "Bob" Sample.depot Sample.origin
                   OrderPending "" 12 12)
                (Order.mk "o3" "Finn" Sample.origin Sample.depot
                   OrderPending "" 13 13)
                (Driver.mk "d1" "Alice" DriverAvailable Sample.depot 10))
      as (s' & x & y & rx & Hrun & Hxy & _ & _ & Hx & _ & (ry & Hy & Hsy) & _).
    + apply reachable_wf, reachable_after. vm_compute. eauto.
    + unfold range_of. reflexivity.
    + unfold range_of. reflexivity.
    + discriminate.
    + vm_compute. reflexivity.
    + vm_compute. reflexivity.
    + vm_compute. reflexivity.
    + intros id o Ho. destruct (two_pending_orders id o Ho). tauto.
    + intros id d Hd. destruct (two_pending_drivers id d Hd). tauto.
    + eexists _, _, _. split_and!;
        [ vm_compute; reflexivity | reflexivity | vm_compute; reflexivity
        | reflexivity | vm_compute; reflexivity | reflexivity
        | reflexivity | ].
      exists s', x, y, ry. split_and!; try done.
      eexists. split; [exact Hx|]. done.
  - apply SplitMatcher_bound.
  - intros clock ko kd s Hwf Hko Hkd.
    destruct (MatchOrders_pairs clock ko kd s Hwf Hko Hkd)
      as (s' & Hrun & Hwf' & Hpair & Hko' & Hkd').
    set (P := pending_IDs s ko) in *. set (A := available_IDs s kd) in *.
    assert (Hempty : length P = 0%nat \/ length A = 0%nat -> zip P A = []).
    { intros [H0|H0]; apply nil_length_inv in H0; rewrite H0;
        [done | by destruct P]. }
    eexists s', _. split; [exact Hrun|]. split_and!; try done.
    + rewrite pairs_spec_zip. by apply attempts_tick_log.
    + intros o d e. apply no_failure_tick_log.
    + intros Hnil.
      assert (Hz : zip P A = []).
      { apply Hempty. destruct Hnil as [-> | ->]; auto. }
      rewrite Hz. split_and!.
      * unfold tick_log. by repeat case_bool_decide.
      * unfold tick_log. by repeat case_bool_decide.
      * intros k. apply Hko'.
        destruct Hnil as [-> | ->]; rewrite ?take_nil; simpl;
          rewrite ?take_0; apply not_elem_of_nil.
      * intros k. apply Hkd'.
        destruct Hnil as [-> | ->]; rewrite ?take_nil; simpl;
          rewrite ?take_0; apply not_elem_of_nil.
  - exact Hloop.
Qed.

Lemma MatchOrders_pairing_witness :
  (exists s' lg,
     Matcher.MatchOrders Sample.clock (map_to_list (orders Sample.store))
       (map_to_list (drivers Sample.store)) Sample.store = Some (s', lg) /\
     Matcher.attempts lg
       = pairs_spec
           (pending_IDs Sample.store (map_to_list (orders Sample.store)))
           (available_IDs Sample.store (map_to_list (drivers Sample.store))) /\
     (forall o d e, Matcher.FailedToAssign o d e ∉ lg)) /\
  (exists s' lg lg0,
     Matcher.match_lists Sample.clock [2%positive; 1%positive]
       [2%positive; 1%positive] Sample.store = Some (s', lg) /\
     Matcher.attempts lg = pairs_spec ["o2"; "o1"] ["d2"; "d1"] /\
     attempt_each Sample.clock 0 (pairs_spec ["o2"; "o1"] ["d2"; "d1"])
       Sample.store = Some (s', lg0) /\
     lg = tick_log 2 2 lg0 /\
     ([2%positive; 1%positive] = [] \/ [2%positive; 1%positive] = [] ->
      s' = Sample.store /\ Matcher.attempts lg = [])).
Proof.
  destruct MatchOrders_pairing as (_ & _ & _ & Htick & Hlists). split.
  - destruct (Htick Sample.clock (map_to_list (orders Sample.store))
                (map_to_list (drivers Sample.store)) Sample.store)
      as (s' & lg & Hrun & Hatt & Hnf & _).
    + apply reachable_wf, reachable_Sample_store.
    + unfold range_of. reflexivity.
    + unfold range_of. reflexivity.
    + by exists s', lg.
  - apply (Hlists Sample.clock [2%positive; 1%positive]
             [2%positive; 1%positive] Sample.store
             ["o2"; "o1"] ["d2"; "d1"]).
    + apply closed_of_wf, reachable_wf, reachable_Sample_store.
    + repeat constructor; vm_compute; reflexivity.
    + repeat constructor; vm_compute; reflexivity.
Defined.



(* ===================================================================== *)
(** * Further properties of the store, the matcher and the adapters *)
(* ===================================================================== *)

(** ** Reads by ID *)

Lemma closed_Sample_store : closed Sample.store.
Proof. apply closed_of_wf, reachable_wf, reachable_Sample_store. Qed.

(** X1. [GetDriver] and [GetOrder] fail with their not-found error exactly
    when the ID is not in the map, and then return the state untouched;
    for a stored ID they return a cell that did not exist before, that no
    ID of the store leads to, holding the stored record, and leave both
    maps and every stored record as they were. *)
Theorem read_by_ID (id : string) (s : State) :
  (drivers s !! id = None ->
     StateManager.GetDriver id s = Some (s, inr ErrDriverNotFound)) /\
  (orders s !! id = None ->
     StateManager.GetOrder id s = Some (s, inr ErrOrderNotFound)) /\
  (closed s -> forall d, driver_at s id = Some d ->
     exists s' q,
       StateManager.GetDriver id s = Some (s', inl q) /\
       dcell s !! q = None /\ dcell s' !! q = Some d /\
       (forall k, drivers s' !! k <> Some q) /\
       drivers s' = drivers s /\ orders s' = orders s /\
       driver_same s s' /\ order_same s s') /\
  (closed s -> forall o, order_at s id = Some o ->
     exists s' q,
       StateManager.GetOrder id s = Some (s', inl q) /\
       ocell s !! q = None /\ ocell s' !! q = Some o /\
       (forall k, orders s' !! k <> Some q) /\
       drivers s' = drivers s /\ orders s' = orders s /\
       driver_same s s' /\ order_same s s').
Proof.
  split_and!.
  - intros H. unfold StateManager.GetDriver. by rewrite H.
  - intros H. unfold StateManager.GetOrder. by rewrite H.
  - intros Hc d Hd.
    destruct (GetDriver_returns_copy id s d Hc Hd)
      as (s' & q & Hrun & Hfresh & Hcell & Hext & Hno).
    exists s', q. pose proof Hext as (Hdm & Hom & _).
    split_and!; try done.
    + by apply extends_driver_same.
    + by apply extends_order_same.
  - intros Hc o Ho.
    destruct (GetOrder_returns_copy id s o Hc Ho)
      as (s' & q & Hrun & Hfresh & Hcell & Hext & Hno).
    exists s', q. pose proof Hext as (Hdm & Hom & _).
    split_and!; try done.
    + by apply extends_driver_same.
    + by apply extends_order_same.
Qed.

Lemma read_by_ID_witness :
  StateManager.GetDriver "d7" Sample.store
    = Some (Sample.store, inr ErrDriverNotFound) /\
  StateManager.GetOrder "o7" Sample.store
    = Some (Sample.store, inr ErrOrderNotFound) /\
  (exists s' q,
     StateManager.GetDriver "d2" Sample.store = Some (s', inl q) /\
     dcell Sample.store !! q = None /\
     dcell s' !! q = Some (Driver.mk "d2" "Carol" DriverBusy Sample.origin 11) /\
     (forall k, drivers s' !! k <> Some q) /\
     drivers s' = drivers Sample.store /\ orders s' = orders Sample.store /\
     driver_same Sample.store s' /\ order_same Sample.store s') /\
  (exists s' q,
     StateManager.GetOrder "o1" Sample.store = Some (s', inl q) /\
     ocell Sample.store !! q = None /\
     ocell s' !! q =
       Some (Order.mk "o1" "Bob" Sample.depot Sample.origin
               OrderPending "" 12 12) /\
     (forall k, orders s' !! k <> Some q) /\
     drivers s' = drivers Sample.store /\ orders s' = orders Sample.store /\
     driver_same Sample.store s' /\ order_same Sample.store s').
Proof.
  destruct (read_by_ID "d7" Sample.store) as (H1 & _).
  destruct (read_by_ID "o7" Sample.store) as (_ & H2 & _).
  destruct (read_by_ID "d2" Sample.store) as (_ & _ & H3 & _).
  destruct (read_by_ID "o1" Sample.store) as (_ & _ & _ & H4).
  split_and!.
  - apply H1. reflexivity.
  - apply H2. reflexivity.
  - apply (H3 closed_Sample_store). vm_compute. reflexivity.
  - apply (H4 closed_Sample_store). vm_compute. reflexivity.
Defined.

(** ** Write then read *)

Lemma GetDriver_of_cell (id : string) (p : ptr) (d : Driver.t) (s : State) :
  drivers s !! id = Some p -> dcell s !! p = Some d ->
  exists s' q, StateManager.GetDriver id s = Some (s', inl q) /\
    q <> p /\ dcell s' !! q = Some d.
Proof.
  intros Hp Hd. unfold StateManager.GetDriver. rewrite Hp, Hd. simpl.
  exists (upd_dcell <[fresh (dom (dcell s)) := d]> s), (fresh (dom (dcell s))).
  split_and!; [done | | simpl; apply lookup_insert_eq].
  intros Heq. pose proof (fresh_dcell s) as Hf. rewrite Heq in Hf. congruence.
Qed.

Lemma GetOrder_of_cell (id : string) (p : ptr) (o : Order.t) (s : State) :
  orders s !! id = Some p -> ocell s !! p = Some o ->
  exists s' q, StateManager.GetOrder id s = Some (s', inl q) /\
    q <> p /\ ocell s' !! q = Some o.
Proof.
  intros Hp Ho. unfold StateManager.GetOrder. rewrite Hp, Ho. simpl.
  exists (upd_ocell <[fresh (dom (ocell s)) := o]> s), (fresh (dom (ocell s))).
  split_and!; [done | | simpl; apply lookup_insert_eq].
  intros Heq. pose proof (fresh_ocell s) as Hf. rewrite Heq in Hf. congruence.
Qed.

(** A successful upsert: the map leads to the submitted cell, which holds
    the stored form of the record. *)
Lemma CreateOrUpdateDriver_accepts (now : Z) (p : ptr) (s : State)
    (d : Driver.t) :
  dcell s !! p = Some d ->
  Driver.ID d <> "" -> Driver.Name d <> "" ->
  stored_status (Driver.Status d) ∈ recognized_driver_statuses ->
  exists s1,
    DriverUseCase.CreateOrUpdateDriver now p s = Some (s1, None) /\
    drivers s1 = <[Driver.ID d := p]> (drivers s) /\
    dcell s1 = <[p := stored_driver now d]> (dcell s) /\
    orders s1 = orders s /\ ocell s1 = ocell s.
Proof.
  intros Hd Hid Hn Hst.
  unfold DriverUseCase.CreateOrUpdateDriver, StateManager.CreateOrUpdateDriver.
  rewrite Hd, (bool_decide_eq_false_2 _ Hid), (bool_decide_eq_false_2 _ Hn).
  simpl. unfold stored_driver, stored_status in *.
  destruct (decide (Driver.Status d = "")) as [He|He].
  - rewrite (bool_decide_eq_true_2 _ He). simpl. rewrite lookup_insert_eq.
    eexists. split; [reflexivity|]. simpl. by rewrite insert_insert_eq.
  - rewrite (bool_decide_eq_false_2 _ He). simpl.
    apply IsValidDriverStatus_recognized in Hst. rewrite Hst. simpl.
    rewrite Hd. eexists. split; [reflexivity|]. done.
Qed.

Lemma CreateOrder_accepts (now : Z) (p : ptr) (s : State) (o : Order.t) :
  ocell s !! p = Some o ->
  Order.ID o <> "" -> Order.Customer o <> "" ->
  exists s1,
    OrderUseCase.CreateOrder now p s = Some (s1, None) /\
    orders s1 = <[Order.ID o := p]> (orders s) /\
    ocell s1 = <[p := stored_order now o]> (ocell s) /\
    drivers s1 = drivers s /\ dcell s1 = dcell s.
Proof.
  intros Ho Hid Hc.
  unfold OrderUseCase.CreateOrder, StateManager.CreateOrder.
  rewrite Ho, (bool_decide_eq_false_2 _ Hid), (bool_decide_eq_false_2 _ Hc).
  simpl. eexists. split; [reflexivity|]. done.
Qed.

(** X2. What [UpsertDriver] accepted is what [GetDriver] returns next: for
    a submitted record with ID, name and a recognized or empty status, the
    upsert succeeds and a [GetDriver] of the record's ID returns a copy, in
    a cell other than the submitted one, of the record with the stored
    status and the stamp; likewise [CreateOrder] followed by [GetOrder]
    returns the record reset to pending. No assumption on the store. *)
Theorem write_then_read (now : Z) (p : ptr) (s : State) :
  (forall d, dcell s !! p = Some d ->
     Driver.ID d <> "" -> Driver.Name d <> "" ->
     stored_status (Driver.Status d) ∈ recognized_driver_statuses ->
     exists s1 s2 q,
       DriverUseCase.CreateOrUpdateDriver now p s = Some (s1, None) /\
       DriverUseCase.GetDriver (Driver.ID d) s1 = Some (s2, inl q) /\
       q <> p /\ dcell s2 !! q = Some (stored_driver now d)) /\
  (forall o, ocell s !! p = Some o ->
     Order.ID o <> "" -> Order.Customer o <> "" ->
     exists s1 s2 q,
       OrderUseCase.CreateOrder now p s = Some (s1, None) /\
       OrderUseCase.GetOrder (Order.ID o) s1 = Some (s2, inl q) /\
       q <> p /\ ocell s2 !! q = Some (stored_order now o)).
Proof.
  split.
  - intros d Hd Hid Hn Hst.
    destruct (CreateOrUpdateDriver_accepts now p s d Hd Hid Hn Hst)
      as (s1 & Hrun & Hdm & Hdc & _).
    destruct (GetDriver_of_cell (Driver.ID d) p (stored_driver now d) s1)
      as (s2 & q & Hget & Hq & Hcell).
    { rewrite Hdm. apply lookup_insert_eq. }
    { rewrite Hdc. apply lookup_insert_eq. }
    by exists s1, s2, q.
  - intros o Ho Hid Hc.
    destruct (CreateOrder_accepts now p s o Ho Hid Hc)
      as (s1 & Hrun & Hom & Hoc & _).
    destruct (GetOrder_of_cell (Order.ID o) p (stored_order now o) s1)
      as (s2 & q & Hget & Hq & Hcell).
    { rewrite Hom. apply lookup_insert_eq. }
    { rewrite Hoc. apply lookup_insert_eq. }
    by exists s1, s2, q.
Qed.

Lemma write_then_read_witness :
  (exists s1 s2 q,
     DriverUseCase.CreateOrUpdateDriver 50 2%positive Sample.submitted
       = Some (s1, None) /\
     DriverUseCase.GetDriver "d3" s1 = Some (s2, inl q) /\
     q <> 2%positive /\
     dcell s2 !! q = Some (Driver.mk "d3" "Dave" DriverAvailable Sample.origin 50)) /\
  (exists s1 s2 q,
     OrderUseCase.CreateOrder 40 1%positive
       (new_Order Sample.o2 NewStateManager).2 = Some (s1, None) /\
     OrderUseCase.GetOrder "o2" s1 = Some (s2, inl q) /\
     q <> 1%positive /\
     ocell s2 !! q =
       Some (Order.mk "o2" "Erin" Sample.origin Sample.depot
               OrderPending "" 40 40)).
Proof.
  destruct (write_then_read 50 2%positive Sample.submitted) as [H1 _].
  destruct (write_then_read 40 1%positive
              (new_Order Sample.o2 NewStateManager).2) as [_ H2].
  split.
  - apply (H1 Sample.d3);
      [ vm_compute; reflexivity | vm_compute; discriminate
      | vm_compute; discriminate
      | apply IsValidDriverStatus_recognized; reflexivity ].
  - apply (H2 Sample.o2);
      [ vm_compute; reflexivity | vm_compute; discriminate
      | vm_compute; discriminate ].
Defined.

(** ** The list reads *)

(** What a [range] loop over the whole map returns: the IDs it kept, in
    iteration order, and behind the returned pointers the records the
    store holds under those IDs, each in a cell of its own that did not
    exist before. *)
Lemma range_drivers_records (keep : Driver.t -> bool)
    (kvs : list (string * ptr)) (s : State) :
  closed s -> range_of (drivers s) kvs ->
  exists s' out,
    StateManager.range_drivers keep kvs s = Some (s', out) /\
    extends s s' /\ ocell s' = ocell s /\
    out.*1 = (filter (kept_driver keep s) kvs).*1 /\
    (fun q => dcell s' !! q) <$> out.*2
      = (fun k => driver_at s k) <$> (filter (kept_driver keep s) kvs).*1 /\
    NoDup out.*2 /\ Forall (fun q => dcell s !! q = None) out.*2.
Proof.
  intros Hc Hr.
  pose proof (range_all_allocated_drivers s kvs Hc Hr) as Hall.
  destruct (range_drivers_general keep kvs s s)
    as (s' & out & Hrun & Hext & Hoc & Hcp & Hnd); [done | done |].
  assert (Hin : Forall (fun kp => (kp : string * positive) ∈ kvs)
                    (filter (kept_driver keep s) kvs)).
  { apply Forall_forall. intros kp Hkp.
    by apply list_elem_of_filter in Hkp as [_ ?]. }
  exists s', out. revert Hcp Hin.
  generalize (filter (kept_driver keep s) kvs). intros F Hcp Hin.
  split_and!; try done.
  - clear Hnd Hin Hrun. induction Hcp as [|kp kq ? ? [Hk _] _ IH]; [done|].
    rewrite !fmap_cons. by f_equal.
  - clear Hnd Hrun. induction Hcp as [|[k p] [k' q] ? ? (Hk & _ & Hcell) _ IH];
      [done|].
    apply Forall_cons in Hin as [Hin1 Hin]. rewrite !fmap_cons.
    f_equal; [|by apply IH]. simpl in *.
    apply (range_of_elem _ _ _ _ Hr) in Hin1.
    unfold driver_at. by rewrite Hin1.
  - apply Forall_forall. intros q Hq.
    apply list_elem_of_fmap in Hq as ([k q'] & -> & Hq).
    apply list_elem_of_lookup in Hq as [i Hi].
    by destruct (Forall2_lookup_r _ _ _ _ _ Hcp Hi) as (kp & _ & _ & Hn & _).
Qed.

Lemma range_orders_records (keep : Order.t -> bool)
    (kvs : list (string * ptr)) (s : State) :
  closed s -> range_of (orders s) kvs ->
  exists s' out,
    StateManager.range_orders keep kvs s = Some (s', out) /\
    extends s s' /\ dcell s' = dcell s /\
    out.*1 = (filter (kept_order keep s) kvs).*1 /\
    (fun q => ocell s' !! q) <$> out.*2
      = (fun k => order_at s k) <$> (filter (kept_order keep s) kvs).*1 /\
    NoDup out.*2 /\ Forall (fun q => ocell s !! q = None) out.*2.
Proof.
  intros Hc Hr.
  pose proof (range_all_allocated_orders s kvs Hc Hr) as Hall.
  destruct (range_orders_general keep kvs s s)
    as (s' & out & Hrun & Hext & Hdc & Hcp & Hnd); [done | done |].
  assert (Hin : Forall (fun kp => (kp : string * positive) ∈ kvs)
                    (filter (kept_order keep s) kvs)).
  { apply Forall_forall. intros kp Hkp.
    by apply list_elem_of_filter in Hkp as [_ ?]. }
  exists s', out. revert Hcp Hin.
  generalize (filter (kept_order keep s) kvs). intros F Hcp Hin.
  split_and!; try done.
  - clear Hnd Hin Hrun. induction Hcp as [|kp kq ? ? [Hk _] _ IH]; [done|].
    rewrite !fmap_cons. by f_equal.
  - clear Hnd Hrun. induction Hcp as [|[k p] [k' q] ? ? (Hk & _ & Hcell) _ IH];
      [done|].
    apply Forall_cons in Hin as [Hin1 Hin]. rewrite !fmap_cons.
    f_equal; [|by apply IH]. simpl in *.
    apply (range_of_elem _ _ _ _ Hr) in Hin1.
    unfold order_at. by rewrite Hin1.
  - apply Forall_forall. intros q Hq.
    apply list_elem_of_fmap in Hq as ([k q'] & -> & Hq).
    apply list_elem_of_lookup in Hq as [i Hi].
    by destruct (Forall2_lookup_r _ _ _ _ _ Hcp Hi) as (kp & _ & _ & Hn & _).
Qed.

Lemma range_of_length (m : gmap string positive) (kvs : list (string * ptr)) :
  range_of m kvs -> length kvs = size m.
Proof.
  intros Hr. unfold range_of in Hr. rewrite Hr. apply length_map_to_list.
Qed.

Lemma filter_kept_true_drivers (s : State) (kvs : list (string * ptr)) :
  closed s -> range_of (drivers s) kvs ->
  filter (kept_driver (fun _ => true) s) kvs = kvs.
Proof.
  intros Hc Hr. apply filter_kept_all_drivers.
  by apply range_all_allocated_drivers.
Qed.

Lemma filter_kept_true_orders (s : State) (kvs : list (string * ptr)) :
  closed s -> range_of (orders s) kvs ->
  filter (kept_order (fun _ => true) s) kvs = kvs.
Proof.
  intros Hc Hr. apply filter_kept_all_orders.
  by apply range_all_allocated_orders.
Qed.

(** X3. [GetAllDrivers] and [GetAllOrders] return one pointer per stored
    ID, in iteration order: behind the pointers are the records held
    under the IDs of the iteration, there are as many as the map has
    entries, the cells are pairwise distinct and did not exist before, and
    the store's maps and records are as they were. *)
Theorem list_all (kvs : list (string * ptr)) (s : State) :
  closed s ->
  (range_of (drivers s) kvs ->
     exists s' ps,
       StateManager.GetAllDrivers kvs s = Some (s', ps) /\
       (fun q => dcell s' !! q) <$> ps = (fun k => driver_at s k) <$> kvs.*1 /\
       length ps = size (drivers s) /\
       NoDup ps /\ Forall (fun q => dcell s !! q = None) ps /\
       drivers s' = drivers s /\ orders s' = orders s /\
       driver_same s s' /\ order_same s s') /\
  (range_of (orders s) kvs ->
     exists s' ps,
       StateManager.GetAllOrders kvs s = Some (s', ps) /\
       (fun q => ocell s' !! q) <$> ps = (fun k => order_at s k) <$> kvs.*1 /\
       length ps = size (orders s) /\
       NoDup ps /\ Forall (fun q => ocell s !! q = None) ps /\
       drivers s' = drivers s /\ orders s' = orders s /\
       driver_same s s' /\ order_same s s').
Proof.
  intros Hc. split; intros Hr.
  - destruct (range_drivers_records (fun _ => true) kvs s Hc Hr)
      as (s' & out & Hrun & Hext & _ & Hk & Hrec & Hnd & Hfresh).
    rewrite filter_kept_true_drivers in Hk, Hrec by done.
    exists s', out.*2. unfold StateManager.GetAllDrivers. rewrite Hrun.
    pose proof Hext as (Hdm & Hom & _).
    split_and!; try done.
    + rewrite <- (range_of_length _ _ Hr).
      by rewrite length_fmap, <- (length_fmap fst out), Hk, length_fmap.
    + by apply extends_driver_same.
    + by apply extends_order_same.
  - destruct (range_orders_records (fun _ => true) kvs s Hc Hr)
      as (s' & out & Hrun & Hext & _ & Hk & Hrec & Hnd & Hfresh).
    rewrite filter_kept_true_orders in Hk, Hrec by done.
    exists s', out.*2. unfold StateManager.GetAllOrders. rewrite Hrun.
    pose proof Hext as (Hdm & Hom & _).
    split_and!; try done.
    + rewrite <- (range_of_length _ _ Hr).
      by rewrite length_fmap, <- (length_fmap fst out), Hk, length_fmap.
    + by apply extends_driver_same.
    + by apply extends_order_same.
Qed.

Lemma list_all_witness :
  (exists s' ps,
     StateManager.GetAllDrivers (map_to_list (drivers Sample.store))
       Sample.store = Some (s', ps) /\
     (fun q => dcell s' !! q) <$> ps
       = (fun k => driver_at Sample.store k)
           <$> (map_to_list (drivers Sample.store)).*1 /\
     length ps = size (drivers Sample.store) /\
     NoDup ps /\ Forall (fun q => dcell Sample.store !! q = None) ps /\
     drivers s' = drivers Sample.store /\ orders s' = orders Sample.store /\
     driver_same Sample.store s' /\ order_same Sample.store s') /\
  (exists s' ps,
     StateManager.GetAllOrders (map_to_list (orders Sample.store))
       Sample.store = Some (s', ps) /\
     (fun q => ocell s' !! q) <$> ps
       = (fun k => order_at Sample.store k)
           <$> (map_to_list (orders Sample.store)).*1 /\
     length ps = size (orders Sample.store) /\
     NoDup ps /\ Forall (fun q => ocell Sample.store !! q = None) ps /\
     drivers s' = drivers Sample.store /\ orders s' = orders Sample.store /\
     driver_same Sample.store s' /\ order_same Sample.store s').
Proof.
  split.
  - apply (list_all _ Sample.store closed_Sample_store).
    unfold range_of. reflexivity.
  - apply (list_all _ Sample.store closed_Sample_store).
    unfold range_of. reflexivity.
Defined.

(** X4. [GetPendingOrders] returns copies of exactly the orders the store
    holds with status [pending], one each, in iteration order, and
    [GetAvailableDrivers] copies of exactly the drivers it holds with
    status [available]; the store's maps and records are as they were. *)
Theorem list_filtered (kvs : list (string * ptr)) (s : State) :
  closed s ->
  (range_of (orders s) kvs ->
     exists s' ps,
       StateManager.GetPendingOrders kvs s = Some (s', ps) /\
       (fun q => ocell s' !! q) <$> ps
         = (fun k => order_at s k) <$> pending_IDs s kvs /\
       NoDup (pending_IDs s kvs) /\
       (forall id, id ∈ pending_IDs s kvs <->
          exists o, order_at s id = Some o /\ Order.Status o = OrderPending) /\
       NoDup ps /\ Forall (fun q => ocell s !! q = None) ps /\
       driver_same s s' /\ order_same s s') /\
  (range_of (drivers s) kvs ->
     exists s' ps,
       StateManager.GetAvailableDrivers kvs s = Some (s', ps) /\
       (fun q => dcell s' !! q) <$> ps
         = (fun k => driver_at s k) <$> available_IDs s kvs /\
       NoDup (available_IDs s kvs) /\
       (forall id, id ∈ available_IDs s kvs <->
          exists d, driver_at s id = Some d /\
                    Driver.Status d = DriverAvailable) /\
       NoDup ps /\ Forall (fun q => dcell s !! q = None) ps /\
       driver_same s s' /\ order_same s s').
Proof.
  intros Hc. split; intros Hr.
  - destruct (range_orders_records
                (fun o => bool_decide (Order.Status o = OrderPending)) kvs s
                Hc Hr)
      as (s' & out & Hrun & Hext & _ & Hk & Hrec & Hnd & Hfresh).
    destruct (pending_IDs_spec s kvs Hr) as [Hndi Hin].
    exists s', out.*2. unfold StateManager.GetPendingOrders. rewrite Hrun.
    split_and!; try done.
    + by apply extends_driver_same.
    + by apply extends_order_same.
  - destruct (range_drivers_records
                (fun d => bool_decide (Driver.Status d = DriverAvailable))
                kvs s Hc Hr)
      as (s' & out & Hrun & Hext & _ & Hk & Hrec & Hnd & Hfresh).
    destruct (available_IDs_spec s kvs Hr) as [Hndi Hin].
    exists s', out.*2. unfold StateManager.GetAvailableDrivers. rewrite Hrun.
    split_and!; try done.
    + by apply extends_driver_same.
    + by apply extends_order_same.
Qed.

Lemma list_filtered_witness :
  exists s' ps,
    StateManager.GetPendingOrders (map_to_list (orders Sample.store))
      Sample.store = Some (s', ps) /\
    (fun q => ocell s' !! q) <$> ps
      = (fun k => order_at Sample.store k)
          <$> pending_IDs Sample.store (map_to_list (orders Sample.store)) /\
    NoDup (pending_IDs Sample.store (map_to_list (orders Sample.store))) /\
    (forall id,
       id ∈ pending_IDs Sample.store (map_to_list (orders Sample.store)) <->
       exists o, order_at Sample.store id = Some o /\
                 Order.Status o = OrderPending) /\
    NoDup ps /\ Forall (fun q => ocell Sample.store !! q = None) ps /\
    driver_same Sample.store s' /\ order_same Sample.store s'.
Proof.
  apply (list_filtered _ Sample.store closed_Sample_store).
  unfold range_of. reflexivity.
Defined.

(** ** Status updates: errors *)

(** X5. Both status updates, of an order and of a driver, check the
    status first and the ID second: an unrecognized status is rejected
    with [ErrInvalidStatusUpdate] whether or not the ID exists, a
    recognized status for an unknown ID with the not-found error; every rejection returns the state untouched, no other
    error can come out, and an order's status update succeeds only for a
    stored order and along an edge of the transition graph. *)
Theorem status_update_errors (now : Z) (id st : string) (s : State) :
  (st ∉ recognized_order_statuses ->
     StateManager.UpdateOrderStatus now id st s
       = Some (s, Some ErrInvalidStatusUpdate)) /\
  (st ∈ recognized_order_statuses -> orders s !! id = None ->
     StateManager.UpdateOrderStatus now id st s
       = Some (s, Some ErrOrderNotFound)) /\
  (st ∈ recognized_driver_statuses -> drivers s !! id = None ->
     StateManager.UpdateDriverStatus now id st s
       = Some (s, Some ErrDriverNotFound)) /\
  (forall s' e, StateManager.UpdateDriverStatus now id st s = Some (s', Some e) ->
     s' = s /\ (e = ErrInvalidStatusUpdate \/ e = ErrDriverNotFound)) /\
  (forall s' e, StateManager.UpdateOrderStatus now id st s = Some (s', Some e) ->
     s' = s /\ (e = ErrInvalidStatusUpdate \/ e = ErrOrderNotFound \/
                e = ErrInvalidTransition)) /\
  (forall s', StateManager.UpdateOrderStatus now id st s = Some (s', None) ->
     exists o, order_at s id = Some o /\ (Order.Status o, st) ∈ edges) /\
  (forall s', StateManager.UpdateDriverStatus now id st s = Some (s', None) ->
     st ∈ recognized_driver_statuses /\ is_Some (driver_at s id)) /\
  (st ∉ recognized_driver_statuses ->
     StateManager.UpdateDriverStatus now id st s
       = Some (s, Some ErrInvalidStatusUpdate)).
Proof.
  unfold StateManager.UpdateOrderStatus, StateManager.UpdateDriverStatus,
    order_at, driver_at.
  split_and!; cycle -1.
  - intros H. rewrite <- IsValidDriverStatus_recognized in H.
    apply not_true_is_false in H. by rewrite H.
  - intros H. rewrite <- IsValidOrderStatus_recognized in H.
    apply not_true_is_false in H. by rewrite H.
  - intros H Hid. apply IsValidOrderStatus_recognized in H.
    by rewrite H, Hid.
  - intros H Hid. apply IsValidDriverStatus_recognized in H.
    by rewrite H, Hid.
  - intros s' e. destruct (IsValidDriverStatus st); simpl;
      [|intros [= <- <-]; auto].
    destruct (drivers s !! id) as [p|]; [|intros [= <- <-]; auto].
    by destruct (dcell s !! p).
  - intros s' e. destruct (IsValidOrderStatus st); simpl;
      [|intros [= <- <-]; auto].
    destruct (orders s !! id) as [p|]; [|intros [= <- <-]; auto].
    destruct (ocell s !! p) as [o|]; [|done].
    destruct (CanTransitionOrderStatus _ st); simpl; [done|].
    intros [= <- <-]; auto.
  - intros s'. destruct (IsValidOrderStatus st); simpl; [|done].
    destruct (orders s !! id) as [p|]; [|done]. simpl.
    destruct (ocell s !! p) as [o|]; [|done].
    destruct (CanTransitionOrderStatus _ st) eqn:Hcan; simpl; [|done].
    intros _. exists o. split; [done|].
    by apply CanTransitionOrderStatus_edges.
  - intros s'. destruct (IsValidDriverStatus st) eqn:Hv; simpl; [|done].
    destruct (drivers s !! id) as [p|]; [|done]. simpl.
    destruct (dcell s !! p) as [d|]; [|done]. intros _.
    split; [by apply IsValidDriverStatus_recognized | eauto].
Qed.

Lemma status_update_errors_witness :
  StateManager.UpdateOrderStatus 30 "o7" "shipped" Sample.store
    = Some (Sample.store, Some ErrInvalidStatusUpdate) /\
  StateManager.UpdateOrderStatus 30 "o7" OrderCanceled Sample.store
    = Some (Sample.store, Some ErrOrderNotFound) /\
  StateManager.UpdateDriverStatus 30 "d7" DriverOffline Sample.store
    = Some (Sample.store, Some ErrDriverNotFound) /\
  (exists o, order_at Sample.store "o1" = Some o /\
             (Order.Status o, OrderCanceled) ∈ edges) /\
  StateManager.UpdateDriverStatus 30 "d7" "flying" Sample.store
    = Some (Sample.store, Some ErrInvalidStatusUpdate) /\
  StateManager.UpdateDriverStatus 30 "d1" "flying" Sample.store
    = Some (Sample.store, Some ErrInvalidStatusUpdate).
Proof.
  destruct (status_update_errors 30 "d7" "flying" Sample.store)
    as (_ & _ & _ & _ & _ & _ & _ & H8).
  destruct (status_update_errors 30 "d1" "flying" Sample.store)
    as (_ & _ & _ & _ & _ & _ & _ & H9).
  destruct (status_update_errors 30 "o7" "shipped" Sample.store) as (H1 & _).
  destruct (status_update_errors 30 "o7" OrderCanceled Sample.store)
    as (_ & H2 & _).
  destruct (status_update_errors 30 "d7" DriverOffline Sample.store)
    as (_ & _ & H3 & _).
  destruct (status_update_errors 30 "o1" OrderCanceled Sample.store)
    as (_ & _ & _ & _ & _ & H6 & _).
  split_and!.
  - apply H1. rewrite <- IsValidOrderStatus_recognized. vm_compute.
    discriminate.
  - apply H2; [apply IsValidOrderStatus_recognized|]; reflexivity.
  - apply H3; [apply IsValidDriverStatus_recognized|]; reflexivity.
  - apply (H6 (default Sample.store
                 (run (OpUpdateOrderStatus 30 "o1" OrderCanceled)
                    Sample.store))).
    vm_compute. reflexivity.
  - apply H8. rewrite <- IsValidDriverStatus_recognized. vm_compute.
    discriminate.
  - apply H9. rewrite <- IsValidDriverStatus_recognized. vm_compute.
    discriminate.
Defined.

(** ** Writes touch only what they name *)

(** X6. One operation changes the record held under an ID only if the
    operation is aimed at that ID: the submitted record's ID for the two
    create paths, the ID argument for the status updates, the two
    arguments for the assignment. Reads change no record, and no operation
    changes a record of the other kind than the one it names. *)
Theorem writes_touch_only_their_target (o : op) (s s' : State) :
  wf s -> run o s = Some s' ->
  (forall k, driver_at s' k <> driver_at s k -> targets_driver s o k) /\
  (forall k, order_at s' k <> order_at s k -> targets_order s o k).
Proof.
  intros Hwf Hrun. destruct (run_effect o s s' Hwf Hrun) as [_ Heff].
  destruct Heff
    as [ o Hds Hos
       | now p d0 Hcell Hid Hname Hvalid Hdp Hos
       | now id st d0 Hd0 Hvalid Hdp Hos
       | now p o0 Hcell Hid Hcust Hop Hds
       | now id st o0 Ho0 Hcan Hop Hds
       | now1 now2 oid0 did0 o0 d0 Ho0 Hd0 Hpend Havail Hop Hdp ];
    split; intros k Hk; simpl;
    repeat match goal with
      | H : driver_same _ _ |- _ => rewrite (H k) in Hk; clear H
      | H : order_same _ _ |- _ => rewrite (H k) in Hk; clear H
      | H : driver_put _ _ _ _ |- _ => rewrite (H k) in Hk; clear H
      | H : order_put _ _ _ _ |- _ => rewrite (H k) in Hk; clear H
      end;
    try done; try (case_decide; [|done]); eauto.
Qed.

Lemma writes_touch_only_their_target_witness :
  (forall k,
     driver_at (default Sample.store
                  (run (OpAssignOrderToDriver 20 21 "o1" "d1") Sample.store)) k
       <> driver_at Sample.store k -> k = "d1") /\
  (forall k,
     order_at (default Sample.store
                 (run (OpAssignOrderToDriver 20 21 "o1" "d1") Sample.store)) k
       <> order_at Sample.store k -> k = "o1").
Proof.
  apply (writes_touch_only_their_target
           (OpAssignOrderToDriver 20 21 "o1" "d1") Sample.store).
  - apply reachable_wf, reachable_Sample_store.
  - vm_compute. reflexivity.
Defined.

(** ** An assignment excludes the next one *)

Lemma AssignOrderToDriver_success_inv (now1 now2 : Z) (oid did : string)
    (s s' : State) :
  StateManager.AssignOrderToDriver now1 now2 oid did s = Some (s', None) ->
  exists po pd o d,
    orders s !! oid = Some po /\ drivers s !! did = Some pd /\
    ocell s !! po = Some o /\ dcell s !! pd = Some d /\
    Order.Status o = OrderPending /\ Driver.Status d = DriverAvailable /\
    s' = upd_dcell <[pd := Driver.set_UpdatedAt now2
                             (Driver.set_Status DriverBusy d)]>
           (upd_ocell <[po := Order.set_UpdatedAt now1
                                (Order.set_DriverID did
                                   (Order.set_Status OrderAssigned o))]> s).
Proof.
  unfold StateManager.AssignOrderToDriver.
  destruct (orders s !! oid) as [po|] eqn:Hpo; [|done].
  destruct (drivers s !! did) as [pd|] eqn:Hpd; [|done].
  destruct (ocell s !! po) as [o|] eqn:Ho; [|done].
  case_bool_decide as Hst; simpl; [|done].
  destruct (dcell s !! pd) as [d|] eqn:Hd; [|done].
  case_bool_decide as Hds; simpl; [|done].
  intros [= <-]. by exists po, pd, o, d.
Qed.

(** X7. After a successful assignment of order [oid] to driver [did],
    every further assignment that names that driver or that order fails
    and changes nothing: a pending order offered to the same driver gets
    [ErrDriverNotAvailable], and the same order offered to any stored
    driver gets [ErrOrderAlreadyAssigned]. *)
Theorem assignment_excludes_the_next (now1 now2 : Z) (oid did : string)
    (s s1 : State) :
  closed s ->
  StateManager.AssignOrderToDriver now1 now2 oid did s = Some (s1, None) ->
  (forall m1 m2 oid2, exists e,
     StateManager.AssignOrderToDriver m1 m2 oid2 did s1 = Some (s1, Some e)) /\
  (forall m1 m2 oid2 r2,
     order_at s1 oid2 = Some r2 -> Order.Status r2 = OrderPending ->
     StateManager.AssignOrderToDriver m1 m2 oid2 did s1
       = Some (s1, Some ErrDriverNotAvailable)) /\
  (forall m1 m2 did2, exists e,
     StateManager.AssignOrderToDriver m1 m2 oid did2 s1 = Some (s1, Some e)) /\
  (forall m1 m2 did2, is_Some (drivers s1 !! did2) ->
     StateManager.AssignOrderToDriver m1 m2 oid did2 s1
       = Some (s1, Some ErrOrderAlreadyAssigned)).
Proof.
  intros Hc Hrun.
  pose proof (AssignOrderToDriver_closed _ _ _ _ _ _ _ Hrun Hc) as [_ Hc1].
  destruct (AssignOrderToDriver_success_inv _ _ _ _ _ _ Hrun)
    as (po & pd & o & d & Hpo & Hpd & Ho & Hd & Hst & Hds & Hs1).
  assert (Hpo1 : orders s1 !! oid = Some po) by (by subst s1).
  assert (Hpd1 : drivers s1 !! did = Some pd) by (by subst s1).
  assert (Ho1 : exists o', ocell s1 !! po = Some o' /\
                  Order.Status o' = OrderAssigned).
  { subst s1. eexists. split; [apply lookup_insert_eq|done]. }
  assert (Hd1 : exists d', dcell s1 !! pd = Some d' /\
                  Driver.Status d' = DriverBusy).
  { subst s1. eexists. split; [apply lookup_insert_eq|done]. }
  clear Hs1.
  destruct Ho1 as (o' & Ho1 & Hst1). destruct Hd1 as (d' & Hd1 & Hds1).
  assert (Hbusy : forall m1 m2 oid2 r2,
            order_at s1 oid2 = Some r2 -> Order.Status r2 = OrderPending ->
            StateManager.AssignOrderToDriver m1 m2 oid2 did s1
              = Some (s1, Some ErrDriverNotAvailable)).
  { intros m1 m2 oid2 r2 Hr2 Hp2. unfold StateManager.AssignOrderToDriver.
    unfold order_at in Hr2.
    destruct (orders s1 !! oid2) as [p2|]; [|done]. simpl in Hr2.
    rewrite Hpd1, Hr2, (bool_decide_eq_true_2 _ Hp2), Hd1. simpl.
    rewrite bool_decide_eq_false_2; [done|]. rewrite Hds1. discriminate. }
  assert (Htaken : forall m1 m2 did2, is_Some (drivers s1 !! did2) ->
            StateManager.AssignOrderToDriver m1 m2 oid did2 s1
              = Some (s1, Some ErrOrderAlreadyAssigned)).
  { intros m1 m2 did2 [p2 Hp2]. unfold StateManager.AssignOrderToDriver.
    rewrite Hpo1, Hp2, Ho1.
    rewrite bool_decide_eq_false_2; [done|]. rewrite Hst1. discriminate. }
  split_and!; try done.
  - intros m1 m2 oid2.
    destruct (orders s1 !! oid2) as [p2|] eqn:Hp2.
    + destruct (Hc1 _ _ Hp2) as [r2 Hr2].
      destruct (decide (Order.Status r2 = OrderPending)) as [Hpend|Hpend].
      * rewrite (Hbusy m1 m2 oid2 r2); eauto.
        unfold order_at. by rewrite Hp2.
      * unfold StateManager.AssignOrderToDriver.
        rewrite Hp2, Hpd1, Hr2, (bool_decide_eq_false_2 _ Hpend). eauto.
    + unfold StateManager.AssignOrderToDriver. rewrite Hp2. eauto.
  - intros m1 m2 did2. destruct (drivers s1 !! did2) as [p2|] eqn:Hp2.
    + rewrite (Htaken m1 m2 did2); eauto.
    + unfold StateManager.AssignOrderToDriver. rewrite Hpo1, Hp2. eauto.
Qed.

Lemma assignment_excludes_the_next_witness :
  StateManager.AssignOrderToDriver 30 31 "o3" "d1"
    (default NewStateManager
       (run (OpAssignOrderToDriver 20 21 "o1" "d1")
          (Sample.after Sample.two_pending)))
  = Some (default NewStateManager
            (run (OpAssignOrderToDriver 20 21 "o1" "d1")
               (Sample.after Sample.two_pending)),
          Some ErrDriverNotAvailable) /\
  StateManager.AssignOrderToDriver 30 31 "o1" "d1"
    (default NewStateManager
       (run (OpAssignOrderToDriver 20 21 "o1" "d1")
          (Sample.after Sample.two_pending)))
  = Some (default NewStateManager
            (run (OpAssignOrderToDriver 20 21 "o1" "d1")
               (Sample.after Sample.two_pending)),
          Some ErrOrderAlreadyAssigned).
Proof.
  destruct (assignment_excludes_the_next 20 21 "o1" "d1"
              (Sample.after Sample.two_pending)
              (default NewStateManager
                 (run (OpAssignOrderToDriver 20 21 "o1" "d1")
                    (Sample.after Sample.two_pending))))
    as (_ & H2 & _ & H4).
  - apply closed_of_wf, reachable_wf, reachable_after. vm_compute. eauto.
  - vm_compute. reflexivity.
  - split.
    + apply (H2 30 31 "o3"
               (Order.mk "o3" "Finn" Sample.origin Sample.depot
                  OrderPending "" 13 13));
        vm_compute; reflexivity.
    + apply H4. vm_compute. eauto.
Defined.

(** ** Nothing is ever removed *)

Lemma run_all_wf (os : list op) (s s' : State) :
  wf s -> run_all os s = Some s' -> wf s'.
Proof.
  revert s. induction os as [|o os IH]; intros s Hwf; simpl.
  - by intros [= <-].
  - destruct (run o s) as [s1|] eqn:Hrun; [|done].
    apply IH. by destruct (run_effect o s s1 Hwf Hrun).
Qed.

Lemma effect_keeps_orders (o : op) (s s' : State) (k : string) :
  effect s s' o -> is_Some (order_at s k) -> is_Some (order_at s' k).
Proof.
  intros Heff Hk.
  inversion Heff; subst;
    repeat match goal with
      | H : order_same _ _ |- _ => rewrite (H k)
      | H : order_put _ _ _ _ |- _ => rewrite (H k); case_decide
      end; eauto.
Qed.

(** X8. The store has no deletion: along any sequence of operations, an ID
    under which a driver (an order) is held keeps holding a driver (an
    order). *)
Theorem records_persist (os : list op) (s s' : State) :
  wf s -> run_all os s = Some s' ->
  (forall k, is_Some (driver_at s k) -> is_Some (driver_at s' k)) /\
  (forall k, is_Some (order_at s k) -> is_Some (order_at s' k)).
Proof.
  revert s. induction os as [|o os IH]; intros s Hwf; simpl.
  - by intros [= <-].
  - destruct (run o s) as [s1|] eqn:Hrun; [|done]. intros Hrest.
    destruct (run_effect o s s1 Hwf Hrun) as [Hwf1 Heff].
    destruct (IH s1 Hwf1 Hrest) as [Hd Ho].
    split; intros k Hk.
    + by apply Hd, (effect_keeps_drivers o s).
    + by apply Ho, (effect_keeps_orders o s).
Qed.

Lemma records_persist_witness :
  (forall k, is_Some (driver_at Sample.store k) ->
     is_Some (driver_at
                (default Sample.store
                   (run_all [OpUpdateOrderStatus 30 "o1" OrderCanceled;
                             OpUpdateDriverStatus 31 "d1" DriverOffline]
                      Sample.store)) k)) /\
  (forall k, is_Some (order_at Sample.store k) ->
     is_Some (order_at
                (default Sample.store
                   (run_all [OpUpdateOrderStatus 30 "o1" OrderCanceled;
                             OpUpdateDriverStatus 31 "d1" DriverOffline]
                      Sample.store)) k)).
Proof.
  apply (records_persist
           [OpUpdateOrderStatus 30 "o1" OrderCanceled;
            OpUpdateDriverStatus 31 "d1" DriverOffline] Sample.store).
  - apply reachable_wf, reachable_Sample_store.
  - vm_compute. reflexivity.
Defined.

(** ** What validation guarantees of every stored record *)

Lemma edges_target_recognized (from to : OrderStatus) :
  (from, to) ∈ edges -> to ∈ recognized_order_statuses.
Proof.
  unfold edges, recognized_order_statuses.
  rewrite !elem_of_cons, !elem_of_nil.
  intros H; repeat destruct H as [H|H]; try done;
    injection H as -> ->; tauto.
Qed.

Lemma valid_records_step (o : op) (s s' : State) :
  effect s s' o -> valid_records s -> valid_records s'.
Proof.
  intros Heff [Hvd Hvo].
  destruct Heff
    as [ o Hds Hos
       | now p d0 Hcell Hid Hname Hvalid Hdp Hos
       | now id st d0 Hd0 Hvalid Hdp Hos
       | now p o0 Hcell Hid Hcust Hop Hds
       | now id st o0 Ho0 Hcan Hop Hds
       | now1 now2 oid0 did0 o0 d0 Ho0 Hd0 Hpend Havail Hop Hdp ];
    split; intros k r Hr;
    repeat match goal with
      | H : driver_same _ _ |- _ => rewrite (H k) in Hr; clear H
      | H : order_same _ _ |- _ => rewrite (H k) in Hr; clear H
      | H : driver_put _ _ _ _ |- _ => rewrite (H k) in Hr; clear H
      | H : order_put _ _ _ _ |- _ => rewrite (H k) in Hr; clear H
      end;
    try (by apply Hvd); try (by apply Hvo);
    (case_decide as Hk; [|by (apply Hvd || apply Hvo)]);
    injection Hr as <-; subst k.
  - split_and!; simpl; try done. by apply IsValidDriverStatus_recognized.
  - destruct (Hvd _ _ Hd0) as (? & ? & ? & ?).
    split_and!; simpl; try done. by apply IsValidDriverStatus_recognized.
  - split_and!; simpl; try done.
    apply IsValidOrderStatus_recognized. reflexivity.
  - destruct (Hvo _ _ Ho0) as (? & ? & ? & ?).
    split_and!; simpl; try done.
    apply CanTransitionOrderStatus_edges in Hcan.
    by eapply edges_target_recognized.
  - destruct (Hvd _ _ Hd0) as (? & ? & ? & ?).
    split_and!; simpl; try done.
    apply IsValidDriverStatus_recognized. reflexivity.
  - destruct (Hvo _ _ Ho0) as (? & ? & ? & ?).
    split_and!; simpl; try done.
    apply IsValidOrderStatus_recognized. reflexivity.
Qed.

(** X9. In every state reachable from the empty store, every driver and
    every order is held under its own ID, the ID and the name (the
    customer) are non-empty, and the status is one of the recognized
    ones: no sequence of operations gets an unvalidated record into the
    store. *)
Theorem reachable_records_valid (s : State) :
  reachable s -> valid_records s.
Proof.
  induction 1 as [|s o s' Hs IH _ Hrun].
  - split; intros id r Hr; unfold driver_at, order_at in Hr; simpl in Hr;
      by rewrite lookup_empty in Hr.
  - destruct (run_effect o s s' (reachable_wf s Hs) Hrun) as [_ Heff].
    by eapply valid_records_step.
Qed.

Lemma reachable_records_valid_witness :
  valid_driver "d1" (Driver.mk "d1" "Alice" DriverAvailable Sample.depot 10) /\
  valid_order "o2"
    (Order.mk "o2" "Erin" Sample.origin Sample.depot OrderCanceled "" 13 14).
Proof.
  destruct (reachable_records_valid Sample.store reachable_Sample_store)
    as [Hd Ho].
  split; [apply Hd | apply Ho]; vm_compute; reflexivity.
Defined.

(** ** How a stored order's status and fields can change *)

Lemma terminal_has_no_edge (from to : OrderStatus) :
  from ∈ terminal -> (from, to) ∉ edges.
Proof.
  unfold terminal. rewrite !elem_of_cons, elem_of_nil.
  rewrite <- CanTransitionOrderStatus_edges.
  intros [->|[->|[]]]; by vm_compute.
Qed.

(** X10. One operation changes the status of a stored order only along an
    edge of the transition graph, or, for a [CreateOrder] that submits the
    ID again, back to [pending]; so a delivered or canceled order is left
    exactly as it is by every operation other than [CreateOrder]. *)
Theorem order_status_moves_along_edges (o : op) (s s' : State)
    (id : string) (r r' : Order.t) :
  wf s -> run o s = Some s' ->
  order_at s id = Some r -> order_at s' id = Some r' ->
  (Order.Status r' = Order.Status r \/
   (Order.Status r, Order.Status r') ∈ edges \/
   (is_CreateOrder o /\ targets_order s o id /\
    Order.Status r' = OrderPending)) /\
  (Order.Status r ∈ terminal -> ~ is_CreateOrder o -> r' = r).
Proof.
  intros Hwf Hrun Hr Hr'. destruct (run_effect o s s' Hwf Hrun) as [_ Heff].
  destruct Heff
    as [ o Hds Hos
       | now p d0 Hcell Hid Hname Hvalid Hdp Hos
       | now id0 st d0 Hd0 Hvalid Hdp Hos
       | now p o0 Hcell Hid Hcust Hop Hds
       | now id0 st o0 Ho0 Hcan Hop Hds
       | now1 now2 oid0 did0 o0 d0 Ho0 Hd0 Hpend Havail Hop Hdp ];
    repeat match goal with
      | H : order_same _ _ |- _ => rewrite (H id) in Hr'; clear H
      | H : order_put _ _ _ _ |- _ => rewrite (H id) in Hr'; clear H
      end;
    try (assert (r' = r) by congruence; subst r'; split; [by left|done]);
    (case_decide as Hk;
     [|assert (r' = r) by congruence; subst r'; split; [by left|done]]);
    injection Hr' as <-; subst id; simpl.
  - split; [|by intros _ []]. right. right. split_and!; eauto.
  - assert (o0 = r) by congruence. subst o0.
    apply CanTransitionOrderStatus_edges in Hcan. split; [by auto|].
    intros Hterm _. exfalso. by apply (terminal_has_no_edge _ st Hterm).
  - assert (o0 = r) by congruence. subst o0. split.
    + right. left. rewrite Hpend. unfold edges. apply elem_of_cons. by left.
    + rewrite Hpend. unfold terminal. rewrite !elem_of_cons, !elem_of_nil.
      intros [Ht|[Ht|[]]]; discriminate.
Qed.

Lemma order_status_moves_along_edges_witness :
  (OrderCanceled = OrderPending \/
   (OrderPending, OrderCanceled) ∈ edges \/
   (is_CreateOrder (OpUpdateOrderStatus 30 "o1" OrderCanceled) /\
    targets_order Sample.store (OpUpdateOrderStatus 30 "o1" OrderCanceled)
      "o1" /\
    OrderCanceled = OrderPending)) /\
  (OrderPending ∈ terminal ->
   ~ is_CreateOrder (OpUpdateOrderStatus 30 "o1" OrderCanceled) ->
   Order.mk "o1" "Bob" Sample.depot Sample.origin OrderCanceled "" 12 30
   = Order.mk "o1" "Bob" Sample.depot Sample.origin OrderPending "" 12 12).
Proof.
  apply (order_status_moves_along_edges
           (OpUpdateOrderStatus 30 "o1" OrderCanceled) Sample.store
           (default Sample.store
              (run (OpUpdateOrderStatus 30 "o1" OrderCanceled) Sample.store))
           "o1"
           (Order.mk "o1" "Bob" Sample.depot Sample.origin
              OrderPending "" 12 12)
           (Order.mk "o1" "Bob" Sample.depot Sample.origin
              OrderCanceled "" 12 30)).
  - apply reachable_wf, reachable_Sample_store.
  - vm_compute. reflexivity.
  - vm_compute. reflexivity.
  - vm_compute. reflexivity.
Defined.

(** X11. The status updates and the assignment rewrite the status, the
    driver reference and the update stamp and nothing else: an operation
    other than [CreateOrder] leaves a stored order's ID, customer, pickup,
    dropoff and creation stamp as they are, and an operation other than
    [UpsertDriver] leaves a stored driver's ID, name and location as they
    are. *)
Theorem identifying_fields_are_kept (o : op) (s s' : State) (id : string) :
  wf s -> run o s = Some s' ->
  (forall r r', order_at s id = Some r -> order_at s' id = Some r' ->
     ~ is_CreateOrder o ->
     Order.ID r' = Order.ID r /\ Order.Customer r' = Order.Customer r /\
     Order.Pickup r' = Order.Pickup r /\ Order.Dropoff r' = Order.Dropoff r /\
     Order.CreatedAt r' = Order.CreatedAt r) /\
  (forall d d', driver_at s id = Some d -> driver_at s' id = Some d' ->
     ~ is_CreateOrUpdateDriver o ->
     Driver.ID d' = Driver.ID d /\ Driver.Name d' = Driver.Name d /\
     Driver.Loc d' = Driver.Loc d).
Proof.
  intros Hwf Hrun. destruct (run_effect o s s' Hwf Hrun) as [_ Heff].
  destruct Heff
    as [ o Hds Hos
       | now p d0 Hcell Hid Hname Hvalid Hdp Hos
       | now id0 st d0 Hd0 Hvalid Hdp Hos
       | now p o0 Hcell Hid Hcust Hop Hds
       | now id0 st o0 Ho0 Hcan Hop Hds
       | now1 now2 oid0 did0 o0 d0 Ho0 Hd0 Hpend Havail Hop Hdp ];
    split; intros r r' Hr Hr' Hnot; simpl in Hnot; try (by destruct Hnot);
    repeat match goal with
      | H : order_same _ _ |- _ => rewrite (H id) in Hr'; clear H
      | H : driver_same _ _ |- _ => rewrite (H id) in Hr'; clear H
      | H : order_put _ _ _ _ |- _ => rewrite (H id) in Hr'; clear H
      | H : driver_put _ _ _ _ |- _ => rewrite (H id) in Hr'; clear H
      end;
    try (assert (r' = r) by congruence; by subst r');
    (case_decide as Hk; [|assert (r' = r) by congruence; by subst r']);
    injection Hr' as <-; subst id; simpl;
    match goal with
    | H1 : ?f s ?k = Some ?a, H2 : ?f s ?k = Some ?b |- _ =>
        assert (a = b) by congruence; subst a
    end; done.
Qed.

Lemma identifying_fields_are_kept_witness :
  Order.ID (Order.mk "o1" "Bob" Sample.depot Sample.origin
              OrderAssigned "d1" 12 20) = "o1" /\
  Order.Customer (Order.mk "o1" "Bob" Sample.depot Sample.origin
                    OrderAssigned "d1" 12 20) = "Bob" /\
  Order.Pickup (Order.mk "o1" "Bob" Sample.depot Sample.origin
                  OrderAssigned "d1" 12 20) = Sample.depot /\
  Order.Dropoff (Order.mk "o1" "Bob" Sample.depot Sample.origin
                   OrderAssigned "d1" 12 20) = Sample.origin /\
  Order.CreatedAt (Order.mk "o1" "Bob" Sample.depot Sample.origin
                     OrderAssigned "d1" 12 20) = 12.
Proof.
  destruct (identifying_fields_are_kept
              (OpAssignOrderToDriver 20 21 "o1" "d1") Sample.store
              (default Sample.store
                 (run (OpAssignOrderToDriver 20 21 "o1" "d1") Sample.store))
              "o1") as [Ho _].
  - apply reachable_wf, reachable_Sample_store.
  - vm_compute. reflexivity.
  - apply (Ho (Order.mk "o1" "Bob" Sample.depot Sample.origin
                 OrderPending "" 12 12)
              (Order.mk "o1" "Bob" Sample.depot Sample.origin
                 OrderAssigned "d1" 12 20));
      [ vm_compute; reflexivity | vm_compute; reflexivity | simpl; tauto ].
Defined.

(** ** Snapshots *)

(** X12. [GetSnapshot] on any store without dangling pointers returns, and
    what it returns carries the clock reading it was given and shows under
    every ID exactly the record the store holds under that ID; no pointer
    of the snapshot is the address of a cell that existed before, and the
    store's maps and records are as they were. *)
Theorem snapshot_is_faithful (now : Z) (kd ko : list (string * ptr))
    (s : State) :
  closed s -> range_of (drivers s) kd -> range_of (orders s) ko ->
  exists s' snap,
    StateManager.GetSnapshot now kd ko s = Some (s', snap) /\
    StateManager.Timestamp snap = now /\
    (forall id, StateManager.Drivers snap !! id ≫= (fun q => dcell s' !! q)
                = driver_at s id) /\
    (forall id, StateManager.Orders snap !! id ≫= (fun q => ocell s' !! q)
                = order_at s id) /\
    (forall id q, StateManager.Drivers snap !! id = Some q ->
                  dcell s !! q = None) /\
    (forall id q, StateManager.Orders snap !! id = Some q ->
                  ocell s !! q = None) /\
    drivers s' = drivers s /\ orders s' = orders s /\
    driver_same s s' /\ order_same s s'.
Proof.
  intros Hc Hkd Hko.
  destruct (GetSnapshot_faithful now kd ko s Hc Hkd Hko)
    as (s' & snap & Hsnap & Hext & Hts & Hdv & Hov).
  exists s', snap. pose proof Hext as (Hdm & Hom & _).
  split_and!; try done.
  - intros id q Hq. unfold StateManager.GetSnapshot in Hsnap.
    destruct (range_drivers_records (fun _ => true) kd s Hc Hkd)
      as (s1 & outd & Hr1 & _ & _ & _ & _ & _ & Hfresh).
    rewrite Hr1 in Hsnap.
    destruct (StateManager.range_orders _ ko s1) as [[s2 outo]|]; [|done].
    injection Hsnap as <- <-. simpl in Hq.
    apply elem_of_list_to_map_2 in Hq.
    rewrite Forall_forall in Hfresh. apply Hfresh.
    apply list_elem_of_fmap. by exists (id, q).
  - intros id q Hq. unfold StateManager.GetSnapshot in Hsnap.
    destruct (range_drivers_records (fun _ => true) kd s Hc Hkd)
      as (s1 & outd & Hr1 & Hext1 & Hoc1 & _).
    rewrite Hr1 in Hsnap.
    assert (Hc1 : closed s1).
    { destruct Hc as [Hcd Hco]. destruct Hext1 as (Hd1 & Ho1 & Hsub & _).
      split; intros k p; [rewrite Hd1 | rewrite Ho1]; intros Hp.
      - destruct (Hcd k p Hp) as [d Hd]. exists d. by eapply lookup_weaken.
      - rewrite Hoc1. by apply (Hco k). }
    assert (Hko1 : range_of (orders s1) ko).
    { destruct Hext1 as (_ & -> & _). done. }
    destruct (range_orders_records (fun _ => true) ko s1 Hc1 Hko1)
      as (s2 & outo & Hr2 & _ & _ & _ & _ & _ & Hfresh).
    rewrite Hr2 in Hsnap. injection Hsnap as <- <-. simpl in Hq.
    apply elem_of_list_to_map_2 in Hq.
    rewrite Forall_forall in Hfresh. rewrite <- Hoc1. apply Hfresh.
    apply list_elem_of_fmap. by exists (id, q).
  - by apply extends_driver_same.
  - by apply extends_order_same.
Qed.

Lemma snapshot_is_faithful_witness :
  exists s' snap,
    StateManager.GetSnapshot 60 (map_to_list (drivers Sample.store))
      (map_to_list (orders Sample.store)) Sample.store = Some (s', snap) /\
    StateManager.Timestamp snap = 60 /\
    (forall id, StateManager.Drivers snap !! id ≫= (fun q => dcell s' !! q)
                = driver_at Sample.store id) /\
    (forall id, StateManager.Orders snap !! id ≫= (fun q => ocell s' !! q)
                = order_at Sample.store id) /\
    (forall id q, StateManager.Drivers snap !! id = Some q ->
                  dcell Sample.store !! q = None) /\
    (forall id q, StateManager.Orders snap !! id = Some q ->
                  ocell Sample.store !! q = None) /\
    drivers s' = drivers Sample.store /\ orders s' = orders Sample.store /\
    driver_same Sample.store s' /\ order_same Sample.store s'.
Proof.
  apply (snapshot_is_faithful 60 _ _ Sample.store closed_Sample_store);
    unfold range_of; reflexivity.
Defined.

(** ** A whole tick of the matcher *)

(** X13. A tick of the matcher on a well-formed store never panics and
    matches as much as can be matched: with P the pending orders and A the
    available drivers in the order its two reads met them, it attempts the
    pairs of the zip of P and A, none of the attempts fails, the j-th pair
    ends up as an assigned order naming its driver and a busy driver,
    stamped with the j-th clock readings, every other record is as it was,
    and afterwards no pending order is left or no available driver is
    left. *)
Theorem tick_matches_all_it_can (clock : nat -> Z * Z)
    (ko kd : list (string * ptr)) (s : State) :
  wf s -> range_of (orders s) ko -> range_of (drivers s) kd ->
  exists s' lg,
    Matcher.MatchOrders clock ko kd s = Some (s', lg) /\
    wf s' /\
    Matcher.attempts lg = zip (pending_IDs s ko) (available_IDs s kd) /\
    matched_count lg
      = Nat.min (length (pending_IDs s ko)) (length (available_IDs s kd)) /\
    (forall o d e, Matcher.FailedToAssign o d e ∉ lg) /\
    (forall j o d,
       pending_IDs s ko !! j = Some o -> available_IDs s kd !! j = Some d ->
       (exists r, order_at s o = Some r /\
          order_at s' o = Some (assigned_record d (clock j).1 r)) /\
       (exists r, driver_at s d = Some r /\
          driver_at s' d = Some (busy_record (clock j).2 r))) /\
    (forall k, k ∉ take (length (available_IDs s kd)) (pending_IDs s ko) ->
       order_at s' k = order_at s k) /\
    (forall k, k ∉ take (length (pending_IDs s ko)) (available_IDs s kd) ->
       driver_at s' k = driver_at s k) /\
    (no_pending_order s' \/ no_available_driver s').
Proof.
  intros Hwf Hko Hkd.
  destruct (MatchOrders_pairs clock ko kd s Hwf Hko Hkd)
    as (s' & Hrun & Hwf' & Hpair & Hko' & Hkd').
  destruct (MatchOrders_exhaustive clock ko kd s Hwf Hko Hkd)
    as (s'' & lg & Hrun' & _ & Hnone).
  rewrite Hrun in Hrun'. injection Hrun' as <- <-.
  set (P := pending_IDs s ko) in *. set (A := available_IDs s kd) in *.
  exists s', (tick_log (length P) (length A) (matched_line <$> zip P A)).
  split_and!; try done.
  - unfold tick_log. case_bool_decide as HP0.
    { apply nil_length_inv in HP0. by rewrite HP0. }
    case_bool_decide as HA0.
    { apply nil_length_inv in HA0. rewrite HA0.
      by destruct P. }
    rewrite attempts_app, attempts_matched.
    case_bool_decide; simpl; by rewrite app_nil_r.
  - unfold tick_log. case_bool_decide as HP0.
    { by rewrite HP0. }
    case_bool_decide as HA0.
    { rewrite HA0. by rewrite Nat.min_0_r. }
    case_bool_decide.
    + rewrite matched_count_Completed, matched_count_matched.
      apply length_zip_with.
    + rewrite app_nil_r, matched_count_matched. apply length_zip_with.
  - intros o d e. unfold tick_log. case_bool_decide; [apply not_elem_of_nil|].
    case_bool_decide.
    { intros Hin%list_elem_of_singleton. discriminate. }
    rewrite elem_of_app. intros [Hin|Hin].
    + apply list_elem_of_fmap in Hin as ([o' d'] & Heq & _). discriminate.
    + case_bool_decide.
      * apply list_elem_of_singleton in Hin. discriminate.
      * by apply not_elem_of_nil in Hin.
Qed.

Lemma tick_matches_all_it_can_witness :
  exists s' lg,
    Matcher.MatchOrders Sample.clock (map_to_list (orders Sample.store))
      (map_to_list (drivers Sample.store)) Sample.store = Some (s', lg) /\
    wf s' /\
    Matcher.attempts lg
      = zip (pending_IDs Sample.store (map_to_list (orders Sample.store)))
          (available_IDs Sample.store (map_to_list (drivers Sample.store))) /\
    matched_count lg
      = Nat.min
          (length (pending_IDs Sample.store
                     (map_to_list (orders Sample.store))))
          (length (available_IDs Sample.store
                     (map_to_list (drivers Sample.store)))) /\
    (forall o d e, Matcher.FailedToAssign o d e ∉ lg) /\
    (forall j o d,
       pending_IDs Sample.store (map_to_list (orders Sample.store)) !! j
         = Some o ->
       available_IDs Sample.store (map_to_list (drivers Sample.store)) !! j
         = Some d ->
       (exists r, order_at Sample.store o = Some r /\
          order_at s' o = Some (assigned_record d (Sample.clock j).1 r)) /\
       (exists r, driver_at Sample.store d = Some r /\
          driver_at s' d = Some (busy_record (Sample.clock j).2 r))) /\
    (forall k,
       k ∉ take (length (available_IDs Sample.store
                           (map_to_list (drivers Sample.store))))
             (pending_IDs Sample.store (map_to_list (orders Sample.store))) ->
       order_at s' k = order_at Sample.store k) /\
    (forall k,
       k ∉ take (length (pending_IDs Sample.store
                           (map_to_list (orders Sample.store))))
             (available_IDs Sample.store
                (map_to_list (drivers Sample.store))) ->
       driver_at s' k = driver_at Sample.store k) /\
    (no_pending_order s' \/ no_available_driver s').
Proof.
  apply (tick_matches_all_it_can Sample.clock _ _ Sample.store).
  - apply reachable_wf, reachable_Sample_store.
  - unfold range_of. reflexivity.
  - unfold range_of. reflexivity.
Defined.

(** A tick on a store with no pending order or with no available driver
    attempts nothing and leaves every record as it was. *)
Lemma MatchOrders_idle (clock : nat -> Z * Z) (ko kd : list (string * ptr))
    (s : State) :
  wf s -> range_of (orders s) ko -> range_of (drivers s) kd ->
  no_pending_order s \/ no_available_driver s ->
  exists s' lg,
    Matcher.MatchOrders clock ko kd s = Some (s', lg) /\
    Matcher.attempts lg = [] /\ matched_count lg = 0%nat /\
    order_same s s' /\ driver_same s s'.
Proof.
  intros Hwf Hko Hkd Hnone.
  destruct (MatchOrders_tick clock ko kd s Hwf Hko Hkd)
    as (s2 & s' & lg0 & Hext & Hwf2 & Hat & Hrun).
  destruct (pending_IDs_spec s ko Hko) as [_ HP].
  destruct (available_IDs_spec s kd Hkd) as [_ HA].
  assert (Hz : zip (pending_IDs s ko) (available_IDs s kd) = []).
  { destruct Hnone as [Hn|Hn].
    - destruct (pending_IDs s ko) as [|o P]; [done|].
      destruct (proj1 (HP o)) as (r & Hr & Hst); [apply elem_of_cons; by left|].
      by destruct (Hn o r Hr).
    - destruct (available_IDs s kd) as [|d A]; [by destruct (pending_IDs s ko)|].
      destruct (proj1 (HA d)) as (r & Hr & Hst); [apply elem_of_cons; by left|].
      by destruct (Hn d r Hr). }
  rewrite pairs_spec_zip, Hz in Hat. simpl in Hat. injection Hat as <- <-.
  exists s2, (tick_log (length (pending_IDs s ko))
                (length (available_IDs s kd)) []).
  split_and!; try done.
  - unfold tick_log. repeat case_bool_decide; done.
  - unfold tick_log. repeat case_bool_decide; done.
  - by apply extends_order_same; [apply closed_of_wf|].
  - by apply extends_driver_same; [apply closed_of_wf|].
Qed.

(** X14. Two ticks in a row: whatever the map iterations and clock
    readings of the second tick, it attempts no assignment and leaves
    every record as the first tick left it. *)
Theorem tick_after_tick_is_idle (clock clock' : nat -> Z * Z)
    (ko kd ko' kd' : list (string * ptr)) (s s1 : State)
    (lg : list Matcher.log_line) :
  wf s -> range_of (orders s) ko -> range_of (drivers s) kd ->
  Matcher.MatchOrders clock ko kd s = Some (s1, lg) ->
  range_of (orders s1) ko' -> range_of (drivers s1) kd' ->
  exists s2 lg',
    Matcher.MatchOrders clock' ko' kd' s1 = Some (s2, lg') /\
    Matcher.attempts lg' = [] /\ matched_count lg' = 0%nat /\
    order_same s1 s2 /\ driver_same s1 s2.
Proof.
  intros Hwf Hko Hkd Hrun Hko' Hkd'.
  destruct (MatchOrders_exhaustive clock ko kd s Hwf Hko Hkd)
    as (s1' & lg1 & Hrun1 & Hwf1 & Hnone).
  rewrite Hrun in Hrun1. injection Hrun1 as <- <-.
  by apply MatchOrders_idle.
Qed.

Lemma tick_after_tick_is_idle_witness :
  exists s1 lg,
    Matcher.MatchOrders Sample.clock (map_to_list (orders Sample.store))
      (map_to_list (drivers Sample.store)) Sample.store = Some (s1, lg) /\
    exists s2 lg',
      Matcher.MatchOrders Sample.clock (map_to_list (orders s1))
        (map_to_list (drivers s1)) s1 = Some (s2, lg') /\
      Matcher.attempts lg' = [] /\ matched_count lg' = 0%nat /\
      order_same s1 s2 /\ driver_same s1 s2.
Proof.
  eexists _, _. split; [reflexivity|].
  eapply (tick_after_tick_is_idle Sample.clock Sample.clock
            (map_to_list (orders Sample.store))
            (map_to_list (drivers Sample.store)) _ _ Sample.store).
  - apply reachable_wf, reachable_Sample_store.
  - unfold range_of. reflexivity.
  - unfold range_of. reflexivity.
  - reflexivity.
  - unfold range_of. reflexivity.
  - unfold range_of. reflexivity.
Defined.

(** ** The HTTP adapters *)

Lemma records_same_extends (s s' : State) :
  wf s -> extends s s' -> records_same s s'.
Proof.
  intros Hwf Hext. split.
  - by apply extends_driver_same; [apply closed_of_wf|].
  - by apply extends_order_same; [apply closed_of_wf|].
Qed.

(** X15. [POST /drivers] on a well-formed store always answers. With a
    body that bound, an ID, a name and an empty or recognized status it
    answers 200 with the record as stored (empty status replaced by
    available, stamp set to the clock reading), the store then holds that
    record under its ID and every other record as before, and a
    [GET /drivers/:id] of that ID right after answers 200 with the same
    body. Otherwise it answers 400 and nothing the store holds changes:
    with the binding error's text if the body did not bind, else with the
    missing-field error if ID or name is empty, else with the
    invalid-status error. *)
Theorem POST_drivers (now : Z) (bound : Driver.t) (bindErr : bool)
    (s : State) :
  wf s ->
  exists s' resp,
    Handler.createOrUpdateDriverHandler now bound bindErr s
      = Some (s', resp) /\
    wf s' /\
    (bindErr = true ->
       resp = (Handler.StatusBadRequest,
               Handler.errorResponse Handler.InvalidRequestBody) /\
       records_same s s') /\
    (bindErr = false -> Driver.ID bound = "" \/ Driver.Name bound = "" ->
       resp = (Handler.StatusBadRequest,
               Handler.errorResponse (Handler.Error_ ErrMissingRequiredField)) /\
       records_same s s') /\
    (bindErr = false -> Driver.ID bound <> "" -> Driver.Name bound <> "" ->
     Driver.Status bound <> "" ->
     Driver.Status bound ∉ recognized_driver_statuses ->
       resp = (Handler.StatusBadRequest,
               Handler.errorResponse (Handler.Error_ ErrInvalidStatusUpdate)) /\
       records_same s s') /\
    (bindErr = false -> Driver.ID bound <> "" -> Driver.Name bound <> "" ->
     Driver.Status bound = "" \/
       Driver.Status bound ∈ recognized_driver_statuses ->
       resp = (Handler.StatusOK,
               Handler.driverJSON (Some (stored_driver now bound))) /\
       driver_put s s' (Driver.ID bound) (stored_driver now bound) /\
       order_same s s' /\
       exists s'',
         Handler.getDriverHandler (Driver.ID bound) s'
           = Some (s'', (Handler.StatusOK,
                         Handler.driverJSON (Some (stored_driver now bound)))) /\
         records_same s' s'').
Proof.
  intros Hwf. unfold Handler.createOrUpdateDriverHandler. simpl.
  set (p := fresh (dom (dcell s))).
  set (s0 := upd_dcell <[p := bound]> s).
  assert (Hext : extends s s0) by apply new_Driver_extends.
  pose proof (extends_wf s s0 Hwf Hext) as Hwf0.
  pose proof (records_same_extends s s0 Hwf Hext) as [Hds0 Hos0].
  assert (Hcell : dcell s0 !! p = Some bound) by apply lookup_insert_eq.
  destruct bindErr.
  { exists s0, (Handler.StatusBadRequest,
                Handler.errorResponse Handler.InvalidRequestBody).
    split_and!; try done. }
  destruct (decide (Driver.ID bound = "")) as [Hid|Hid].
  { exists s0, (Handler.StatusBadRequest,
                Handler.errorResponse (Handler.Error_ ErrMissingRequiredField)).
    unfold DriverUseCase.CreateOrUpdateDriver.
    rewrite Hcell, (bool_decide_eq_true_2 _ Hid). simpl.
    split_and!; try done. }
  destruct (decide (Driver.Name bound = "")) as [Hn|Hn].
  { exists s0, (Handler.StatusBadRequest,
                Handler.errorResponse (Handler.Error_ ErrMissingRequiredField)).
    unfold DriverUseCase.CreateOrUpdateDriver.
    rewrite Hcell, (bool_decide_eq_false_2 _ Hid),
      (bool_decide_eq_true_2 _ Hn). simpl.
    split_and!; try done. }
  destruct (decide (Driver.Status bound = "" \/
                    Driver.Status bound ∈ recognized_driver_statuses))
    as [Hst|Hst].
  - assert (Hst' : stored_status (Driver.Status bound)
                     ∈ recognized_driver_statuses).
    { unfold stored_status. destruct (decide (Driver.Status bound = ""));
        [by apply IsValidDriverStatus_recognized | by destruct Hst]. }
    destruct (CreateOrUpdateDriver_accepts now p s0 bound Hcell Hid Hn Hst')
      as (s1 & Hrun & Hdm & Hdc & Hom & Hoc).
    rewrite Hrun.
    assert (Hcell1 : dcell s1 !! p = Some (stored_driver now bound))
      by (rewrite Hdc; apply lookup_insert_eq).
    rewrite Hcell1.
    destruct (driver_write s0 s1 p bound (stored_driver now bound))
      as (Hwf1 & Hput & Hos1); try done.
    exists s1, (Handler.StatusOK,
                Handler.driverJSON (Some (stored_driver now bound))).
    split_and!; try done.
    + intros _ [?|?]; done.
    + intros _ _ _ Hne Hnot. by destruct Hst.
    + intros _ _ _ _. split_and!; try done.
      * intros k. rewrite (Hput k). simpl.
        destruct (decide (k = Driver.ID bound)); [done|apply Hds0].
      * destruct (GetDriver_of_cell (Driver.ID bound) p
                    (stored_driver now bound) s1)
          as (s2 & q & Hget & Hq & Hcell2).
        { rewrite Hdm. apply lookup_insert_eq. }
        { done. }
        exists s2. unfold Handler.getDriverHandler, DriverUseCase.GetDriver.
        rewrite Hget, Hcell2. split; [done|].
        apply records_same_extends; [done|].
        unfold StateManager.GetDriver in Hget. rewrite Hdm in Hget.
        rewrite lookup_insert_eq, Hcell1 in Hget. injection Hget as <- _.
        apply new_Driver_extends.
  - exists s0, (Handler.StatusBadRequest,
                Handler.errorResponse (Handler.Error_ ErrInvalidStatusUpdate)).
    assert (Hne : Driver.Status bound <> "") by (intros He; apply Hst; by left).
    assert (Hinv : IsValidDriverStatus (Driver.Status bound) = false).
    { destruct (IsValidDriverStatus (Driver.Status bound)) eqn:Hv; [|done].
      exfalso. apply Hst. right. by apply IsValidDriverStatus_recognized. }
    unfold DriverUseCase.CreateOrUpdateDriver.
    rewrite Hcell, (bool_decide_eq_false_2 _ Hid),
      (bool_decide_eq_false_2 _ Hn), (bool_decide_eq_false_2 _ Hne), Hinv.
    simpl. split_and!; try done.
    intros _ [?|?]; done.
Qed.

Lemma POST_drivers_witness :
  exists s' s'',
    Handler.createOrUpdateDriverHandler 50 Sample.d3 false Sample.store
      = Some (s', (200, Handler.driverJSON
                          (Some (Driver.mk "d3" "Dave" DriverAvailable
                                   Sample.origin 50)))) /\
    Handler.getDriverHandler "d3" s'
      = Some (s'', (200, Handler.driverJSON
                           (Some (Driver.mk "d3" "Dave" DriverAvailable
                                    Sample.origin 50)))).
Proof.
  destruct (POST_drivers 50 Sample.d3 false Sample.store
              (reachable_wf _ reachable_Sample_store))
    as (s' & resp & Hrun & _ & _ & _ & _ & Hok).
  destruct Hok as (-> & _ & _ & s'' & Hget & _);
    [ reflexivity | vm_compute; discriminate | vm_compute; discriminate
    | left; reflexivity | ].
  exists s', s''. split; [exact Hrun | exact Hget].
Defined.

(** The reads by ID through the adapters. *)
Lemma getDriverHandler_found (id : string) (s : State) (d : Driver.t) :
  wf s -> driver_at s id = Some d ->
  exists s',
    Handler.getDriverHandler id s
      = Some (s', (Handler.StatusOK, Handler.driverJSON (Some d))) /\
    wf s' /\ records_same s s'.
Proof.
  intros Hwf Hd.
  destruct (GetDriver_returns_copy id s d (closed_of_wf s Hwf) Hd)
    as (s' & q & Hget & _ & Hcell & Hext & _).
  exists s'. unfold Handler.getDriverHandler, DriverUseCase.GetDriver.
  rewrite Hget, Hcell. split_and!; [done | by eapply extends_wf |].
  by apply records_same_extends.
Qed.

Lemma getOrderHandler_found (id : string) (s : State) (o : Order.t) :
  wf s -> order_at s id = Some o ->
  exists s',
    Handler.getOrderHandler id s
      = Some (s', (Handler.StatusOK, Handler.orderJSON (Some o))) /\
    wf s' /\ records_same s s'.
Proof.
  intros Hwf Ho.
  destruct (GetOrder_returns_copy id s o (closed_of_wf s Hwf) Ho)
    as (s' & q & Hget & _ & Hcell & Hext & _).
  exists s'. unfold Handler.getOrderHandler, OrderUseCase.GetOrder.
  rewrite Hget, Hcell. split_and!; [done | by eapply extends_wf |].
  by apply records_same_extends.
Qed.

Lemma driver_at_None (id : string) (s : State) :
  closed s -> driver_at s id = None -> drivers s !! id = None.
Proof.
  intros [Hc _] Hd. unfold driver_at in Hd.
  destruct (drivers s !! id) as [p|] eqn:Hp; [|done].
  destruct (Hc id p Hp) as [d Hcell]. simpl in Hd. congruence.
Qed.

Lemma order_at_None (id : string) (s : State) :
  closed s -> order_at s id = None -> orders s !! id = None.
Proof.
  intros [_ Hc] Ho. unfold order_at in Ho.
  destruct (orders s !! id) as [p|] eqn:Hp; [|done].
  destruct (Hc id p Hp) as [o Hcell]. simpl in Ho. congruence.
Qed.

(** X16. [POST /orders] on a well-formed store always answers. With a body
    that bound, an ID and a customer it answers 201 with the record reset
    (status pending, no driver, both stamps the clock reading), whatever
    status, driver or stamps the body carried; the store then holds that
    record under its ID, in place of whatever order it held there, and
    every other record as before; a [GET /orders/:id] of that ID right
    after answers 200 with the same body. Otherwise it answers 400, with
    the binding error's text or else the missing-field error, and nothing
    the store holds changes. *)
Theorem POST_orders (now : Z) (bound : Order.t) (bindErr : bool)
    (s : State) :
  wf s ->
  exists s' resp,
    Handler.createOrderHandler now bound bindErr s = Some (s', resp) /\
    wf s' /\
    (bindErr = true ->
       resp = (Handler.StatusBadRequest,
               Handler.errorResponse Handler.InvalidRequestBody) /\
       records_same s s') /\
    (bindErr = false -> Order.ID bound = "" \/ Order.Customer bound = "" ->
       resp = (Handler.StatusBadRequest,
               Handler.errorResponse (Handler.Error_ ErrMissingRequiredField)) /\
       records_same s s') /\
    (bindErr = false -> Order.ID bound <> "" -> Order.Customer bound <> "" ->
       resp = (Handler.StatusCreated,
               Handler.orderJSON (Some (stored_order now bound))) /\
       order_put s s' (Order.ID bound) (stored_order now bound) /\
       driver_same s s' /\
       exists s'',
         Handler.getOrderHandler (Order.ID bound) s'
           = Some (s'', (Handler.StatusOK,
                         Handler.orderJSON (Some (stored_order now bound)))) /\
         records_same s' s'').
Proof.
  intros Hwf. unfold Handler.createOrderHandler. simpl.
  set (p := fresh (dom (ocell s))).
  set (s0 := upd_ocell <[p := bound]> s).
  assert (Hext : extends s s0) by apply new_Order_extends.
  pose proof (extends_wf s s0 Hwf Hext) as Hwf0.
  pose proof (records_same_extends s s0 Hwf Hext) as [Hds0 Hos0].
  assert (Hcell : ocell s0 !! p = Some bound) by apply lookup_insert_eq.
  destruct bindErr.
  { exists s0, (Handler.StatusBadRequest,
                Handler.errorResponse Handler.InvalidRequestBody).
    split_and!; try done. }
  destruct (decide (Order.ID bound = "")) as [Hid|Hid].
  { exists s0, (Handler.StatusBadRequest,
                Handler.errorResponse (Handler.Error_ ErrMissingRequiredField)).
    unfold OrderUseCase.CreateOrder.
    rewrite Hcell, (bool_decide_eq_true_2 _ Hid). simpl.
    split_and!; try done. }
  destruct (decide (Order.Customer bound = "")) as [Hn|Hn].
  { exists s0, (Handler.StatusBadRequest,
                Handler.errorResponse (Handler.Error_ ErrMissingRequiredField)).
    unfold OrderUseCase.CreateOrder.
    rewrite Hcell, (bool_decide_eq_false_2 _ Hid),
      (bool_decide_eq_true_2 _ Hn). simpl.
    split_and!; try done. }
  destruct (CreateOrder_accepts now p s0 bound Hcell Hid Hn)
    as (s1 & Hrun & Hom & Hoc & Hdm & Hdc).
  rewrite Hrun.
  assert (Hcell1 : ocell s1 !! p = Some (stored_order now bound))
    by (rewrite Hoc; apply lookup_insert_eq).
  rewrite Hcell1.
  destruct (order_write s0 s1 p bound (stored_order now bound))
    as (Hwf1 & Hput & Hds1); try done.
  exists s1, (Handler.StatusCreated,
              Handler.orderJSON (Some (stored_order now bound))).
  split_and!; try done.
  - intros _ [?|?]; done.
  - intros _ _ _. split_and!; try done.
    + intros k. rewrite (Hput k). simpl.
      destruct (decide (k = Order.ID bound)); [done|apply Hos0].
    + destruct (getOrderHandler_found (Order.ID bound) s1
                  (stored_order now bound) Hwf1) as (s2 & Hget & _ & Hsame).
      { rewrite (Hput (Order.ID bound)). simpl. by rewrite decide_True. }
      by exists s2.
Qed.

Lemma POST_orders_witness :
  exists s' s'',
    Handler.createOrderHandler 50 Sample.o2 false Sample.store
      = Some (s', (201, Handler.orderJSON
                          (Some (Order.mk "o2" "Erin" Sample.origin
                                   Sample.depot OrderPending "" 50 50)))) /\
    Handler.getOrderHandler "o2" s'
      = Some (s'', (200, Handler.orderJSON
                           (Some (Order.mk "o2" "Erin" Sample.origin
                                    Sample.depot OrderPending "" 50 50)))).
Proof.
  destruct (POST_orders 50 Sample.o2 false Sample.store
              (reachable_wf _ reachable_Sample_store))
    as (s' & resp & Hrun & _ & _ & _ & Hok).
  destruct Hok as (-> & _ & _ & s'' & Hget & _);
    [ reflexivity | vm_compute; discriminate | vm_compute; discriminate | ].
  exists s', s''. split; [exact Hrun | exact Hget].
Defined.

(** X17. [PATCH /orders/:id/status] on a well-formed store always answers,
    and its status code is decided in this order: 400 if the body did not
    bind; 400 with the invalid-status error if the status is not one of
    the five, whether or not the order exists; 404 if the status is
    recognized and no order has the ID; 400 with the invalid-transition
    error if the order exists and its status has no edge to the requested
    one; and 200 otherwise, with the order as it is now stored (new
    status, new stamp, all else kept) as the body. Only the 200 case
    changes anything the store holds, and then only that order. *)
Theorem PATCH_order_status (now : Z) (id : string) (st : OrderStatus)
    (bindErr : bool) (s : State) :
  wf s ->
  exists s' resp,
    Handler.updateOrderStatusHandler now id st bindErr s = Some (s', resp) /\
    wf s' /\
    (bindErr = true ->
       resp = (Handler.StatusBadRequest,
               Handler.errorResponse Handler.InvalidRequestBody) /\
       records_same s s') /\
    (bindErr = false -> st ∉ recognized_order_statuses ->
       resp = (Handler.StatusBadRequest,
               Handler.errorResponse (Handler.Error_ ErrInvalidStatusUpdate)) /\
       records_same s s') /\
    (bindErr = false -> st ∈ recognized_order_statuses ->
     order_at s id = None ->
       resp = (Handler.StatusNotFound,
               Handler.errorResponse (Handler.Error_ ErrOrderNotFound)) /\
       records_same s s') /\
    (bindErr = false -> st ∈ recognized_order_statuses ->
     forall o, order_at s id = Some o -> (Order.Status o, st) ∉ edges ->
       resp = (Handler.StatusBadRequest,
               Handler.errorResponse (Handler.Error_ ErrInvalidTransition)) /\
       records_same s s') /\
    (bindErr = false ->
     forall o, order_at s id = Some o -> (Order.Status o, st) ∈ edges ->
       resp = (Handler.StatusOK,
               Handler.orderJSON
                 (Some (Order.set_UpdatedAt now (Order.set_Status st o)))) /\
       order_put s s' id (Order.set_UpdatedAt now (Order.set_Status st o)) /\
       driver_same s s').
Proof.
  intros Hwf.
  unfold Handler.updateOrderStatusHandler, OrderUseCase.UpdateOrderStatus,
    StateManager.UpdateOrderStatus.
  destruct bindErr.
  { eexists _, _. split; [reflexivity|]. split_and!; done. }
  destruct (IsValidOrderStatus st) eqn:Hv; simpl.
  2:{ assert (Hnr : st ∉ recognized_order_statuses).
      { rewrite <- IsValidOrderStatus_recognized. by rewrite Hv. }
      eexists _, _. split; [reflexivity|]. split_and!; try done.
      - intros _ o Ho Hedge. destruct Hnr.
        by eapply edges_target_recognized. }
  assert (Hr : st ∈ recognized_order_statuses)
    by (by apply IsValidOrderStatus_recognized).
  destruct (orders s !! id) as [p|] eqn:Hp.
  2:{ assert (Hnone : order_at s id = None)
        by (unfold order_at; by rewrite Hp).
      eexists _, _. split; [reflexivity|]. split_and!; try done.
      - intros _ _ o Ho. congruence.
      - intros _ o Ho. congruence. }
  destruct (wf_orders s Hwf id p Hp) as (o & Hcell & Hid).
  assert (Hat : order_at s id = Some o)
    by (unfold order_at; by rewrite Hp).
  rewrite Hcell.
  destruct (CanTransitionOrderStatus (Order.Status o) st) eqn:Hcan; simpl.
  2:{ assert (Hne : (Order.Status o, st) ∉ edges).
      { rewrite <- CanTransitionOrderStatus_edges. by rewrite Hcan. }
      eexists _, _. split; [reflexivity|]. split_and!; try done.
      - intros _ _ Hn. congruence.
      - intros _ o' Ho' He. assert (o' = o) by congruence. by subst. }
  apply CanTransitionOrderStatus_edges in Hcan.
  set (o' := Order.set_UpdatedAt now (Order.set_Status st o)).
  set (s1 := upd_ocell <[p := o']> s).
  destruct (order_write s s1 p o o') as (Hwf1 & Hput & Hds1); try done.
  { simpl. rewrite Hid. symmetry. by apply insert_id. }
  assert (Hat1 : order_at s1 id = Some o').
  { rewrite <- Hid at 1. rewrite (Hput (Order.ID o)). by rewrite decide_True. }
  destruct (GetOrder_returns_copy id s1 o' (closed_of_wf _ Hwf1) Hat1)
    as (s2 & q & Hget & _ & Hcell2 & Hext2 & _).
  unfold OrderUseCase.GetOrder. rewrite Hget, Hcell2.
  pose proof (records_same_extends s1 s2 Hwf1 Hext2) as [Hds2 Hos2].
  exists s2, (Handler.StatusOK, Handler.orderJSON (Some o')).
  split_and!; try done.
  - by eapply extends_wf.
  - intros _ _ Hn. congruence.
  - intros _ _ o2 Ho2 Hne. assert (o2 = o) by congruence. by subst.
  - intros _ o2 Ho2 _. assert (o2 = o) by congruence. subst o2.
    split_and!; [done | |].
    + intros k. rewrite (Hos2 k), (Hput k). simpl. by rewrite Hid.
    + intros k. by rewrite (Hds2 k), (Hds1 k).
Qed.

Lemma PATCH_order_status_witness :
  exists s',
    Handler.updateOrderStatusHandler 50 "o1" OrderCanceled false Sample.store
      = Some (s', (200, Handler.orderJSON
                          (Some (Order.mk "o1" "Bob" Sample.depot
                                   Sample.origin OrderCanceled "" 12 50)))) /\
    order_at s' "o1"
      = Some (Order.mk "o1" "Bob" Sample.depot Sample.origin
                OrderCanceled "" 12 50).
Proof.
  destruct (PATCH_order_status 50 "o1" OrderCanceled false Sample.store
              (reachable_wf _ reachable_Sample_store))
    as (s' & resp & Hrun & _ & _ & _ & _ & _ & Hok).
  destruct (Hok eq_refl (Order.mk "o1" "Bob" Sample.depot Sample.origin
                           OrderPending "" 12 12))
    as (-> & Hput & _);
    [ vm_compute; reflexivity
    | apply CanTransitionOrderStatus_edges; vm_compute; reflexivity | ].
  exists s'. split; [exact Hrun|]. rewrite (Hput "o1"). reflexivity.
Defined.

(** X18. [PATCH /drivers/:id/status] on a well-formed store always
    answers: 400 if the body did not bind; 400 with the invalid-status
    error if the status is not one of the three, whether or not the driver
    exists; 404 if the status is recognized and no driver has the ID; and
    200 otherwise, whatever the driver's current status and whatever
    orders name the driver, with the driver as now stored (new status, new
    stamp, all else kept) as the body. Only the 200 case changes anything
    the store holds, and then only that driver. *)
Theorem PATCH_driver_status (now : Z) (id : string) (st : DriverStatus)
    (bindErr : bool) (s : State) :
  wf s ->
  exists s' resp,
    Handler.updateDriverStatusHandler now id st bindErr s = Some (s', resp) /\
    wf s' /\
    (bindErr = true ->
       resp = (Handler.StatusBadRequest,
               Handler.errorResponse Handler.InvalidRequestBody) /\
       records_same s s') /\
    (bindErr = false -> st ∉ recognized_driver_statuses ->
       resp = (Handler.StatusBadRequest,
               Handler.errorResponse (Handler.Error_ ErrInvalidStatusUpdate)) /\
       records_same s s') /\
    (bindErr = false -> st ∈ recognized_driver_statuses ->
     driver_at s id = None ->
       resp = (Handler.StatusNotFound,
               Handler.errorResponse (Handler.Error_ ErrDriverNotFound)) /\
       records_same s s') /\
    (bindErr = false -> st ∈ recognized_driver_statuses ->
     forall d, driver_at s id = Some d ->
       resp = (Handler.StatusOK,
               Handler.driverJSON
                 (Some (Driver.set_UpdatedAt now (Driver.set_Status st d)))) /\
       driver_put s s' id (Driver.set_UpdatedAt now (Driver.set_Status st d)) /\
       order_same s s').
Proof.
  intros Hwf.
  unfold Handler.updateDriverStatusHandler, DriverUseCase.UpdateDriverStatus,
    StateManager.UpdateDriverStatus.
  destruct bindErr.
  { eexists _, _. split; [reflexivity|]. split_and!; done. }
  destruct (IsValidDriverStatus st) eqn:Hv; simpl.
  2:{ assert (Hnr : st ∉ recognized_driver_statuses).
      { rewrite <- IsValidDriverStatus_recognized. by rewrite Hv. }
      eexists _, _. split; [reflexivity|]. split_and!; done. }
  assert (Hr : st ∈ recognized_driver_statuses)
    by (by apply IsValidDriverStatus_recognized).
  destruct (drivers s !! id) as [p|] eqn:Hp.
  2:{ assert (Hnone : driver_at s id = None)
        by (unfold driver_at; by rewrite Hp).
      eexists _, _. split; [reflexivity|]. split_and!; try done.
      - intros _ _ d Hd. congruence. }
  destruct (wf_drivers s Hwf id p Hp) as (d & Hcell & Hid).
  assert (Hat : driver_at s id = Some d)
    by (unfold driver_at; by rewrite Hp).
  assert (Hne : id <> "").
  { intros ->. by rewrite (wf_nonempty s Hwf) in Hp. }
  rewrite Hcell.
  set (d' := Driver.set_UpdatedAt now (Driver.set_Status st d)).
  set (s1 := upd_dcell <[p := d']> s).
  destruct (driver_write s s1 p d d') as (Hwf1 & Hput & Hos1); try done.
  { simpl. by rewrite Hid. }
  { simpl. rewrite Hid. symmetry. by apply insert_id. }
  assert (Hat1 : driver_at s1 id = Some d').
  { rewrite <- Hid at 1. rewrite (Hput (Driver.ID d)). by rewrite decide_True. }
  destruct (GetDriver_returns_copy id s1 d' (closed_of_wf _ Hwf1) Hat1)
    as (s2 & q & Hget & _ & Hcell2 & Hext2 & _).
  unfold DriverUseCase.GetDriver. rewrite Hget, Hcell2.
  pose proof (records_same_extends s1 s2 Hwf1 Hext2) as [Hds2 Hos2].
  exists s2, (Handler.StatusOK, Handler.driverJSON (Some d')).
  split_and!; try done.
  - by eapply extends_wf.
  - intros _ _ Hn. congruence.
  - intros _ _ d2 Hd2. assert (d2 = d) by congruence. subst d2.
    split_and!; [done | |].
    + intros k. rewrite (Hds2 k), (Hput k). simpl. by rewrite Hid.
    + intros k. by rewrite (Hos2 k), (Hos1 k).
Qed.

Lemma PATCH_driver_status_witness :
  exists s',
    Handler.updateDriverStatusHandler 50 "d2" DriverAvailable false
      Sample.store
      = Some (s', (200, Handler.driverJSON
                          (Some (Driver.mk "d2" "Carol" DriverAvailable
                                   Sample.origin 50)))) /\
    driver_at s' "d2"
      = Some (Driver.mk "d2" "Carol" DriverAvailable Sample.origin 50).
Proof.
  destruct (PATCH_driver_status 50 "d2" DriverAvailable false Sample.store
              (reachable_wf _ reachable_Sample_store))
    as (s' & resp & Hrun & _ & _ & _ & _ & Hok).
  destruct (Hok eq_refl) with
    (d := Driver.mk "d2" "Carol" DriverBusy Sample.origin 11)
    as (-> & Hput & _);
    [ apply IsValidDriverStatus_recognized; reflexivity
    | vm_compute; reflexivity | ].
  exists s'. split; [exact Hrun|]. rewrite (Hput "d2"). reflexivity.
Defined.

(** X19. [GET /drivers/:id] and [GET /orders/:id] on a well-formed store
    answer 404 with the not-found error exactly when the store holds no
    record under the ID, and otherwise 200 with the record the store holds
    under the ID; neither changes anything the store holds. *)
Theorem GET_by_ID (id : string) (s : State) :
  wf s ->
  (driver_at s id = None ->
     Handler.getDriverHandler id s
       = Some (s, (Handler.StatusNotFound,
                   Handler.errorResponse (Handler.Error_ ErrDriverNotFound)))) /\
  (forall d, driver_at s id = Some d ->
     exists s',
       Handler.getDriverHandler id s
         = Some (s', (Handler.StatusOK, Handler.driverJSON (Some d))) /\
       wf s' /\ records_same s s') /\
  (order_at s id = None ->
     Handler.getOrderHandler id s
       = Some (s, (Handler.StatusNotFound,
                   Handler.errorResponse (Handler.Error_ ErrOrderNotFound)))) /\
  (forall o, order_at s id = Some o ->
     exists s',
       Handler.getOrderHandler id s
         = Some (s', (Handler.StatusOK, Handler.orderJSON (Some o))) /\
       wf s' /\ records_same s s').
Proof.
  intros Hwf. split_and!.
  - intros Hn. apply (driver_at_None id s (closed_of_wf s Hwf)) in Hn.
    unfold Handler.getDriverHandler, DriverUseCase.GetDriver,
      StateManager.GetDriver. by rewrite Hn.
  - intros d Hd. by apply getDriverHandler_found.
  - intros Hn. apply (order_at_None id s (closed_of_wf s Hwf)) in Hn.
    unfold Handler.getOrderHandler, OrderUseCase.GetOrder,
      StateManager.GetOrder. by rewrite Hn.
  - intros o Ho. by apply getOrderHandler_found.
Qed.

Lemma GET_by_ID_witness :
  Handler.getDriverHandler "o1" Sample.store
    = Some (Sample.store,
            (404, Handler.errorResponse (Handler.Error_ ErrDriverNotFound))) /\
  exists s',
    Handler.getOrderHandler "o1" Sample.store
      = Some (s', (200, Handler.orderJSON
                          (Some (Order.mk "o1" "Bob" Sample.depot
                                   Sample.origin OrderPending "" 12 12)))) /\
    wf s' /\ records_same Sample.store s'.
Proof.
  destruct (GET_by_ID "o1" Sample.store
              (reachable_wf _ reachable_Sample_store)) as (H1 & _ & _ & H4).
  split.
  - apply H1. vm_compute. reflexivity.
  - apply H4. vm_compute. reflexivity.
Defined.

(** ** The configuration *)

Lemma digit_pretty_N_char (m : N) :
  (m < 10)%N -> strconv.digit (pretty_N_char m) = Some (Z.of_N m).
Proof.
  intros Hm.
  assert (m = 0 \/ m = 1 \/ m = 2 \/ m = 3 \/ m = 4 \/ m = 5 \/ m = 6 \/
          m = 7 \/ m = 8 \/ m = 9)%N as Hcases by lia.
  repeat destruct Hcases as [->|Hcases]; try subst m; reflexivity.
Qed.

(** Parsing what the decimal printer wrote in front of [s]. *)
Lemma digits_pretty_N_go (x : N) :
  exists k : Z, 0 <= k /\
    forall (n : Z) (s : string),
      strconv.digits n (pretty_N_go x s)
        = strconv.digits (n * 10 ^ k + Z.of_N x) s.
Proof.
  induction (N.lt_wf_0 x) as [x _ IH].
  destruct (decide (0 < x)%N) as [Hx|Hx].
  - destruct (IH (x `div` 10)%N) as (k & Hk & Hgo).
    { by apply N.div_lt. }
    exists (k + 1). split; [lia|]. intros n s.
    rewrite pretty_N_go_step by done. rewrite Hgo. simpl.
    rewrite digit_pretty_N_char by (by apply N.mod_lt).
    f_equal. rewrite Z.pow_add_r by lia.
    rewrite (N.div_mod x 10) at 3 by done.
    rewrite N2Z.inj_add, N2Z.inj_mul. simpl Z.of_N. lia.
  - assert (x = 0%N) as -> by lia. exists 0. split; [done|]. intros n s.
    rewrite pretty_N_go_0. f_equal. simpl. lia.
Qed.

Lemma pretty_N_go_nonempty (x : N) (ch : ascii) (s : string) :
  pretty_N_go x (String ch s) <> "".
Proof.
  revert ch s. induction (N.lt_wf_0 x) as [x _ IH]. intros ch s.
  destruct (decide (0 < x)%N) as [Hx|Hx].
  - rewrite pretty_N_go_step by done. apply IH. by apply N.div_lt.
  - assert (x = 0%N) as -> by lia. by rewrite pretty_N_go_0.
Qed.

Lemma unsigned_pretty_pos (p : positive) :
  exists ch r,
    pretty (N.pos p) = String ch r /\ strconv.digit ch <> None /\
    strconv.unsigned (String ch r) = Some (Z.pos p).
Proof.
  unfold pretty, pretty_N. rewrite decide_False by done.
  destruct (digits_pretty_N_go (N.pos p)) as (k & _ & Hgo).
  specialize (Hgo 0 ""). simpl in Hgo.
  destruct (pretty_N_go (N.pos p) "") as [|ch r] eqn:Hs.
  - exfalso. rewrite pretty_N_go_step in Hs by done.
    by apply pretty_N_go_nonempty in Hs.
  - exists ch, r. split; [done|]. split.
    + simpl in Hgo. by destruct (strconv.digit ch).
    + exact Hgo.
Qed.

(** [Atoi] reads back every [int64] from its decimal numeral. *)
Lemma Atoi_pretty (z : Z) :
  - 2 ^ 63 <= z < 2 ^ 63 -> strconv.Atoi (pretty z) = Some z.
Proof.
  intros Hz. unfold strconv.Atoi. destruct z as [|p|p].
  - reflexivity.
  - change (pretty (Z.pos p)) with (pretty (N.pos p)).
    destruct (unsigned_pretty_pos p) as (ch & r & -> & Hd & Hu).
    rewrite bool_decide_eq_false_2 by (intros ->; by apply Hd).
    rewrite bool_decide_eq_false_2 by (intros ->; by apply Hd).
    rewrite Hu. by rewrite bool_decide_eq_true_2.
  - change (pretty (Z.neg p)) with ("-" +:+ pretty (N.pos p)).
    destruct (unsigned_pretty_pos p) as (ch & r & -> & Hd & Hu).
    change ("-" +:+ String ch r) with (String "-"%char (String ch r)).
    cbv beta iota.
    rewrite (bool_decide_eq_false_2 ("-"%char = "+"%char)) by done.
    rewrite (bool_decide_eq_true_2 ("-"%char = "-"%char)) by done.
    rewrite Hu. simpl. by rewrite bool_decide_eq_true_2.
Qed.

Lemma digits_trailing (s : string) (ch : ascii) (n : Z) :
  strconv.digit ch = None -> strconv.digits n (s +:+ String ch "") = None.
Proof.
  intros Hch. revert n. induction s as [|c s IH]; intros n; simpl.
  - by rewrite Hch.
  - destruct (strconv.digit c); [apply IH|done].
Qed.

Lemma unsigned_trailing (s : string) (ch : ascii) :
  strconv.digit ch = None -> strconv.unsigned (s +:+ String ch "") = None.
Proof.
  intros Hch. unfold strconv.unsigned.
  destruct (s +:+ String ch "") eqn:Hs; [done|]. rewrite <- Hs.
  by apply digits_trailing.
Qed.

(** A value that ends in a character other than a digit, such as a
    duration with its unit, is no integer for [Atoi]. *)
Lemma Atoi_trailing (s : string) (ch : ascii) :
  strconv.digit ch = None -> strconv.Atoi (s +:+ String ch "") = None.
Proof.
  intros Hch. unfold strconv.Atoi. destruct s as [|c s]; simpl.
  - repeat case_bool_decide; simpl; by rewrite ?Hch.
  - pose proof (unsigned_trailing s ch Hch) as Hs.
    pose proof (unsigned_trailing (String c s) ch Hch) as Hcs.
    simpl in Hcs. repeat case_bool_decide; by rewrite ?Hs, ?Hcs.
Qed.

Lemma int64_small (z : Z) : - 2 ^ 63 <= z < 2 ^ 63 -> config.int64 z = z.
Proof. intros Hz. unfold config.int64. rewrite Z.mod_small; lia. Qed.

(** X20. The matcher interval [LoadConfig] returns, in nanoseconds. With
    [MATCHER_INTERVAL] set to the decimal numeral of an integer of at most
    9223372036 in absolute value it is that many seconds. With the
    variable not set, or set to something [Atoi] rejects (the empty
    string, or any value ending in a character that is no digit, such as a
    duration with its unit), it is the default multiplied by a second a
    second time: three thousand million seconds, not three seconds. *)
Theorem LoadConfig_MatcherInterval (env : gmap string string) :
  (forall n : Z, - 9223372036 <= n <= 9223372036 ->
     env !! "MATCHER_INTERVAL" = Some (pretty n) ->
     config.MatcherInterval (config.LoadConfig env) = n * config.Second) /\
  (env !! "MATCHER_INTERVAL" = None \/
   not_an_integer env "MATCHER_INTERVAL" ->
     config.MatcherInterval (config.LoadConfig env)
       = 3000000000 * config.Second) /\
  (forall (s : string) (ch : ascii),
     strconv.digit ch = None ->
     env !! "MATCHER_INTERVAL" = Some (s +:+ String ch "") ->
     not_an_integer env "MATCHER_INTERVAL") /\
  (env !! "MATCHER_INTERVAL" = Some "" ->
     not_an_integer env "MATCHER_INTERVAL").
Proof.
  unfold config.LoadConfig, config.getDurationEnv, os.LookupEnv,
    not_an_integer. simpl.
  split_and!.
  - intros n Hn ->. rewrite Atoi_pretty by (unfold config.Second; lia).
    apply int64_small. unfold config.Second. lia.
  - intros [->|(value & -> & ->)]; by vm_compute.
  - intros s ch Hch Hv. eexists. split; [exact Hv|]. by apply Atoi_trailing.
  - intros Hv. eexists. split; [exact Hv|]. reflexivity.
Qed.

Lemma LoadConfig_MatcherInterval_witness :
  config.MatcherInterval
    (config.LoadConfig {[ "MATCHER_INTERVAL" := "5" ]}) = 5000000000 /\
  config.MatcherInterval
    (config.LoadConfig {[ "SERVER_PORT" := ":9090" ]})
    = 3000000000000000000 /\
  config.MatcherInterval
    (config.LoadConfig {[ "MATCHER_INTERVAL" := "3s" ]})
    = 3000000000000000000.
Proof.
  split_and!.
  - destruct (LoadConfig_MatcherInterval {[ "MATCHER_INTERVAL" := "5" ]})
      as (H & _).
    apply (H 5); [lia | reflexivity].
  - destruct (LoadConfig_MatcherInterval {[ "SERVER_PORT" := ":9090" ]})
      as (_ & H & _).
    apply H. left. reflexivity.
  - destruct (LoadConfig_MatcherInterval {[ "MATCHER_INTERVAL" := "3s" ]})
      as (_ & H & Hs & _).
    apply H. right. apply (Hs "3" "s"%char); reflexivity.
Defined.

(** ** The matcher loop *)

(** Ticks on a store with no pending order or no available driver: all of
    them idle. *)
Lemma ticks_idle (clock : nat -> nat -> Z * Z)
    (ko kd : nat -> State -> list (string * ptr)) (n : nat) :
  (forall i s, range_of (orders s) (ko i s)) ->
  (forall i s, range_of (drivers s) (kd i s)) ->
  forall (i : nat) (s : State),
    wf s -> no_pending_order s \/ no_available_driver s ->
    exists s' lgs,
      service.ticks clock ko kd i n s = Some (s', lgs) /\
      length lgs = n /\
      Forall (fun lg => Matcher.attempts lg = []) lgs /\
      records_same s s' /\ wf s'.
Proof.
  intros Hko Hkd. induction n as [|n IH]; intros i s Hwf Hnone.
  - exists s, []. by split_and!.
  - destruct (MatchOrders_idle (clock i) (ko i s) (kd i s) s Hwf
                (Hko i s) (Hkd i s) Hnone)
      as (s1 & lg & Hrun & Hatt & _ & Hos & Hds).
    destruct (MatchOrders_exhaustive (clock i) (ko i s) (kd i s) s Hwf
                (Hko i s) (Hkd i s))
      as (s1' & lg' & Hrun' & Hwf1 & _).
    rewrite Hrun in Hrun'. injection Hrun' as <- <-.
    destruct (IH (S i) s1 Hwf1) as (s' & lgs & Hticks & Hlen & Hall & Hsame & Hwf').
    { destruct Hnone as [Hn|Hn]; [left|right].
      - intros id o. rewrite (Hos id). apply Hn.
      - intros id d. rewrite (Hds id). apply Hn. }
    exists s', (lg :: lgs). simpl. rewrite Hrun, Hticks.
    split_and!; try done.
    + simpl. by rewrite Hlen.
    + by constructor.
    + destruct Hsame as [Hds' Hos']. split; intros k.
      * by rewrite (Hds' k), (Hds k).
      * by rewrite (Hos' k), (Hos k).
Qed.

(** X21. [StartMatcher] with an interval that is not positive panics
    before the first tick. With a positive interval, on a well-formed
    store that nothing else writes to, any number of ticks runs without a
    panic; the first tick does what a single [MatchOrders] does, every
    later tick attempts no assignment, and the store ends with the records
    the first tick left, with no pending order or no available driver. *)
Theorem StartMatcher_run (interval : Z) (clock : nat -> nat -> Z * Z)
    (ko kd : nat -> State -> list (string * ptr)) (n : nat) (s : State) :
  wf s ->
  (forall i s, range_of (orders s) (ko i s)) ->
  (forall i s, range_of (drivers s) (kd i s)) ->
  (interval <= 0 ->
     service.StartMatcher interval clock ko kd n s = None) /\
  (0 < interval ->
     exists s1 lg1 s' lgs,
       Matcher.MatchOrders (clock 0%nat) (ko 0%nat s) (kd 0%nat s) s
         = Some (s1, lg1) /\
       service.StartMatcher interval clock ko kd (S n) s
         = Some (s', lg1 :: lgs) /\
       length lgs = n /\
       Forall (fun lg => Matcher.attempts lg = []) lgs /\
       records_same s1 s' /\ wf s' /\
       (no_pending_order s' \/ no_available_driver s')).
Proof.
  intros Hwf Hko Hkd. unfold service.StartMatcher. split.
  - intros Hi. by rewrite bool_decide_eq_true_2.
  - intros Hi. rewrite bool_decide_eq_false_2 by lia.
    destruct (MatchOrders_exhaustive (clock 0%nat) (ko 0%nat s) (kd 0%nat s)
                s Hwf (Hko 0%nat s) (Hkd 0%nat s))
      as (s1 & lg1 & Hrun & Hwf1 & Hnone).
    destruct (ticks_idle clock ko kd n Hko Hkd 1 s1 Hwf1 Hnone)
      as (s' & lgs & Hticks & Hlen & Hall & Hsame & Hwf').
    exists s1, lg1, s', lgs. simpl. rewrite Hrun, Hticks.
    split_and!; try done.
    destruct Hsame as [Hds Hos]. destruct Hnone as [Hn|Hn]; [left|right].
    + intros id o. rewrite (Hos id). apply Hn.
    + intros id d. rewrite (Hds id). apply Hn.
Qed.

Lemma StartMatcher_run_witness :
  service.StartMatcher 0 (fun _ => Sample.clock)
    (fun _ s => map_to_list (orders s)) (fun _ s => map_to_list (drivers s))
    3 Sample.store = None /\
  exists s1 lg1 s' lgs,
    Matcher.MatchOrders Sample.clock (map_to_list (orders Sample.store))
      (map_to_list (drivers Sample.store)) Sample.store = Some (s1, lg1) /\
    service.StartMatcher 3000000000 (fun _ => Sample.clock)
      (fun _ s => map_to_list (orders s)) (fun _ s => map_to_list (drivers s))
      4 Sample.store = Some (s', lg1 :: lgs) /\
    length lgs = 3%nat /\
    Forall (fun lg => Matcher.attempts lg = []) lgs /\
    records_same s1 s' /\ wf s' /\
    (no_pending_order s' \/ no_available_driver s').
Proof.
  split.
  - apply (StartMatcher_run 0 (fun _ => Sample.clock)
             (fun _ s => map_to_list (orders s))
             (fun _ s => map_to_list (drivers s)) 3 Sample.store);
      [ apply reachable_wf, reachable_Sample_store
      | intros i s; unfold range_of; reflexivity
      | intros i s; unfold range_of; reflexivity
      | lia ].
  - apply (StartMatcher_run 3000000000 (fun _ => Sample.clock)
             (fun _ s => map_to_list (orders s))
             (fun _ s => map_to_list (drivers s)) 3 Sample.store);
      [ apply reachable_wf, reachable_Sample_store
      | intros i s; unfold range_of; reflexivity
      | intros i s; unfold range_of; reflexivity
      | lia ].
Defined.

(** X22. How [main] starts the matcher: [StartMatcher] on the interval of
    [LoadConfig]. With [MATCHER_INTERVAL] set to the numeral of zero or of
    a negative integer (down to -9223372036) the matcher panics at its
    start; with the variable not set, set to something [Atoi] rejects, or
    set to the numeral of a positive integer of at most 9223372036, the
    interval is positive and the matcher starts. *)
Theorem main_starts_matcher (env : gmap string string) :
  (forall n : Z, - 9223372036 <= n <= 0 ->
     env !! "MATCHER_INTERVAL" = Some (pretty n) ->
     forall clock ko kd k s,
       service.StartMatcher (config.MatcherInterval (config.LoadConfig env))
         clock ko kd k s = None) /\
  (env !! "MATCHER_INTERVAL" = None \/
   not_an_integer env "MATCHER_INTERVAL" \/
   (exists n : Z, 0 < n <= 9223372036 /\
      env !! "MATCHER_INTERVAL" = Some (pretty n)) ->
     forall clock ko kd k s,
       service.StartMatcher (config.MatcherInterval (config.LoadConfig env))
         clock ko kd k s
       = service.ticks clock ko kd 0 k s).
Proof.
  unfold config.LoadConfig, config.getDurationEnv, os.LookupEnv,
    not_an_integer, service.StartMatcher. simpl.
  split.
  - intros n Hn -> clock ko kd k s.
    rewrite Atoi_pretty by (unfold config.Second; lia).
    rewrite int64_small by (unfold config.Second; lia).
    rewrite bool_decide_eq_true_2; [done|]. unfold config.Second. lia.
  - intros [->|[(value & -> & ->)|(n & Hn & ->)]] clock ko kd k s.
    + by rewrite bool_decide_eq_false_2 by (by vm_compute).
    + by rewrite bool_decide_eq_false_2 by (by vm_compute).
    + rewrite Atoi_pretty by (unfold config.Second; lia).
      rewrite int64_small by (unfold config.Second; lia).
      rewrite bool_decide_eq_false_2; [done|]. unfold config.Second. lia.
Qed.

Lemma main_starts_matcher_witness :
  service.StartMatcher
    (config.MatcherInterval
       (config.LoadConfig {[ "MATCHER_INTERVAL" := "0" ]}))
    (fun _ => Sample.clock) (fun _ s => map_to_list (orders s))
    (fun _ s => map_to_list (drivers s)) 2 Sample.store = None /\
  service.StartMatcher
    (config.MatcherInterval
       (config.LoadConfig {[ "MATCHER_INTERVAL" := "2" ]}))
    (fun _ => Sample.clock) (fun _ s => map_to_list (orders s))
    (fun _ s => map_to_list (drivers s)) 2 Sample.store
  = service.ticks (fun _ => Sample.clock) (fun _ s => map_to_list (orders s))
      (fun _ s => map_to_list (drivers s)) 0 2 Sample.store.
Proof.
  split.
  - destruct (main_starts_matcher {[ "MATCHER_INTERVAL" := "0" ]}) as [H _].
    apply (H 0); [lia | reflexivity].
  - destruct (main_starts_matcher {[ "MATCHER_INTERVAL" := "2" ]}) as [_ H].
    apply H. right. right. exists 2. split; [lia | reflexivity].
Defined.

(** ** The collection routes *)

Lemma mapM_records {A K : Type} (f : positive -> option A)
    (g : K -> option A) (ps : list positive) (ks : list K) :
  f <$> ps = g <$> ks -> Forall (fun k => is_Some (g k)) ks ->
  exists rs, mapM f ps = Some rs /\ Some <$> rs = g <$> ks.
Proof.
  revert ks. induction ps as [|p ps IH]; intros [|k ks] Heq Hall;
    try discriminate.
  - by exists [].
  - rewrite !fmap_cons in Heq. injection Heq as Hp Hrest.
    apply Forall_cons in Hall as [[r Hr] Hall].
    destruct (IH ks Hrest Hall) as (rs & Hm & Hrs).
    exists (r :: rs). split.
    + simpl. rewrite Hp, Hr. simpl. by rewrite Hm.
    + rewrite !fmap_cons. by rewrite Hr, Hrs.
Qed.

Lemma held_drivers (s : State) (kvs : list (string * ptr)) :
  closed s -> range_of (drivers s) kvs ->
  Forall (fun k => is_Some (driver_at s k)) kvs.*1.
Proof.
  intros Hc Hr. apply Forall_forall. intros k Hk.
  apply list_elem_of_fmap in Hk as ([k' p] & -> & Hin).
  apply (range_of_elem _ _ _ _ Hr) in Hin. destruct Hc as [Hc _].
  destruct (Hc k' p Hin) as [d Hd]. exists d. unfold driver_at.
  simpl. by rewrite Hin.
Qed.

Lemma held_orders (s : State) (kvs : list (string * ptr)) :
  closed s -> range_of (orders s) kvs ->
  Forall (fun k => is_Some (order_at s k)) kvs.*1.
Proof.
  intros Hc Hr. apply Forall_forall. intros k Hk.
  apply list_elem_of_fmap in Hk as ([k' p] & -> & Hin).
  apply (range_of_elem _ _ _ _ Hr) in Hin. destruct Hc as [_ Hc].
  destruct (Hc k' p Hin) as [o Ho]. exists o. unfold order_at.
  simpl. by rewrite Hin.
Qed.

(** The loop over all drivers, with the records behind its copies. *)
Lemma all_drivers_records (kvs : list (string * ptr)) (s : State) :
  closed s -> range_of (drivers s) kvs ->
  exists s' out ds,
    StateManager.range_drivers (fun _ => true) kvs s = Some (s', out) /\
    extends s s' /\ ocell s' = ocell s /\ out.*1 = kvs.*1 /\
    mapM (fun p => dcell s' !! p) out.*2 = Some ds /\
    Some <$> ds = (fun k => driver_at s k) <$> kvs.*1.
Proof.
  intros Hc Hr.
  destruct (range_drivers_records (fun _ => true) kvs s Hc Hr)
    as (s' & out & Hrun & Hext & Hoc & Hk & Hrec & _).
  rewrite filter_kept_true_drivers in Hk, Hrec by done.
  destruct (mapM_records (fun p => dcell s' !! p) (fun k => driver_at s k)
              out.*2 kvs.*1 Hrec (held_drivers s kvs Hc Hr))
    as (ds & Hm & Hds).
  by exists s', out, ds.
Qed.

Lemma all_orders_records (kvs : list (string * ptr)) (s : State) :
  closed s -> range_of (orders s) kvs ->
  exists s' out os,
    StateManager.range_orders (fun _ => true) kvs s = Some (s', out) /\
    extends s s' /\ dcell s' = dcell s /\ out.*1 = kvs.*1 /\
    mapM (fun p => ocell s' !! p) out.*2 = Some os /\
    Some <$> os = (fun k => order_at s k) <$> kvs.*1.
Proof.
  intros Hc Hr.
  destruct (range_orders_records (fun _ => true) kvs s Hc Hr)
    as (s' & out & Hrun & Hext & Hdc & Hk & Hrec & _).
  rewrite filter_kept_true_orders in Hk, Hrec by done.
  destruct (mapM_records (fun p => ocell s' !! p) (fun k => order_at s k)
              out.*2 kvs.*1 Hrec (held_orders s kvs Hc Hr))
    as (os & Hm & Hos).
  by exists s', out, os.
Qed.

(** Every pointer of a list of copies resolves. *)
Lemma copies_resolve {A : Type} (cells : gmap positive A)
    (out : list (string * positive)) (rs : list A) :
  mapM (fun p => cells !! p) out.*2 = Some rs ->
  map_Forall (fun (_ : string) p => is_Some (cells !! p))
    (list_to_map out : gmap string positive).
Proof.
  intros Hm id q Hq. apply elem_of_list_to_map_2 in Hq.
  apply mapM_Some in Hm.
  assert (q ∈ out.*2) as Hin by (apply list_elem_of_fmap; by exists (id, q)).
  apply list_elem_of_lookup in Hin as [i Hi].
  destruct (Forall2_lookup_l _ _ _ _ _ Hm Hi) as (r & _ & Hr). by exists r.
Qed.

Lemma closed_extends (s s' : State) : closed s -> extends s s' -> closed s'.
Proof.
  intros [Hcd Hco] (Hd & Ho & Hdc & Hoc).
  split; intros k p; [rewrite Hd | rewrite Ho]; intros Hp.
  - destruct (Hcd k p Hp) as [d Hcell]. exists d. by eapply lookup_weaken.
  - destruct (Hco k p Hp) as [o Hcell]. exists o. by eapply lookup_weaken.
Qed.

(** The snapshot route, with the records it serialises. *)
Lemma getStateHandler_records (now : Z) (kd ko : list (string * ptr))
    (s : State) :
  closed s -> range_of (drivers s) kd -> range_of (orders s) ko ->
  exists s' snap ds os,
    StateManager.GetSnapshot now kd ko s = Some (s', snap) /\
    Handler.getStateHandler now kd ko s
      = Some (s', (Handler.StatusOK, Handler.snapshotJSON ds os now)) /\
    extends s s' /\
    (forall id, ds !! id = driver_at s id) /\
    (forall id, os !! id = order_at s id).
Proof.
  intros Hc Hkd Hko.
  destruct (GetSnapshot_faithful now kd ko s Hc Hkd Hko)
    as (s' & snap & Hsnap & Hext & Hts & Hdv & Hov).
  assert (Hres :
    map_Forall (fun (_ : string) p => is_Some (dcell s' !! p))
      (StateManager.Drivers snap) /\
    map_Forall (fun (_ : string) p => is_Some (ocell s' !! p))
      (StateManager.Orders snap)).
  { unfold StateManager.GetSnapshot in Hsnap.
    destruct (all_drivers_records kd s Hc Hkd)
      as (s1 & outd & ds & Hr1 & Hext1 & Hoc1 & _ & Hm1 & _).
    rewrite Hr1 in Hsnap.
    assert (Hko1 : range_of (orders s1) ko).
    { destruct Hext1 as (_ & -> & _). done. }
    destruct (all_orders_records ko s1 (closed_extends s s1 Hc Hext1) Hko1)
      as (s2 & outo & os & Hr2 & Hext2 & Hdc2 & _ & Hm2 & _).
    rewrite Hr2 in Hsnap. injection Hsnap as <- <-. simpl. split.
    - rewrite Hdc2. by eapply copies_resolve.
    - by eapply copies_resolve. }
  destruct Hres as [Hrd Hro].
  exists s', snap,
    (omap (fun p => dcell s' !! p) (StateManager.Drivers snap)),
    (omap (fun p => ocell s' !! p) (StateManager.Orders snap)).
  unfold Handler.getStateHandler, Handler.deref_map. rewrite Hsnap.
  rewrite !bool_decide_eq_true_2 by done. rewrite Hts.
  split_and!; try done.
  - intros id. rewrite lookup_omap. apply Hdv.
  - intros id. rewrite lookup_omap. apply Hov.
Qed.

(** X23. The three collection routes on a well-formed store always answer
    200. The body of [GET /drivers] lists the drivers the store holds, one
    per ID in the order the loop met the IDs, that of [GET /orders] the
    orders, and the body of [GET /debug/state] shows under every ID
    exactly the driver and the order the store holds under it, with the
    clock reading as its timestamp. None of them changes anything the
    store holds. *)
Theorem GET_collections (now : Z) (kd ko : list (string * ptr))
    (s : State) :
  wf s -> range_of (drivers s) kd -> range_of (orders s) ko ->
  (exists s' ds,
     Handler.getAllDriversHandler kd s
       = Some (s', (Handler.StatusOK, Handler.driversJSON ds)) /\
     Some <$> ds = (fun k => driver_at s k) <$> kd.*1 /\
     length ds = size (drivers s) /\
     wf s' /\ records_same s s') /\
  (exists s' os,
     Handler.getAllOrdersHandler ko s
       = Some (s', (Handler.StatusOK, Handler.ordersJSON os)) /\
     Some <$> os = (fun k => order_at s k) <$> ko.*1 /\
     length os = size (orders s) /\
     wf s' /\ records_same s s') /\
  (exists s' ds os,
     Handler.getStateHandler now kd ko s
       = Some (s', (Handler.StatusOK, Handler.snapshotJSON ds os now)) /\
     (forall id, ds !! id = driver_at s id) /\
     (forall id, os !! id = order_at s id) /\
     wf s' /\ records_same s s').
Proof.
  intros Hwf Hkd Hko. pose proof (closed_of_wf s Hwf) as Hc. split_and!.
  - destruct (all_drivers_records kd s Hc Hkd)
      as (s' & out & ds & Hrun & Hext & _ & _ & Hm & Hds).
    exists s', ds.
    unfold Handler.getAllDriversHandler, DriverUseCase.GetAllDrivers,
      StateManager.GetAllDrivers. rewrite Hrun, Hm.
    split_and!; try done.
    + rewrite <- (length_fmap Some ds), Hds, !length_fmap.
      by apply range_of_length.
    + by eapply extends_wf.
    + by apply records_same_extends.
  - destruct (all_orders_records ko s Hc Hko)
      as (s' & out & os & Hrun & Hext & _ & _ & Hm & Hos).
    exists s', os.
    unfold Handler.getAllOrdersHandler, OrderUseCase.GetAllOrders,
      StateManager.GetAllOrders. rewrite Hrun, Hm.
    split_and!; try done.
    + rewrite <- (length_fmap Some os), Hos, !length_fmap.
      by apply range_of_length.
    + by eapply extends_wf.
    + by apply records_same_extends.
  - destruct (getStateHandler_records now kd ko s Hc Hkd Hko)
      as (s' & snap & ds & os & _ & Hrun & Hext & Hds & Hos).
    exists s', ds, os. split_and!; try done.
    + by eapply extends_wf.
    + by apply records_same_extends.
Qed.

Lemma GET_collections_witness :
  (exists s' ds,
     Handler.getAllDriversHandler (map_to_list (drivers Sample.store))
       Sample.store = Some (s', (200, Handler.driversJSON ds)) /\
     Some <$> ds
       = (fun k => driver_at Sample.store k)
           <$> (map_to_list (drivers Sample.store)).*1 /\
     length ds = size (drivers Sample.store) /\
     wf s' /\ records_same Sample.store s') /\
  (exists s' ds os,
     Handler.getStateHandler 60 (map_to_list (drivers Sample.store))
       (map_to_list (orders Sample.store)) Sample.store
       = Some (s', (200, Handler.snapshotJSON ds os 60)) /\
     (forall id, ds !! id = driver_at Sample.store id) /\
     (forall id, os !! id = order_at Sample.store id) /\
     wf s' /\ records_same Sample.store s').
Proof.
  destruct (GET_collections 60 (map_to_list (drivers Sample.store))
              (map_to_list (orders Sample.store)) Sample.store)
    as (H1 & _ & H3);
    [ apply reachable_wf, reachable_Sample_store
    | unfold range_of; reflexivity | unfold range_of; reflexivity | ].
  split; [exact H1 | exact H3].
Defined.

(** ** The running service *)

Lemma run_reachable (o : op) (s s' : State) :
  reachable s -> run o s = Some s' -> reachable s'.
Proof. intros Hs Hrun. by eapply reachable_step. Qed.

Lemma createOrUpdateDriverHandler_step (now : Z) (bound : Driver.t)
    (bindErr : bool) (s : State) :
  reachable s ->
  exists s' r,
    Handler.createOrUpdateDriverHandler now bound bindErr s = Some (s', r) /\
    reachable s'.
Proof.
  intros Hs. unfold Handler.createOrUpdateDriverHandler. simpl.
  set (p := fresh (dom (dcell s))).
  set (s0 := upd_dcell <[p := bound]> s).
  assert (Hs0 : reachable s0) by (by apply (run_reachable (OpNewDriver bound) s)).
  assert (Hcell : dcell s0 !! p = Some bound) by apply lookup_insert_eq.
  destruct bindErr; [by eexists _, _|].
  assert (Hrun : exists s1 r,
    DriverUseCase.CreateOrUpdateDriver now p s0 = Some (s1, r) /\
    is_Some (dcell s1 !! p)).
  { unfold DriverUseCase.CreateOrUpdateDriver,
      StateManager.CreateOrUpdateDriver.
    rewrite Hcell.
    destruct (bool_decide (Driver.ID bound = "") ||
              bool_decide (Driver.Name bound = "")); [by eexists _, _|].
    destruct (negb (bool_decide (Driver.Status bound = "")) &&
              negb (IsValidDriverStatus (Driver.Status bound)));
      [by eexists _, _|].
    destruct (bool_decide (Driver.Status bound = "")).
    - simpl. rewrite lookup_insert_eq. eexists _, _. split; [reflexivity|].
      simpl. rewrite lookup_insert_eq. by eexists.
    - rewrite Hcell. eexists _, _. split; [reflexivity|].
      simpl. rewrite lookup_insert_eq. by eexists. }
  destruct Hrun as (s1 & r & Hrun & [d Hd]). rewrite Hrun, Hd.
  assert (reachable s1).
  { apply (run_reachable (OpCreateOrUpdateDriver now p) s0 s1 Hs0).
    simpl. by rewrite Hrun. }
  destruct r; by eexists _, _.
Qed.

Lemma createOrderHandler_step (now : Z) (bound : Order.t) (bindErr : bool)
    (s : State) :
  reachable s ->
  exists s' r,
    Handler.createOrderHandler now bound bindErr s = Some (s', r) /\
    reachable s'.
Proof.
  intros Hs. unfold Handler.createOrderHandler. simpl.
  set (p := fresh (dom (ocell s))).
  set (s0 := upd_ocell <[p := bound]> s).
  assert (Hs0 : reachable s0) by (by apply (run_reachable (OpNewOrder bound) s)).
  assert (Hcell : ocell s0 !! p = Some bound) by apply lookup_insert_eq.
  destruct bindErr; [by eexists _, _|].
  assert (Hrun : exists s1 r,
    OrderUseCase.CreateOrder now p s0 = Some (s1, r) /\
    is_Some (ocell s1 !! p)).
  { unfold OrderUseCase.CreateOrder, StateManager.CreateOrder.
    rewrite Hcell.
    destruct (bool_decide (Order.ID bound = "") ||
              bool_decide (Order.Customer bound = "")); [by eexists _, _|].
    eexists _, _. split; [reflexivity|].
    simpl. rewrite lookup_insert_eq. by eexists. }
  destruct Hrun as (s1 & r & Hrun & [o Ho]). rewrite Hrun, Ho.
  assert (reachable s1).
  { apply (run_reachable (OpCreateOrder now p) s0 s1 Hs0).
    simpl. by rewrite Hrun. }
  destruct r; by eexists _, _.
Qed.

Lemma getDriverHandler_step (id : string) (s : State) :
  reachable s ->
  exists s' r, Handler.getDriverHandler id s = Some (s', r) /\ reachable s'.
Proof.
  intros Hs. pose proof (reachable_wf s Hs) as Hwf.
  assert (Hex : exists s' r, Handler.getDriverHandler id s = Some (s', r)).
  { destruct (driver_at s id) as [d|] eqn:Hd.
    - destruct (getDriverHandler_found id s d Hwf Hd) as (s' & Hrun & _).
      by eexists _, _.
    - apply (driver_at_None id s (closed_of_wf s Hwf)) in Hd.
      unfold Handler.getDriverHandler, DriverUseCase.GetDriver,
        StateManager.GetDriver. rewrite Hd. by eexists _, _. }
  destruct Hex as (s' & r & Hrun). exists s', r. split; [done|].
  apply (run_reachable (OpGetDriver id) s s' Hs). simpl.
  unfold Handler.getDriverHandler in Hrun.
  destruct (DriverUseCase.GetDriver id s) as [[s1 [q|e]]|]; [| |done].
  - destruct (dcell s1 !! q); [|done]. by injection Hrun as <- _.
  - by injection Hrun as <- _.
Qed.

Lemma getOrderHandler_step (id : string) (s : State) :
  reachable s ->
  exists s' r, Handler.getOrderHandler id s = Some (s', r) /\ reachable s'.
Proof.
  intros Hs. pose proof (reachable_wf s Hs) as Hwf.
  assert (Hex : exists s' r, Handler.getOrderHandler id s = Some (s', r)).
  { destruct (order_at s id) as [o|] eqn:Ho.
    - destruct (getOrderHandler_found id s o Hwf Ho) as (s' & Hrun & _).
      by eexists _, _.
    - apply (order_at_None id s (closed_of_wf s Hwf)) in Ho.
      unfold Handler.getOrderHandler, OrderUseCase.GetOrder,
        StateManager.GetOrder. rewrite Ho. by eexists _, _. }
  destruct Hex as (s' & r & Hrun). exists s', r. split; [done|].
  apply (run_reachable (OpGetOrder id) s s' Hs). simpl.
  unfold Handler.getOrderHandler in Hrun.
  destruct (OrderUseCase.GetOrder id s) as [[s1 [q|e]]|]; [| |done].
  - destruct (ocell s1 !! q); [|done]. by injection Hrun as <- _.
  - by injection Hrun as <- _.
Qed.

Lemma updateDriverStatusHandler_step (now : Z) (id : string)
    (st : DriverStatus) (bindErr : bool) (s : State) :
  reachable s ->
  exists s' r,
    Handler.updateDriverStatusHandler now id st bindErr s = Some (s', r) /\
    reachable s'.
Proof.
  intros Hs. pose proof (reachable_wf s Hs) as Hwf.
  unfold Handler.updateDriverStatusHandler.
  destruct bindErr; [by eexists _, _|].
  assert (Hex : exists s1 e,
            DriverUseCase.UpdateDriverStatus now id st s = Some (s1, e) /\
            (e = None -> is_Some (driver_at s1 id))).
  { unfold DriverUseCase.UpdateDriverStatus, StateManager.UpdateDriverStatus.
    destruct (negb (IsValidDriverStatus st)); [by eexists _, _|].
    destruct (drivers s !! id) as [p|] eqn:Hp; [|by eexists _, _].
    destruct (wf_drivers s Hwf id p Hp) as (d & Hcell & _). rewrite Hcell.
    eexists _, _. split; [reflexivity|]. intros _.
    unfold driver_at. simpl. rewrite Hp. simpl. rewrite lookup_insert_eq.
    by eexists. }
  destruct Hex as (s1 & e & Hrun & Hheld). rewrite Hrun.
  assert (Hs1 : reachable s1).
  { apply (run_reachable (OpUpdateDriverStatus now id st) s s1 Hs).
    simpl. by rewrite Hrun. }
  destruct e as [e|]; [by eexists _, _|].
  destruct (Hheld eq_refl) as [d Hd].
  destruct (GetDriver_returns_copy id s1 d
              (closed_of_wf _ (reachable_wf s1 Hs1)) Hd)
    as (s2 & q & Hget & _ & Hcell & _).
  unfold DriverUseCase.GetDriver. rewrite Hget, Hcell.
  eexists _, _. split; [reflexivity|].
  apply (run_reachable (OpGetDriver id) s1 s2 Hs1). simpl.
  unfold DriverUseCase.GetDriver. by rewrite Hget.
Qed.

Lemma updateOrderStatusHandler_step (now : Z) (id : string)
    (st : OrderStatus) (bindErr : bool) (s : State) :
  reachable s ->
  exists s' r,
    Handler.updateOrderStatusHandler now id st bindErr s = Some (s', r) /\
    reachable s'.
Proof.
  intros Hs. pose proof (reachable_wf s Hs) as Hwf.
  unfold Handler.updateOrderStatusHandler.
  destruct bindErr; [by eexists _, _|].
  assert (Hex : exists s1 e,
            OrderUseCase.UpdateOrderStatus now id st s = Some (s1, e) /\
            (e = None -> is_Some (order_at s1 id))).
  { unfold OrderUseCase.UpdateOrderStatus, StateManager.UpdateOrderStatus.
    destruct (negb (IsValidOrderStatus st)); [by eexists _, _|].
    destruct (orders s !! id) as [p|] eqn:Hp; [|by eexists _, _].
    destruct (wf_orders s Hwf id p Hp) as (o & Hcell & _). rewrite Hcell.
    destruct (negb (CanTransitionOrderStatus (Order.Status o) st));
      [by eexists _, _|].
    eexists _, _. split; [reflexivity|]. intros _.
    unfold order_at. simpl. rewrite Hp. simpl. rewrite lookup_insert_eq.
    by eexists. }
  destruct Hex as (s1 & e & Hrun & Hheld). rewrite Hrun.
  assert (Hs1 : reachable s1).
  { apply (run_reachable (OpUpdateOrderStatus now id st) s s1 Hs).
    simpl. by rewrite Hrun. }
  destruct e as [e|]; [by eexists _, _|].
  destruct (Hheld eq_refl) as [o Ho].
  destruct (GetOrder_returns_copy id s1 o
              (closed_of_wf _ (reachable_wf s1 Hs1)) Ho)
    as (s2 & q & Hget & _ & Hcell & _).
  unfold OrderUseCase.GetOrder. rewrite Hget, Hcell.
  eexists _, _. split; [reflexivity|].
  apply (run_reachable (OpGetOrder id) s1 s2 Hs1). simpl.
  unfold OrderUseCase.GetOrder. by rewrite Hget.
Qed.

(** One event from a reachable state: it is handled, and the state it
    leaves is reachable, if the matcher is the copy with one repository or
    the event is a request. *)
Lemma handle_step (c : matcher_copy) (ko kd : State -> list (string * ptr))
    (e : event) (s : State) :
  range_of (orders s) (ko s) -> range_of (drivers s) (kd s) ->
  reachable s ->
  c = single_repository \/ (forall clock, e <> Tick clock) ->
  exists s' out, handle c ko kd e s = Some (s', out) /\ reachable s'.
Proof.
  intros Hko Hkd Hs Hc0. pose proof (reachable_wf s Hs) as Hwf.
  pose proof (closed_of_wf s Hwf) as Hc.
  destruct e as [now bound bindErr | | id | now id st bindErr
                | now bound bindErr | | id | now id st bindErr
                | now | clock]; simpl.
  - destruct (createOrUpdateDriverHandler_step now bound bindErr s Hs)
      as (s' & r & -> & Hs'). by eexists _, _.
  - destruct (all_drivers_records (kd s) s Hc Hkd)
      as (s' & out & ds & Hrun & _ & _ & _ & Hm & _).
    unfold Handler.getAllDriversHandler, DriverUseCase.GetAllDrivers,
      StateManager.GetAllDrivers. rewrite Hrun, Hm. simpl.
    eexists _, _. split; [reflexivity|].
    apply (run_reachable (OpGetAllDrivers (kd s)) s s' Hs). simpl.
    unfold DriverUseCase.GetAllDrivers, StateManager.GetAllDrivers.
    by rewrite Hrun.
  - destruct (getDriverHandler_step id s Hs) as (s' & r & -> & Hs').
    by eexists _, _.
  - destruct (updateDriverStatusHandler_step now id st bindErr s Hs)
      as (s' & r & -> & Hs'). by eexists _, _.
  - destruct (createOrderHandler_step now bound bindErr s Hs)
      as (s' & r & -> & Hs'). by eexists _, _.
  - destruct (all_orders_records (ko s) s Hc Hko)
      as (s' & out & os & Hrun & _ & _ & _ & Hm & _).
    unfold Handler.getAllOrdersHandler, OrderUseCase.GetAllOrders,
      StateManager.GetAllOrders. rewrite Hrun, Hm. simpl.
    eexists _, _. split; [reflexivity|].
    apply (run_reachable (OpGetAllOrders (ko s)) s s' Hs). simpl.
    unfold OrderUseCase.GetAllOrders, StateManager.GetAllOrders.
    by rewrite Hrun.
  - destruct (getOrderHandler_step id s Hs) as (s' & r & -> & Hs').
    by eexists _, _.
  - destruct (updateOrderStatusHandler_step now id st bindErr s Hs)
      as (s' & r & -> & Hs'). by eexists _, _.
  - destruct (getStateHandler_records now (kd s) (ko s) s Hc Hkd Hko)
      as (s' & snap & ds & os & Hsnap & -> & _).
    eexists _, _. split; [reflexivity|].
    apply (run_reachable (OpGetSnapshot now (kd s) (ko s)) s s' Hs). simpl.
    by rewrite Hsnap.
  - destruct Hc0 as [->|Hreq]; [|by destruct (Hreq clock)]. simpl.
    destruct (MatchOrders_tick clock (ko s) (kd s) s Hwf Hko Hkd)
      as (s2 & s' & lg0 & _ & _ & _ & Hrun).
    rewrite Hrun. eexists _, _. split; [reflexivity|].
    eapply (MatchOrders_reachable (fun _ _ => True) clock (ko s) (kd s)
              s s'); [done | done | done | exact Hs | exact Hrun].
Qed.

(** With the one-repository matcher every sequence of events is served to
    the end, from any reachable state. *)
Lemma serve_reachable (ko kd : nat -> State -> list (string * ptr))
    (es : list event) (i : nat) (s : State) :
  (forall i s, range_of (orders s) (ko i s)) ->
  (forall i s, range_of (drivers s) (kd i s)) ->
  reachable s ->
  exists s' outs,
    serve single_repository ko kd i es s = Some (s', outs) /\
    length outs = length es /\
    reachable s'.
Proof.
  intros Hko Hkd. revert i s.
  induction es as [|e es IH]; intros i s Hs.
  - by exists s, [].
  - destruct (handle_step single_repository (ko i) (kd i) e s
                (Hko i s) (Hkd i s) Hs) as (s1 & out & Hrun & Hs1);
      [by left|].
    destruct (IH (S i) s1 Hs1) as (s' & outs & Hserve & Hlen & Hs').
    exists s', (out :: outs). simpl. rewrite Hrun, Hserve.
    split_and!; [done | by rewrite <- Hlen | done].
Qed.

(** With the other copy the first tick is the end. *)
Lemma serve_split_panics (ko kd : nat -> State -> list (string * ptr))
    (es : list event) (clock : nat -> Z * Z) (i : nat) (s : State) :
  (forall i s, range_of (orders s) (ko i s)) ->
  (forall i s, range_of (drivers s) (kd i s)) ->
  reachable s -> Tick clock ∈ es ->
  serve split_repositories ko kd i es s = None.
Proof.
  intros Hko Hkd. revert i s.
  induction es as [|e es IH]; intros i s Hs Hin.
  - by apply elem_of_nil in Hin.
  - assert (Hcases : (exists clock', e = Tick clock') \/
                     (forall clock', e <> Tick clock')).
    { destruct e; try (right; by intros); left; by eexists. }
    destruct Hcases as [[clock' ->]|Hreq]; [done|].
    destruct (handle_step split_repositories (ko i) (kd i) e s
                (Hko i s) (Hkd i s) Hs) as (s1 & out & Hrun & Hs1);
      [by right|].
    simpl. rewrite Hrun. rewrite (IH (S i) s1 Hs1); [done|].
    apply elem_of_cons in Hin as [Heq|Hin]; [|done].
    exfalso. by apply (Hreq clock).
Qed.

Lemma MatcherInterval_of_numeral (env : gmap string string) (n : Z) :
  - 9223372036 <= n <= 9223372036 ->
  env !! "MATCHER_INTERVAL" = Some (pretty n) ->
  config.MatcherInterval (config.LoadConfig env) = n * config.Second.
Proof.
  intros Hn Henv.
  unfold config.LoadConfig, config.getDurationEnv, os.LookupEnv. simpl.
  rewrite Henv, Atoi_pretty by (unfold config.Second; lia).
  apply int64_small. unfold config.Second. lia.
Qed.

Lemma MatcherInterval_default (env : gmap string string) :
  env !! "MATCHER_INTERVAL" = None \/ not_an_integer env "MATCHER_INTERVAL" ->
  config.MatcherInterval (config.LoadConfig env) = 3000000000 * config.Second.
Proof.
  unfold config.LoadConfig, config.getDurationEnv, os.LookupEnv,
    not_an_integer. simpl.
  intros [->|(value & -> & ->)]; by vm_compute.
Qed.

(** X24. What [main] serves. With the one-repository copy of the matcher
    and [MATCHER_INTERVAL] not set, rejected by [Atoi], or the numeral of
    a positive integer of at most 9223372036, every sequence of requests
    on the nine routes and of matcher ticks, handled one after the other
    with whatever iteration orders the maps give, is served to the end
    from the empty store, with one response or tick log per event, and
    ends in a state reachable by store operations. With [MATCHER_INTERVAL]
    the numeral of zero or of a negative integer (down to -9223372036) the
    process panics at the start of the matcher, whichever copy it is. With
    the copy that reads through [orderRepo] and [driverRepo] the process
    panics at the first tick. *)
Theorem main_serves_or_panics (env : gmap string string)
    (ko kd : nat -> State -> list (string * ptr)) (es : list event) :
  (forall i s, range_of (orders s) (ko i s)) ->
  (forall i s, range_of (drivers s) (kd i s)) ->
  (env !! "MATCHER_INTERVAL" = None \/
   not_an_integer env "MATCHER_INTERVAL" \/
   (exists n : Z, 0 < n <= 9223372036 /\
      env !! "MATCHER_INTERVAL" = Some (pretty n)) ->
     exists s' outs,
       main single_repository env ko kd es = Some (s', outs) /\
       length outs = length es /\
       reachable s') /\
  (forall (c : matcher_copy) (n : Z), - 9223372036 <= n <= 0 ->
     env !! "MATCHER_INTERVAL" = Some (pretty n) ->
     main c env ko kd es = None) /\
  (forall clock, Tick clock ∈ es ->
     main split_repositories env ko kd es = None).
Proof.
  intros Hko Hkd. unfold main. split_and!.
  - intros Hpos.
    assert (0 < config.MatcherInterval (config.LoadConfig env)) as Hi.
    { destruct Hpos as [Hd|[Hd|(n & Hn & Henv)]].
      - rewrite MatcherInterval_default by auto. by vm_compute.
      - rewrite MatcherInterval_default by auto. by vm_compute.
      - rewrite (MatcherInterval_of_numeral env n) by (done || lia).
        unfold config.Second. lia. }
    cbv zeta. rewrite bool_decide_eq_false_2 by lia.
    apply serve_reachable; [done | done | apply reachable_init].
  - intros c n Hn Henv. cbv zeta.
    rewrite bool_decide_eq_true_2; [done|].
    rewrite (MatcherInterval_of_numeral env n) by (done || lia).
    unfold config.Second. lia.
  - intros clock Hin. cbv zeta. case_bool_decide; [done|].
    apply (serve_split_panics ko kd es clock 0 NewStateManager Hko Hkd);
      [apply reachable_init | done].
Qed.

Lemma main_serves_or_panics_witness :
  (exists s' outs,
     main single_repository ∅ (fun _ s => map_to_list (orders s))
       (fun _ s => map_to_list (drivers s))
       [ Req_POST_drivers 10 Sample.d1 false;
         Req_POST_orders 12 Sample.o1 false;
         Tick Sample.clock; Req_GET_debug_state 30;
         Req_PATCH_order_status 40 "o1" OrderPickedUp false ]
       = Some (s', outs) /\
     length outs = 5%nat /\
     reachable s') /\
  main single_repository {[ "MATCHER_INTERVAL" := "0" ]}
    (fun _ s => map_to_list (orders s)) (fun _ s => map_to_list (drivers s))
    [ Req_POST_drivers 10 Sample.d1 false; Tick Sample.clock ] = None /\
  main split_repositories ∅
    (fun _ s => map_to_list (orders s)) (fun _ s => map_to_list (drivers s))
    [ Req_POST_drivers 10 Sample.d1 false; Tick Sample.clock ] = None.
Proof.
  assert (Hr : forall (m : State -> gmap string positive) (i : nat) (s : State),
            range_of (m s) ((fun (_ : nat) s => map_to_list (m s)) i s)).
  { intros m i s. unfold range_of. reflexivity. }
  split_and!.
  - destruct (main_serves_or_panics ∅
                (fun _ s => map_to_list (orders s))
                (fun _ s => map_to_list (drivers s))
                [ Req_POST_drivers 10 Sample.d1 false;
                  Req_POST_orders 12 Sample.o1 false;
                  Tick Sample.clock; Req_GET_debug_state 30;
                  Req_PATCH_order_status 40 "o1" OrderPickedUp false ]
                (Hr orders) (Hr drivers)) as (H & _).
    apply H. left. reflexivity.
  - destruct (main_serves_or_panics {[ "MATCHER_INTERVAL" := "0" ]}
                (fun _ s => map_to_list (orders s))
                (fun _ s => map_to_list (drivers s))
                [ Req_POST_drivers 10 Sample.d1 false; Tick Sample.clock ]
                (Hr orders) (Hr drivers)) as (_ & H & _).
    apply (H single_repository 0); [lia | reflexivity].
  - destruct (main_serves_or_panics ∅
                (fun _ s => map_to_list (orders s))
                (fun _ s => map_to_list (drivers s))
                [ Req_POST_drivers 10 Sample.d1 false; Tick Sample.clock ]
                (Hr orders) (Hr drivers)) as (_ & _ & H).
    apply (H Sample.clock). apply elem_of_cons. right.
    apply elem_of_cons. by left.
Defined.
